(** * EcomSync payment server: checkout orchestration and webhook processing

    A shallow embedding of the TypeScript back end:
      - [server/src/services/order.service.ts]   (order repository),
      - [server/src/services/stripe.service.ts]  (gateway wrapper),
      - [server/src/controllers/checkout.controller.ts],
      - [server/src/controllers/webhook.controller.ts].

    Asynchronous functions are programs whose [await] points are explicit;
    every awaited database or gateway call is one atomic action on a world
    made of the two tables, the gateway, a uuid supply and a clock.  The
    statements of a body handed to [prisma.$transaction] are such actions
    too: between them other requests run; its writes reach the tables at
    commit, all of them or none.  The payment provider and the type of the
    [amount] column are parameters. *)

From Stdlib Require Import ZArith List String Bool Lia DecimalString DecimalNat.
Import ListNotations.
Open Scope string_scope.
Open Scope Z_scope.

(* ===================================================================== *)
(** ** JavaScript numbers

    The [number] fields of a request ([price], [quantity]) are IEEE-754
    doubles.  A finite double is an integer or a dyadic fraction
    [m / 2^e]; sums and products are the exact result rounded to 53
    significant bits (nearest, ties to even) at the exponent of the
    result, which is bounded below by that of the subnormals, and overflow
    gives an infinity: what the hardware does.  Negative zero is
    identified with zero: the total starts from [+0], so it never shows in
    a sum. *)

Module JS.

Inductive number : Type :=
| Fin (z : Z)
| Frac (m : Z) (e : positive)        (* m / 2^e, with m odd *)
| PInf
| NInf
| NaN.

Definition MAX_SAFE : Z := 2 ^ 53.

(** Round an integer to 53 significant bits, nearest with ties to even. *)
Definition round53 (z : Z) : Z :=
  let a := Z.abs z in
  if a <? MAX_SAFE then z
  else
    let e := Z.log2 a - 52 in
    let q := Z.shiftr a e in
    let r := a - Z.shiftl q e in
    let half := Z.shiftl 1 (e - 1) in
    let q' := if r <? half then q
              else if half <? r then q + 1
              else if Z.even q then q else q + 1 in
    Z.sgn z * Z.shiftl q' e.

(** The double nearest to an exact integer result; overflow gives an
    infinity. *)
Definition of_exact (z : Z) : number :=
  let r := round53 z in
  if 2 ^ 1024 <=? Z.abs r then (if 0 <? z then PInf else NInf) else Fin r.

(** An integer that is a double: rounding leaves it alone. *)
Definition representable (z : Z) : Prop :=
  of_exact z = Fin z.

(** [n / 2^k] in lowest terms. *)
Fixpoint lowest_terms (fuel : nat) (n k : Z) : number :=
  match fuel with
  | S fuel' =>
      if (0 <? k) && Z.even n then lowest_terms fuel' (n / 2) (k - 1)
      else if 0 <? k then Frac n (Z.to_pos k) else Fin n
  | O => if 0 <? k then Frac n (Z.to_pos k) else Fin n
  end.

Definition lowest (n k : Z) : number :=
  if n =? 0 then Fin 0 else lowest_terms (Z.to_nat k) n k.

(** The double nearest to the exact result [n / 2^k], [0 <= k]: the last
    place kept is 52 binary places below the leading one, and never below
    [2^-1074]. *)
Definition of_dyadic (n k : Z) : number :=
  let a := Z.abs n in
  if a =? 0 then Fin 0
  else
    let ulp := Z.max (Z.log2 a - k - 52) (- 1074) in
    let s := ulp + k in
    if s <=? 0 then lowest n k
    else
      let q := Z.shiftr a s in
      let r := a - Z.shiftl q s in
      let half := Z.shiftl 1 (s - 1) in
      let q' := if r <? half then q
                else if half <? r then q + 1
                else if Z.even q then q else q + 1 in
      let v := Z.sgn n * q' in
      if 0 <=? ulp then
        if 2 ^ 1024 <=? Z.abs (Z.shiftl v ulp)
        then (if 0 <? n then PInf else NInf)
        else Fin (Z.shiftl v ulp)
      else lowest v (- ulp).

(** [x + y] *)
Definition add (x y : number) : number :=
  match x, y with
  | NaN, _ | _, NaN => NaN
  | PInf, NInf | NInf, PInf => NaN
  | PInf, _ | _, PInf => PInf
  | NInf, _ | _, NInf => NInf
  | Fin a, Fin b => of_exact (a + b)
  | Fin a, Frac m e => of_dyadic (a * 2 ^ Zpos e + m) (Zpos e)
  | Frac m e, Fin b => of_dyadic (m + b * 2 ^ Zpos e) (Zpos e)
  | Frac m1 e1, Frac m2 e2 =>
      let k := Z.max (Zpos e1) (Zpos e2) in
      of_dyadic (m1 * 2 ^ (k - Zpos e1) + m2 * 2 ^ (k - Zpos e2)) k
  end.

Definition inf_of_sign (s : Z) : number :=
  if s =? 0 then NaN else if 0 <? s then PInf else NInf.

(** [x * y] *)
Definition mul (x y : number) : number :=
  match x, y with
  | NaN, _ | _, NaN => NaN
  | Fin a, Fin b => of_exact (a * b)
  | Fin a, Frac m e => of_dyadic (a * m) (Zpos e)
  | Frac m e, Fin b => of_dyadic (m * b) (Zpos e)
  | Frac m1 e1, Frac m2 e2 => of_dyadic (m1 * m2) (Zpos e1 + Zpos e2)
  | Fin a, PInf | PInf, Fin a => inf_of_sign a
  | Fin a, NInf | NInf, Fin a => inf_of_sign (- a)
  | Frac m _, PInf | PInf, Frac m _ => inf_of_sign m
  | Frac m _, NInf | NInf, Frac m _ => inf_of_sign (- m)
  | PInf, PInf | NInf, NInf => PInf
  | PInf, NInf | NInf, PInf => NInf
  end.

(** [x < y]; false as soon as one side is NaN. *)
Definition lt (x y : number) : bool :=
  match x, y with
  | NaN, _ | _, NaN => false
  | Fin a, Fin b => a <? b
  | Fin a, Frac m e => a * 2 ^ Zpos e <? m
  | Frac m e, Fin b => m <? b * 2 ^ Zpos e
  | Frac m1 e1, Frac m2 e2 => m1 * 2 ^ Zpos e2 <? m2 * 2 ^ Zpos e1
  | NInf, Fin _ | NInf, Frac _ _ | NInf, PInf | Fin _, PInf | Frac _ _, PInf => true
  | _, _ => false
  end.

(** Truthiness of a number: [0] and [NaN] are falsy. *)
Definition truthy (x : number) : bool :=
  match x with
  | Fin z => negb (z =? 0)
  | Frac m _ => negb (m =? 0)
  | NaN => false
  | PInf | NInf => true
  end.

(** A property read off a JSON body may be absent ([undefined]). *)
Definition to_number (x : option number) : number :=
  match x with Some n => n | None => NaN end.

(** Truthiness of an optional string: [undefined] and [""] are falsy. *)
Definition truthy_str (s : option string) : bool :=
  match s with
  | Some s => negb (String.eqb s "")
  | None => false
  end.

Definition truthy_num (x : option number) : bool :=
  match x with Some n => truthy n | None => false end.

End JS.

Import JS.

(* ===================================================================== *)
(** ** Request and response types ([types/index.ts]) *)

(** [CartItem] as it arrives in a parsed JSON body: the interface promises
    four fields, the run time checks none of them until the controller
    does. *)
Record CartItem : Type := mkCartItem {
  item_id : option string;
  item_name : option string;
  item_price : option number;
  item_quantity : option number
}.

(** The parsed body of a checkout request.  An element of the [items]
    array is an object, read as a [CartItem] whatever fields it has, or
    [null]. *)
Record CreateCheckoutRequest : Type := mkCheckoutBody {
  req_items : option (list (option CartItem));
  req_idempotencyKey : option string
}.

Definition objects (items : list CartItem) : list (option CartItem) :=
  map Some items.

(** A body whose items are all objects. *)
Definition mkCheckoutRequest (items : option (list CartItem)) (key : option string)
  : CreateCheckoutRequest :=
  mkCheckoutBody (option_map objects items) key.

Record CreateCheckoutResponse : Type := mkCheckoutResponse {
  res_success : bool;
  res_sessionUrl : option string;
  res_orderId : option string;
  res_error : option string
}.

Inductive StripeErrorType : Type :=
| StripeCardError
| StripeRateLimitError
| StripeInvalidRequestError
| StripeAPIError
| StripeConnectionError
| StripeAuthenticationError
| StripeIdempotencyError.

Record StripeSessionResult : Type := mkSessionResult {
  sr_success : bool;
  sr_sessionId : option string;
  sr_sessionUrl : option string;
  sr_error : option string;
  sr_errorType : option StripeErrorType
}.

(** [calculateOrderTotal]: [items.reduce((total, item) => total +
    item.price * item.quantity, 0)]. *)
Definition calculateOrderTotal (items : list CartItem) : number :=
  fold_left
    (fun total item =>
       add total (mul (to_number (item_price item)) (to_number (item_quantity item))))
    items (Fin 0).

(** The loop body of the controller's validation: an item is refused when
    [!item.id || !item.quantity || item.quantity < 1]. *)
Definition item_rejected (item : CartItem) : bool :=
  negb (truthy_str (item_id item))
  || negb (truthy_num (item_quantity item))
  || lt (to_number (item_quantity item)) (Fin 1).

(** The loop itself, [for (const item of items)]: it runs to its end, or
    stops at the first item it refuses, or throws a [TypeError] when it
    reads [item.id] off a [null] element. *)
Inductive Validation : Type :=
| Validated (items : list CartItem)
| Refused
| NullItem.

Fixpoint validate (elements : list (option CartItem)) : Validation :=
  match elements with
  | [] => Validated []
  | None :: _ => NullItem
  | Some item :: rest =>
      if item_rejected item then Refused
      else match validate rest with
           | Validated items => Validated (item :: items)
           | Refused => Refused
           | NullItem => NullItem
           end
  end.

(** The exact total over the integers, for items whose price and quantity
    are integers. *)
Definition line_exact (item : CartItem) : option Z :=
  match item_price item, item_quantity item with
  | Some (Fin p), Some (Fin q) => Some (p * q)
  | _, _ => None
  end.

Fixpoint exact_total (items : list CartItem) : option Z :=
  match items with
  | [] => Some 0
  | item :: rest =>
      match line_exact item, exact_total rest with
      | Some l, Some t => Some (l + t)
      | _, _ => None
      end
  end.

Example round_tie_to_even_down : of_exact (2 ^ 53 + 1) = Fin (2 ^ 53).
Proof. vm_compute. reflexivity. Qed.

Example round_tie_to_even_up : of_exact (2 ^ 53 + 3) = Fin (2 ^ 53 + 4).
Proof. vm_compute. reflexivity. Qed.

Example round_overflow : of_exact (2 ^ 1024) = PInf.
Proof. vm_compute. reflexivity. Qed.

Example total_p1 :
  calculateOrderTotal
    [mkCartItem (Some "p1") None (Some (Fin 500)) (Some (Fin 2))] = Fin 1000.
Proof. reflexivity. Qed.

Example total_rounds :
  calculateOrderTotal
    [mkCartItem (Some "a") None (Some (Fin (2 ^ 53))) (Some (Fin 1));
     mkCartItem (Some "b") None (Some (Fin 1)) (Some (Fin 1));
     mkCartItem (Some "c") None (Some (Fin (- 2 ^ 53))) (Some (Fin 1))] = Fin 0.
Proof. vm_compute. reflexivity. Qed.

(* ===================================================================== *)
(** ** Persisted layout ([prisma/schema.prisma] as quoted in the README)

    [Order.id] is the primary key, [idempotencyKey] is [@unique],
    [stripeCheckoutId] is [String? @unique]; [WebhookEvent.id] is the
    primary key.  A table is the list of its rows, so that the uniqueness
    of a key is a property to prove, not one the container gives away. *)

Inductive OrderStatus : Type := PENDING | PROCESSING | PAID | FAILED.

Record Order : Type := mkOrder {
  order_id : string;
  status : OrderStatus;
  amount : number;
  currency : string;
  items : list CartItem;
  idempotencyKey : string;
  stripeCheckoutId : option string;
  stripePaymentId : option string;
  customerEmail : option string;
  paidAt : option Z
}.

Record WebhookEvent : Type := mkWebhookEvent {
  event_id : string;
  event_type : string
}.

Record Database : Type := mkDatabase {
  orders : list Order;
  webhookEvents : list WebhookEvent
}.

Definition status_eqb (a b : OrderStatus) : bool :=
  match a, b with
  | PENDING, PENDING | PROCESSING, PROCESSING | PAID, PAID | FAILED, FAILED => true
  | _, _ => false
  end.

Definition opt_str_is (x : option string) (s : string) : bool :=
  match x with Some y => String.eqb y s | None => false end.

(** What an awaited call can throw. *)
Inductive Exn : Type :=
| UniqueConstraintFailed      (* Prisma P2002 *)
| RecordNotFound              (* Prisma P2025 *)
| ValueNotStorable            (* a value the column's type refuses *)
| StorageUnavailable          (* connection lost, timeout, ... *)
| TypeError.                  (* a property read off [null] *)

Inductive Completion (A : Type) : Type :=
| Return (a : A)
| Throw (e : Exn).
Arguments Return {A} a.
Arguments Throw {A} e.

(** [where] clauses of [findUnique]. *)
Inductive OrderWhere : Type :=
| ById (id : string)
| ByIdempotencyKey (key : string)
| ByStripeCheckoutId (sid : string).

Definition order_matches (w : OrderWhere) (o : Order) : bool :=
  match w with
  | ById id => String.eqb (order_id o) id
  | ByIdempotencyKey key => String.eqb (idempotencyKey o) key
  | ByStripeCheckoutId sid => opt_str_is (stripeCheckoutId o) sid
  end.

(** [data] of [order.update]: an absent field is left alone; a nullable
    column can be set to [null]. *)
Record OrderUpdate : Type := mkOrderUpdate {
  set_status : option OrderStatus;
  set_stripeCheckoutId : option string;
  set_stripePaymentId : option (option string);
  set_customerEmail : option (option string);
  set_paidAt : option Z
}.

Definition or_else {A : Type} (x : option A) (d : A) : A :=
  match x with Some a => a | None => d end.

Definition apply_update (u : OrderUpdate) (o : Order) : Order :=
  {| order_id := order_id o;
     status := or_else (set_status u) (status o);
     amount := amount o;
     currency := currency o;
     items := items o;
     idempotencyKey := idempotencyKey o;
     stripeCheckoutId :=
       match set_stripeCheckoutId u with
       | Some s => Some s
       | None => stripeCheckoutId o
       end;
     stripePaymentId := or_else (set_stripePaymentId u) (stripePaymentId o);
     customerEmail := or_else (set_customerEmail u) (customerEmail o);
     paidAt := match set_paidAt u with Some t => Some t | None => paidAt o end |}.

(** The type of the [amount] column is declared in the schema file, of
    which the sources hold the README's excerpt only ([amount Int]).  What
    the column keeps of a number handed to it is a parameter: it keeps an
    integer as it is or refuses it, and may keep another number in place of
    a fraction (its integer part, for one) or refuse that too.  The server
    is verified for every such column. *)
Class OrderSchema : Type := {
  amount_column : number -> option number;
  amount_column_integer :
    forall z a, amount_column (Fin z) = Some a -> a = Fin z
}.

Definition with_amount (a : number) (o : Order) : Order :=
  {| order_id := order_id o;
     status := status o;
     amount := a;
     currency := currency o;
     items := items o;
     idempotencyKey := idempotencyKey o;
     stripeCheckoutId := stripeCheckoutId o;
     stripePaymentId := stripePaymentId o;
     customerEmail := customerEmail o;
     paidAt := paidAt o |}.

Module Table.

(** [tx.order.findUnique({ where })] *)
Definition order_findUnique (w : OrderWhere) (d : Database) : option Order :=
  find (order_matches w) (orders d).

(** [tx.order.create({ data })]: the column type may refuse the amount;
    the unique indexes on [id] and [idempotencyKey] refuse a second row;
    the row is returned as it was stored. *)
Definition order_create {SC : OrderSchema} (o : Order) (d : Database)
  : Completion Order * Database :=
  match amount_column (amount o) with
  | None => (Throw ValueNotStorable, d)
  | Some a =>
      if existsb (fun o' => String.eqb (order_id o') (order_id o)
                            || String.eqb (idempotencyKey o') (idempotencyKey o))
           (orders d)
      then (Throw UniqueConstraintFailed, d)
      else (Return (with_amount a o),
            mkDatabase (orders d ++ [with_amount a o]) (webhookEvents d))
  end.

(** [tx.order.update({ where: { id }, data })]: throws when no row has the
    id, or when the new [stripeCheckoutId] belongs to another row. *)
Definition order_update (id : string) (u : OrderUpdate) (d : Database)
  : Completion Order * Database :=
  match find (order_matches (ById id)) (orders d) with
  | None => (Throw RecordNotFound, d)
  | Some o =>
      let clash :=
        match set_stripeCheckoutId u with
        | Some s =>
            existsb (fun o' => negb (String.eqb (order_id o') id)
                               && opt_str_is (stripeCheckoutId o') s)
              (orders d)
        | None => false
        end in
      if clash then (Throw UniqueConstraintFailed, d)
      else
        (Return (apply_update u o),
         mkDatabase
           (map (fun o' => if String.eqb (order_id o') id
                           then apply_update u o' else o')
              (orders d))
           (webhookEvents d))
  end.

(** [tx.webhookEvent.findUnique({ where: { id } })] *)
Definition webhookEvent_findUnique (id : string) (d : Database) : option WebhookEvent :=
  find (fun e => String.eqb (event_id e) id) (webhookEvents d).

(** [tx.webhookEvent.create({ data })]: the primary key refuses a second
    row with the id. *)
Definition webhookEvent_create (e : WebhookEvent) (d : Database)
  : Completion WebhookEvent * Database :=
  if existsb (fun e' => String.eqb (event_id e') (event_id e)) (webhookEvents d)
  then (Throw UniqueConstraintFailed, d)
  else (Return e, mkDatabase (orders d) (webhookEvents d ++ [e])).

End Table.

(* ===================================================================== *)
(** ** The payment provider, as the SDK shows it to the service *)

(** [session.payment_intent]: an id, an expanded object, or [null]. *)
Inductive PaymentIntentRef : Type :=
| PI_id (id : string)
| PI_object (id : option string)
| PI_null.

(** The fields of [Stripe.Checkout.Session] the server reads. *)
Record CheckoutSession : Type := mkSession {
  session_id : string;
  session_url : option string;
  session_payment_intent : PaymentIntentRef;
  session_customer_email : option string   (* customer_details?.email *)
}.

(** [Stripe.Event]: [data.object] is read as a checkout session by the two
    session handlers. *)
Record StripeEvent : Type := mkEvent {
  ev_id : string;
  ev_type : string;
  ev_object : CheckoutSession
}.

Record StripeLineItem : Type := mkLineItem {
  li_name : option string;
  li_unit_amount : option number;
  li_quantity : option number
}.

(** The class of a thrown [Stripe.errors.StripeError] and its [code]; a
    thrown value of another kind is [NotStripeError]. *)
Inductive StripeErrorClass : Type :=
| CardErr | RateLimitErr | InvalidRequestErr | APIErr | ConnectionErr
| AuthenticationErr | OtherStripeErr.

Inductive StripeThrown : Type :=
| StripeErr (cls : StripeErrorClass) (code : option string)
| NotStripeError.

(** The gateway contract: session creation under an idempotency key,
    session retrieval, and signature verification on the raw payload.  Its
    behaviour is the provider's; the server is verified for every
    gateway. *)
Class PaymentGateway (G : Type) : Type := {
  sessions_create :
    G -> string -> list StripeLineItem -> string -> (StripeThrown + CheckoutSession) * G;
  sessions_retrieve : G -> string -> option CheckoutSession;
  constructEvent : string -> string -> option StripeEvent
}.

Inductive GatewayCall : Type :=
| CreateSession (orderId : string) (line_items : list StripeLineItem) (key : string)
| RetrieveSession (sid : string).

(* ===================================================================== *)
(** ** Worlds, atomic actions and asynchronous programs *)

Section Server.

Context {G : Type} {PG : PaymentGateway G}.

(** Everything a request can read or change.  [faults] is the outage plan
    of the storage layer: each storage call consumes its head, and fails
    when the head is [true]; the empty plan is a healthy store. *)
Record World : Type := mkWorld {
  db : Database;
  faults : list bool;
  gateway : G;
  calls : list GatewayCall;
  uuid_pool : nat -> string;
  uuid_next : nat;
  clock : Z
}.

Definition with_db (d : Database) (w : World) : World :=
  mkWorld d (faults w) (gateway w) (calls w) (uuid_pool w) (uuid_next w) (clock w).

Definition with_faults (f : list bool) (w : World) : World :=
  mkWorld (db w) f (gateway w) (calls w) (uuid_pool w) (uuid_next w) (clock w).

Definition with_gateway (g : G) (c : list GatewayCall) (w : World) : World :=
  mkWorld (db w) (faults w) g c (uuid_pool w) (uuid_next w) (clock w).

(** An asynchronous function: it is done, it has thrown, or it performs
    one atomic action on the world and goes on with the outcome. *)
Inductive Async (A : Type) : Type :=
| Done (a : A)
| Raise (e : Exn)
| Step {X : Type} (act : World -> X * World) (k : X -> Async A).
Arguments Done {A} a.
Arguments Raise {A} e.
Arguments Step {A X} act k.

Fixpoint bind {A B : Type} (p : Async A) (f : A -> Async B) : Async B :=
  match p with
  | Done a => f a
  | Raise e => Raise e
  | Step act k => Step act (fun x => bind (k x) f)
  end.

(** [try { p } catch (error) { h }] *)
Fixpoint try_catch {A : Type} (p : Async A) (h : Exn -> Async A) : Async A :=
  match p with
  | Done a => Done a
  | Raise e => h e
  | Step act k => Step act (fun x => try_catch (k x) h)
  end.

(** [await] of a call that may throw. *)
Definition await {A : Type} (act : World -> Completion A * World) : Async A :=
  Step act (fun c => match c with Return a => Done a | Throw e => Raise e end).

(** A call that cannot throw. *)
Definition perform {A : Type} (act : World -> A * World) : Async A :=
  Step act Done.

(** Run to completion with nothing in between. *)
Fixpoint run {A : Type} (p : Async A) (w : World) : Completion A * World :=
  match p with
  | Done a => (Return a, w)
  | Raise e => (Throw e, w)
  | Step act k => let (x, w') := act w in run (k x) w'
  end.

(** One storage round trip: subject to the outage plan. *)
Definition storage {A : Type} (f : Database -> Completion A * Database)
  : World -> Completion A * World :=
  fun w =>
    match faults w with
    | true :: rest => (Throw StorageUnavailable, with_faults rest w)
    | false :: rest =>
        let (c, d) := f (db w) in (c, with_db d (with_faults rest w))
    | [] => let (c, d) := f (db w) in (c, with_db d w)
    end.

Definition query {A : Type} (f : Database -> A) : World -> Completion A * World :=
  storage (fun d => (Return (f d), d)).

(** A transaction that no other request overlaps, as one action: the
    body's reads and writes are kept when the body returns and the commit
    goes through, and undone when the body throws or the commit fails.
    ([run_transaction] below: this is what [transaction] does when it runs
    alone.) *)
Definition transaction_alone {A : Type} (body : Async A) : World -> Completion A * World :=
  fun w =>
    match run body w with
    | (Return a, w') =>
        match faults w' with
        | true :: rest => (Throw StorageUnavailable, with_db (db w) (with_faults rest w'))
        | false :: rest => (Return a, with_faults rest w')
        | [] => (Return a, w')
        end
    | (Throw e, w') => (Throw e, with_db (db w) w')
    end.

(** [uuidv4()] and the [@default(uuid())] of [Order.id]. *)
Definition uuidv4 : World -> string * World :=
  fun w =>
    (uuid_pool w (uuid_next w),
     mkWorld (db w) (faults w) (gateway w) (calls w) (uuid_pool w) (S (uuid_next w)) (clock w)).

(** [new Date()] *)
Definition now : World -> Z * World :=
  fun w => (clock w, w).

End Server.

Arguments World G : clear implicits.
Arguments Async G A : clear implicits.
Arguments Done {G A} a.
Arguments Raise {G A} e.
Arguments Step {G A X} act k.

Declare Scope async_scope.
Delimit Scope async_scope with async.
Notation "x <- p ;; q" := (bind p (fun x => q))
  (at level 61, p at next level, right associativity) : async_scope.
Notation "p ;; q" := (bind p (fun _ => q))
  (at level 61, right associativity) : async_scope.
Open Scope async_scope.

(* ===================================================================== *)
(** ** Transactions

    [prisma.$transaction(async (tx) => { ... })].  The callback awaits one
    [tx] call after the other, and no isolation level is set: the database
    runs it at its default, read committed.  A statement is one round trip
    to the store; it reads what other requests have committed so far,
    together with the writes this transaction has made.  Those writes are
    kept aside and reach the tables at commit, all of them or none.  A
    write of the transaction that the tables no longer take, because of
    what another request has committed since (a second row for a unique
    key), throws at the transaction's next round trip, where the database
    would have made the statement wait for the other transaction and then
    fail. *)

(** The body of a transaction: reads and writes on the [tx] handle, and
    the clock.  ([new Date()] is no [await] in the source; here the
    reading of the clock is a step of its own, so the schedules of the
    source are among those of the embedding.) *)
Inductive Tx (A : Type) : Type :=
| TxDone (a : A)
| TxQuery {X : Type} (f : Database -> X) (k : X -> Tx A)
| TxWrite {X : Type} (f : Database -> Completion X * Database) (k : X -> Tx A)
| TxNow (k : Z -> Tx A).
Arguments TxDone {A} a.
Arguments TxQuery {A X} f k.
Arguments TxWrite {A X} f k.
Arguments TxNow {A} k.

Declare Scope tx_scope.
Delimit Scope tx_scope with tx.
Notation "x <~ op ;; k" := (op (fun x => k))
  (at level 61, op at next level, right associativity) : tx_scope.

(** The writes made so far, as what they make of the committed tables. *)
Definition Pending : Type := Database -> Completion Database.

Definition then_write {X : Type} (pending : Pending)
  (f : Database -> Completion X * Database) : Pending :=
  fun d =>
    match pending d with
    | Return view =>
        match f view with
        | (Return _, view') => Return view'
        | (Throw e, _) => Throw e
        end
    | Throw e => Throw e
    end.

Section Transactions.

Context {G : Type}.

(** The body as a plain program on the store. *)
Fixpoint tx_program {A : Type} (body : Tx A) : Async G A :=
  match body with
  | TxDone a => Done a
  | TxQuery f k => x <- await (query f) ;; tx_program (k x)
  | TxWrite f k => x <- await (storage f) ;; tx_program (k x)
  | TxNow k => t <- perform now ;; tx_program (k t)
  end.

(** One statement of a transaction: a round trip that leaves the tables
    alone. *)
Definition tx_statement {X : Type} (pending : Pending)
  (f : Database -> Completion X * Database) : World G -> Completion X * World G :=
  storage (fun d =>
             match pending d with
             | Return view => (fst (f view), d)
             | Throw e => (Throw e, d)
             end).

(** The commit: the writes reach the tables. *)
Definition tx_commit {A : Type} (pending : Pending) (a : A)
  : World G -> Completion A * World G :=
  storage (fun d =>
             match pending d with
             | Return d' => (Return a, d')
             | Throw e => (Throw e, d)
             end).

Fixpoint in_transaction {A : Type} (pending : Pending) (body : Tx A) : Async G A :=
  match body with
  | TxDone a => await (tx_commit pending a)
  | TxQuery f k =>
      x <- await (tx_statement pending (fun d => (Return (f d), d))) ;;
      in_transaction pending (k x)
  | TxWrite f k =>
      x <- await (tx_statement pending f) ;;
      in_transaction (then_write pending f) (k x)
  | TxNow k => t <- perform now ;; in_transaction pending (k t)
  end.

Definition transaction {A : Type} (body : Tx A) : Async G A :=
  in_transaction (fun d => Return d) body.

End Transactions.

(* ===================================================================== *)
(** ** [services/order.service.ts] *)

Section Services.

Context {G : Type} {PG : PaymentGateway G} {SC : OrderSchema}.

Record CreateOrderInput : Type := mkCreateOrderInput {
  in_items : list CartItem;
  in_idempotencyKey : string;
  in_amount : number;
  in_currency : option string
}.

(** [prisma.order.create] of a [PENDING] row; the id is drawn by the
    store. *)
Definition prisma_order_create_pending (input : CreateOrderInput)
  : World G -> Completion Order * World G :=
  fun w =>
    let (id, w1) := uuidv4 w in
    storage
      (Table.order_create
         {| order_id := id;
            status := PENDING;
            amount := in_amount input;
            currency := or_else (in_currency input) "usd";
            items := in_items input;
            idempotencyKey := in_idempotencyKey input;
            stripeCheckoutId := None;
            stripePaymentId := None;
            customerEmail := None;
            paidAt := None |})
      w1.

(** [createOrder]: look the key up, return the row found, else insert. *)
Definition createOrder (input : CreateOrderInput) : Async G Order :=
  existingOrder <-
    await (query (Table.order_findUnique (ByIdempotencyKey (in_idempotencyKey input)))) ;;
  match existingOrder with
  | Some o => Done o
  | None => await (prisma_order_create_pending input)
  end.

(** [updateOrderWithStripeSession] *)
Definition updateOrderWithStripeSession (orderId : string) (stripeCheckoutId : option string)
  : Async G Order :=
  await (storage
           (Table.order_update orderId
              (mkOrderUpdate (Some PROCESSING) stripeCheckoutId None None None))).

(** [findOrderByStripeCheckoutId] *)
Definition findOrderByStripeCheckoutId (stripeCheckoutId : string) : Async G (option Order) :=
  await (query (Table.order_findUnique (ByStripeCheckoutId stripeCheckoutId))).

(** [findOrderByIdempotencyKey] *)
Definition findOrderByIdempotencyKey (key : string) : Async G (option Order) :=
  await (query (Table.order_findUnique (ByIdempotencyKey key))).

(** The body handed to [prisma.$transaction] by [markOrderAsPaid]. *)
Definition markOrderAsPaid_body
  (stripeCheckoutId : string) (stripePaymentId customerEmail : option string)
  (webhookEventId : string) : Tx (option Order) :=
  ((* Step 1: was this webhook event already processed? *)
   existingEvent <~ TxQuery (Table.webhookEvent_findUnique webhookEventId) ;;
   match existingEvent with
   | Some _ => TxDone None
   | None =>
       (* Step 2: find the order by Stripe checkout id *)
       order <~ TxQuery (Table.order_findUnique (ByStripeCheckoutId stripeCheckoutId)) ;;
       match order with
       | None =>
           _ <~ TxWrite (Table.webhookEvent_create
                           (mkWebhookEvent webhookEventId "checkout.session.completed")) ;;
           TxDone None
       | Some order =>
           (* Step 3: already paid *)
           if status_eqb (status order) PAID then
             _ <~ TxWrite (Table.webhookEvent_create
                             (mkWebhookEvent webhookEventId "checkout.session.completed")) ;;
             TxDone (Some order)
           else
             (* Step 4: update the order to PAID *)
             t <~ TxNow ;;
             updatedOrder <~
               TxWrite (Table.order_update (order_id order)
                          (mkOrderUpdate (Some PAID) None (Some stripePaymentId)
                             (Some customerEmail) (Some t))) ;;
             (* Step 5: record the webhook event *)
             _ <~ TxWrite (Table.webhookEvent_create
                             (mkWebhookEvent webhookEventId "checkout.session.completed")) ;;
             TxDone (Some updatedOrder)
       end
   end)%tx.

(** [markOrderAsPaid] *)
Definition markOrderAsPaid
  (stripeCheckoutId : string) (stripePaymentId customerEmail : option string)
  (webhookEventId : string) : Async G (option Order) :=
  transaction
    (markOrderAsPaid_body stripeCheckoutId stripePaymentId customerEmail webhookEventId).

(** The body handed to [prisma.$transaction] by [markOrderAsFailed]. *)
Definition markOrderAsFailed_body (stripeCheckoutId webhookEventId : string)
  : Tx (option Order) :=
  (existingEvent <~ TxQuery (Table.webhookEvent_findUnique webhookEventId) ;;
   match existingEvent with
   | Some _ => TxDone None
   | None =>
       order <~ TxQuery (Table.order_findUnique (ByStripeCheckoutId stripeCheckoutId)) ;;
       match order with
       | None =>
           _ <~ TxWrite (Table.webhookEvent_create
                           (mkWebhookEvent webhookEventId "checkout.session.expired")) ;;
           TxDone None
       | Some order =>
           updatedOrder <~
             TxWrite (Table.order_update (order_id order)
                        (mkOrderUpdate (Some FAILED) None None None None)) ;;
           _ <~ TxWrite (Table.webhookEvent_create
                           (mkWebhookEvent webhookEventId "checkout.session.expired")) ;;
           TxDone (Some updatedOrder)
       end
   end)%tx.

(** [markOrderAsFailed] *)
Definition markOrderAsFailed (stripeCheckoutId webhookEventId : string)
  : Async G (option Order) :=
  transaction (markOrderAsFailed_body stripeCheckoutId webhookEventId).

(** The two bodies as plain programs. *)
Definition markOrderAsPaid_tx
  (stripeCheckoutId : string) (stripePaymentId customerEmail : option string)
  (webhookEventId : string) : Async G (option Order) :=
  tx_program
    (markOrderAsPaid_body stripeCheckoutId stripePaymentId customerEmail webhookEventId).

Definition markOrderAsFailed_tx (stripeCheckoutId webhookEventId : string)
  : Async G (option Order) :=
  tx_program (markOrderAsFailed_body stripeCheckoutId webhookEventId).

(* --------------------------------------------------------------------- *)
(** ** [services/stripe.service.ts] *)

(** [getStripeErrorType]: the [instanceof] chain, then the error code. *)
Definition getStripeErrorType (cls : StripeErrorClass) (code : option string)
  : StripeErrorType :=
  match cls with
  | CardErr => StripeCardError
  | RateLimitErr => StripeRateLimitError
  | InvalidRequestErr => StripeInvalidRequestError
  | APIErr => StripeAPIError
  | ConnectionErr => StripeConnectionError
  | AuthenticationErr => StripeAuthenticationError
  | OtherStripeErr =>
      if opt_str_is code "idempotency_key_in_use"
      then StripeIdempotencyError else StripeAPIError
  end.

(** [handleStripeError] *)
Definition handleStripeError (error : StripeThrown) : StripeSessionResult :=
  match error with
  | StripeErr cls code =>
      let errorType := getStripeErrorType cls code in
      let message :=
        match errorType with
        | StripeCardError =>
            "Your card was declined. Please try a different payment method."
        | StripeRateLimitError =>
            "Service is temporarily busy. Please try again in a moment."
        | StripeConnectionError =>
            "Unable to connect to payment service. Please try again."
        | StripeIdempotencyError =>
            "A conflicting request was made. Please refresh and try again."
        | _ => "Payment processing failed. Please try again later."
        end in
      mkSessionResult false None None (Some message) (Some errorType)
  | NotStripeError =>
      mkSessionResult false None None
        (Some "An unexpected error occurred. Please try again.") None
  end.

Definition to_line_item (item : CartItem) : StripeLineItem :=
  mkLineItem (item_name item) (item_price item) (item_quantity item).

(** [x || undefined] on a string. *)
Definition nonempty (s : option string) : option string :=
  if truthy_str s then s else None.

(** [stripe.checkout.sessions.create(params, { idempotencyKey })] *)
Definition stripe_sessions_create (orderId : string) (lineItems : list StripeLineItem)
  (key : string) : World G -> (StripeThrown + CheckoutSession) * World G :=
  fun w =>
    let (r, g) := sessions_create (gateway w) orderId lineItems key in
    (r, with_gateway g (calls w ++ [CreateSession orderId lineItems key]) w).

(** [stripe.checkout.sessions.retrieve(sessionId, ...)] inside the
    [try]/[catch] of [getCheckoutSession]. *)
Definition stripe_sessions_retrieve (sessionId : string)
  : World G -> option CheckoutSession * World G :=
  fun w =>
    (sessions_retrieve (gateway w) sessionId,
     with_gateway (gateway w) (calls w ++ [RetrieveSession sessionId]) w).

(** [stripeService.createCheckoutSession] *)
Definition stripe_createCheckoutSession (orderId : string) (items : list CartItem)
  (key : string) : Async G StripeSessionResult :=
  let lineItems := map to_line_item items in
  r <- perform (stripe_sessions_create orderId lineItems key) ;;
  match r with
  | inr session =>
      Done (mkSessionResult true (Some (session_id session))
              (nonempty (session_url session)) None None)
  | inl error => Done (handleStripeError error)
  end.

(** [verifyWebhookSignature]: the event, or [null] when [constructEvent]
    throws. *)
Definition verifyWebhookSignature (payload signature : string) : option StripeEvent :=
  constructEvent payload signature.

(** [getCheckoutSession] *)
Definition getCheckoutSession (sessionId : string) : Async G (option CheckoutSession) :=
  perform (stripe_sessions_retrieve sessionId).

End Services.

(* ===================================================================== *)
(** ** [controllers/checkout.controller.ts] *)

Section Controllers.

Context {G : Type} {PG : PaymentGateway G} {SC : OrderSchema}.

(** What [res.status(..).json(..)] sent. *)
Record CheckoutReply : Type := mkCheckoutReply {
  reply_status : Z;
  reply_json : CreateCheckoutResponse
}.

Definition reply_error (code : Z) (msg : string) : CheckoutReply :=
  mkCheckoutReply code (mkCheckoutResponse false None None (Some msg)).

Definition reply_session (url : option string) (orderId : string) : CheckoutReply :=
  mkCheckoutReply 200 (mkCheckoutResponse true url (Some orderId) None).

(** Steps 4 to 8 of [createCheckoutSession]: total, order row, provider
    session, update, reply. *)
Definition checkout_steps_4_to_8 (items : list CartItem) (key : string)
  : Async G CheckoutReply :=
  let amount := calculateOrderTotal items in
  order <- createOrder (mkCreateOrderInput items key amount (Some "usd")) ;;
  stripeResult <- stripe_createCheckoutSession (order_id order) items key ;;
  if negb (sr_success stripeResult) then
    Done (reply_error 500
            (or_else (nonempty (sr_error stripeResult))
               "Failed to create checkout session"))
  else
    updateOrderWithStripeSession (order_id order) (sr_sessionId stripeResult) ;;
    Done (reply_session (sr_sessionUrl stripeResult) (order_id order)).

(** [createCheckoutSession] *)
Definition createCheckoutSession (req : CreateCheckoutRequest) : Async G CheckoutReply :=
  try_catch
    (match req_items req with
     | None | Some [] => Done (reply_error 400 "Cart items are required")
     | Some elements =>
         match validate elements with
         | Refused =>
             Done (reply_error 400 "Each item must have id and quantity >= 1")
         | NullItem => Raise TypeError
         | Validated items =>
           idempotencyKey <-
             match nonempty (req_idempotencyKey req) with
             | Some clientKey => Done clientKey
             | None => perform uuidv4
             end ;;
           existingOrder <- findOrderByIdempotencyKey idempotencyKey ;;
           match existingOrder with
           | Some existing =>
               match nonempty (stripeCheckoutId existing) with
               | Some sid =>
                   session <- getCheckoutSession sid ;;
                   match session with
                   | Some s =>
                       match nonempty (session_url s) with
                       | Some url => Done (reply_session (Some url) (order_id existing))
                       | None => checkout_steps_4_to_8 items idempotencyKey
                       end
                   | None => checkout_steps_4_to_8 items idempotencyKey
                   end
               | None => checkout_steps_4_to_8 items idempotencyKey
               end
           | None => checkout_steps_4_to_8 items idempotencyKey
           end
         end
     end)
    (fun _ => Done (reply_error 500 "An unexpected error occurred. Please try again.")).

(* --------------------------------------------------------------------- *)
(** ** [controllers/webhook.controller.ts] *)

(** The request as the route hands it over: the [stripe-signature] header
    and the raw body buffer attached by the middleware. *)
Record WebhookRequest : Type := mkWebhookRequest {
  stripe_signature : option string;
  rawBody : option string
}.

Record WebhookReply : Type := mkWebhookReply {
  wh_status : Z;
  wh_body : string
}.

(** [typeof pi === 'string' ? pi : pi?.id || null] *)
Definition payment_intent_id (pi : PaymentIntentRef) : option string :=
  match pi with
  | PI_id id => Some id
  | PI_object id => nonempty id
  | PI_null => None
  end.

(** [handleCheckoutCompleted] *)
Definition handleCheckoutCompleted (event : StripeEvent) : Async G unit :=
  let session := ev_object event in
  let stripeCheckoutId := session_id session in
  let stripePaymentId := payment_intent_id (session_payment_intent session) in
  let customerEmail := nonempty (session_customer_email session) in
  markOrderAsPaid stripeCheckoutId stripePaymentId customerEmail (ev_id event) ;;
  Done tt.

(** [handleCheckoutExpired] *)
Definition handleCheckoutExpired (event : StripeEvent) : Async G unit :=
  let session := ev_object event in
  markOrderAsFailed (session_id session) (ev_id event) ;;
  Done tt.

(** [handlePaymentFailed]: logs only. *)
Definition handlePaymentFailed (event : StripeEvent) : Async G unit :=
  Done tt.

(** The [switch (event.type)] of step 3. *)
Definition route_event (event : StripeEvent) : Async G unit :=
  if String.eqb (ev_type event) "checkout.session.completed" then
    handleCheckoutCompleted event
  else if String.eqb (ev_type event) "checkout.session.expired" then
    handleCheckoutExpired event
  else if String.eqb (ev_type event) "payment_intent.payment_failed" then
    handlePaymentFailed event
  else Done tt.

(** [handleStripeWebhook] *)
Definition handleStripeWebhook (req : WebhookRequest) : Async G WebhookReply :=
  match nonempty (stripe_signature req) with
  | None => Done (mkWebhookReply 400 "Missing signature")
  | Some signature =>
      match rawBody req with
      | None => Done (mkWebhookReply 400 "Missing raw body")
      | Some body =>
          match verifyWebhookSignature body signature with
          | None => Done (mkWebhookReply 400 "Invalid signature")
          | Some event =>
              try_catch
                (route_event event ;;
                 Done (mkWebhookReply 200 "{received:true}"))
                (fun _ => Done (mkWebhookReply 500 "Webhook processing failed"))
          end
      end
  end.

End Controllers.

(* ===================================================================== *)
(** ** Requests in flight together

    A pool of asynchronous programs and a schedule: the schedule names, one
    step after the other, which program performs its next atomic action. *)

Section Interleaving.

Context {G : Type}.

Fixpoint replace_nth {A : Type} (n : nat) (x : A) (l : list A) : list A :=
  match l, n with
  | [], _ => []
  | _ :: t, O => x :: t
  | h :: t, S n' => h :: replace_nth n' x t
  end.

(** Program [i] takes one step; a finished program stays as it is. *)
Definition step_thread {A : Type} (i : nat) (pool : list (Async G A)) (w : World G)
  : list (Async G A) * World G :=
  match nth_error pool i with
  | Some (Step act k) => let (x, w') := act w in (replace_nth i (k x) pool, w')
  | _ => (pool, w)
  end.

Fixpoint run_schedule {A : Type} (schedule : list nat) (pool : list (Async G A))
  (w : World G) : list (Async G A) * World G :=
  match schedule with
  | [] => (pool, w)
  | i :: rest => let (pool', w') := step_thread i pool w in run_schedule rest pool' w'
  end.

(** What a caller has observed so far. *)
Definition outcome {A : Type} (p : Async G A) : option (Completion A) :=
  match p with
  | Done a => Some (Return a)
  | Raise e => Some (Throw e)
  | Step _ _ => None
  end.

End Interleaving.

(* ===================================================================== *)
(** ** A small concrete provider, to run the server on

    It keeps the sessions it has created, replays the session of a key it
    has seen, and accepts one signature. *)

Module Demo.

Definition Provider : Type := list (string * CheckoutSession).

Definition lookup_key (key : string) (g : Provider) : option CheckoutSession :=
  match find (fun kv => String.eqb (fst kv) key) g with
  | Some kv => Some (snd kv)
  | None => None
  end.

Definition create (g : Provider) (orderId : string) (line_items : list StripeLineItem)
  (key : string) : (StripeThrown + CheckoutSession) * Provider :=
  match lookup_key key g with
  | Some s => (inr s, g)
  | None =>
      let s := mkSession ("cs_" ++ key) (Some ("https://checkout.example/" ++ key))
                 PI_null None in
      (inr s, (g ++ [(key, s)])%list)
  end.

Definition retrieve (g : Provider) (sid : string) : option CheckoutSession :=
  match find (fun kv => String.eqb (session_id (snd kv)) sid) g with
  | Some kv => Some (snd kv)
  | None => None
  end.

(** The payload [pi_failed] is a failed payment intent; any other payload
    is the session id of a completed checkout. *)
Definition construct (payload signature : string) : option StripeEvent :=
  if String.eqb signature "whsec_ok"
  then
    if String.eqb payload "pi_failed"
    then Some (mkEvent "evt_pf" "payment_intent.payment_failed"
                 (mkSession "pi_failed" None PI_null None))
    else Some (mkEvent ("evt_" ++ payload) "checkout.session.completed"
                 (mkSession payload None (PI_id "pi_1") (Some "a@b.c")))
  else None.

#[global] Instance gateway : PaymentGateway Provider :=
  {| sessions_create := create;
     sessions_retrieve := retrieve;
     constructEvent := construct |}.

(** The [Int] column of the README's schema excerpt: a 32-bit integer.
    Of a fraction it keeps the integer part. *)
Definition int32 (z : Z) : option number :=
  if (- 2 ^ 31 <=? z) && (z <? 2 ^ 31) then Some (Fin z) else None.

Definition int_amount (x : number) : option number :=
  match x with
  | Fin z => int32 z
  | Frac m e => int32 (Z.quot m (2 ^ Zpos e))
  | _ => None
  end.

Lemma int_amount_integer (z : Z) (a : number) : int_amount (Fin z) = Some a -> a = Fin z.
Proof.
  unfold int_amount, int32. destruct (_ && _); [| discriminate].
  intros H. injection H as <-. reflexivity.
Qed.

#[global] Instance int_column : OrderSchema :=
  {| amount_column := int_amount;
     amount_column_integer := int_amount_integer |}.

Definition uuids (n : nat) : string :=
  "uuid-" ++ NilZero.string_of_uint (Nat.to_uint n).

Definition world (d : Database) (f : list bool) : World Provider :=
  mkWorld d f [] [] uuids 0%nat 1700000000.

Definition empty_db : Database := mkDatabase [] [].

Definition item (id : string) (price quantity : Z) : CartItem :=
  mkCartItem (Some id) (Some id) (Some (Fin price)) (Some (Fin quantity)).

Definition order (id : string) (st : OrderStatus) (key : string) (sid : option string)
  : Order :=
  mkOrder id st (Fin 1000) "usd" [item "p1" 500 2] key sid None None None.

End Demo.

(* ===================================================================== *)
(** * Properties *)

(** ** Running programs *)

Section RunLemmas.

Context {G : Type} {PG : PaymentGateway G}.

Lemma run_bind {A B : Type} (p : Async G A) (f : A -> Async G B) (w : World G) :
  run (bind p f) w =
  match run p w with
  | (Return a, w') => run (f a) w'
  | (Throw e, w') => (Throw e, w')
  end.
Proof.
  revert w. induction p as [a | e | X act k IH]; intros w; simpl.
  - reflexivity.
  - reflexivity.
  - destruct (act w) as [x w']. apply IH.
Qed.

Lemma run_try_catch {A : Type} (p : Async G A) (h : Exn -> Async G A) (w : World G) :
  run (try_catch p h) w =
  match run p w with
  | (Return a, w') => (Return a, w')
  | (Throw e, w') => run (h e) w'
  end.
Proof.
  revert w. induction p as [a | e | X act k IH]; intros w; simpl.
  - reflexivity.
  - reflexivity.
  - destruct (act w) as [x w']. apply IH.
Qed.

Lemma run_await {A : Type} (act : World G -> Completion A * World G) (w : World G) :
  run (await act) w = act w.
Proof.
  unfold await. simpl. destruct (act w) as [[a | e] w']; reflexivity.
Qed.

Lemma run_perform {A : Type} (act : World G -> A * World G) (w : World G) :
  run (perform act) w = (Return (fst (act w)), snd (act w)).
Proof.
  unfold perform. simpl. destruct (act w); reflexivity.
Qed.

Lemma with_db_same (w : World G) : with_db (db w) w = w.
Proof. destruct w; reflexivity. Qed.

(** A transaction run with nothing in between: its statements see the
    tables as its own writes have made them, and the commit installs
    them. *)
Lemma run_in_transaction {A : Type} (body : Tx A) :
  forall (pending : Pending) (w : World G) (view : Database),
    pending (db w) = Return view ->
    run (in_transaction pending body) w
    = match run (tx_program body) (with_db view w) with
      | (Return a, w') =>
          match faults w' with
          | true :: rest =>
              (Throw StorageUnavailable, with_db (db w) (with_faults rest w'))
          | false :: rest => (Return a, with_faults rest w')
          | [] => (Return a, w')
          end
      | (Throw e, w') => (Throw e, with_db (db w) w')
      end.
Proof.
  induction body as [a | X f k IH | X f k IH | k IH]; intros pending w view Hp.
  - cbn [in_transaction tx_program run]. rewrite run_await.
    unfold tx_commit, storage. cbn [faults with_db].
    destruct w as [d fl g c pool next t]. cbn in *.
    destruct fl as [| [|] rest]; rewrite ?Hp; reflexivity.
  - cbn [in_transaction tx_program]. rewrite !run_bind, !run_await.
    unfold tx_statement, query, storage.
    destruct w as [d fl g c pool next t]. cbn in Hp. cbn [faults db with_db with_faults].
    destruct fl as [| [|] rest]; rewrite ?Hp; cbn [fst snd].
    + rewrite (IH (f view) pending _ view) by exact Hp. reflexivity.
    + reflexivity.
    + rewrite (IH (f view) pending _ view) by exact Hp. reflexivity.
  - cbn [in_transaction tx_program]. rewrite !run_bind, !run_await.
    unfold tx_statement, storage.
    destruct w as [d fl g c pool next t]. cbn in Hp. cbn [faults db with_db with_faults].
    destruct fl as [| [|] rest]; rewrite ?Hp; cbn [fst snd].
    + destruct (f view) as [[x | e] view'] eqn:Ef; cbn [fst snd].
      * rewrite (IH x (then_write pending f) _ view')
          by (unfold then_write; cbn; rewrite Hp, Ef; reflexivity).
        reflexivity.
      * reflexivity.
    + reflexivity.
    + destruct (f view) as [[x | e] view'] eqn:Ef; cbn [fst snd].
      * rewrite (IH x (then_write pending f) _ view')
          by (unfold then_write; cbn; rewrite Hp, Ef; reflexivity).
        reflexivity.
      * reflexivity.
  - cbn [in_transaction tx_program]. rewrite !run_bind, !run_perform.
    cbn [now fst snd]. rewrite (IH _ pending w view Hp). reflexivity.
Qed.

Lemma run_transaction {A : Type} (body : Tx A) (w : World G) :
  run (transaction body) w = transaction_alone (tx_program body) w.
Proof.
  unfold transaction, transaction_alone.
  rewrite (run_in_transaction body (fun d => Return d) w (db w) eq_refl).
  rewrite with_db_same. reflexivity.
Qed.

End RunLemmas.

(* ===================================================================== *)
(** ** Input validation of the checkout request *)

(** The input constraints as the specification words them: the list is
    there and not empty, every item has a non-empty identifier and a
    quantity that is not below one. *)
Definition item_violation (item : CartItem) : Prop :=
  item_id item = None
  \/ item_id item = Some ""
  \/ item_quantity item = None
  \/ exists q, item_quantity item = Some q /\ lt q (Fin 1) = true.

(** The constraints are violated where the loop can see it: the list is
    missing or empty, or an item violates them and no element before it is
    [null]. *)
Definition violates_input_constraints (req : CreateCheckoutRequest) : Prop :=
  req_items req = None
  \/ req_items req = Some []
  \/ exists before item rest,
       req_items req = Some (objects before ++ Some item :: rest)%list
       /\ item_violation item.

(** The loop reaches a [null] element: every element before it is an
    object that passes. *)
Definition reaches_null (req : CreateCheckoutRequest) : Prop :=
  exists before rest,
    req_items req = Some (objects before ++ None :: rest)%list
    /\ existsb item_rejected before = false.

Lemma item_violation_rejected (item : CartItem) :
  item_violation item -> item_rejected item = true.
Proof.
  unfold item_rejected.
  intros [H | [H | [H | [q [H Hq]]]]]; rewrite H; simpl.
  - reflexivity.
  - reflexivity.
  - rewrite orb_true_r. reflexivity.
  - rewrite Hq. apply orb_true_r.
Qed.

Lemma validate_objects (items : list CartItem) :
  validate (objects items)
  = if existsb item_rejected items then Refused else Validated items.
Proof.
  unfold objects. induction items as [| i rest IH]; simpl; [reflexivity |].
  destruct (item_rejected i); simpl; [reflexivity |].
  rewrite IH. destruct (existsb item_rejected rest); reflexivity.
Qed.

Lemma validate_valid (items : list CartItem) :
  existsb item_rejected items = false -> validate (objects items) = Validated items.
Proof. intros H. rewrite validate_objects, H. reflexivity. Qed.

Lemma validate_cons_objects (i0 : CartItem) (rest : list CartItem) :
  existsb item_rejected (i0 :: rest) = false ->
  validate (Some i0 :: map Some rest) = Validated (i0 :: rest).
Proof. exact (validate_valid (i0 :: rest)). Qed.

Lemma validate_refuses (before : list CartItem) (item : CartItem)
  (rest : list (option CartItem)) :
  item_rejected item = true ->
  validate (objects before ++ Some item :: rest) = Refused.
Proof.
  intros Hitem. unfold objects. induction before as [| i l IH]; simpl.
  - rewrite Hitem. reflexivity.
  - destruct (item_rejected i); [reflexivity |].
    rewrite IH. reflexivity.
Qed.

Lemma validate_throws (before : list CartItem) (rest : list (option CartItem)) :
  existsb item_rejected before = false ->
  validate (objects before ++ None :: rest) = NullItem.
Proof.
  unfold objects. induction before as [| i l IH]; simpl; intros H; [reflexivity |].
  apply orb_false_iff in H. destruct H as [Hi Hl]. rewrite Hi.
  rewrite (IH Hl). reflexivity.
Qed.

(** The three verdicts, read backwards. *)
Lemma validate_inv (elements : list (option CartItem)) :
  match validate elements with
  | Validated items =>
      elements = objects items /\ existsb item_rejected items = false
  | Refused =>
      exists before item rest,
        elements = (objects before ++ Some item :: rest)%list
        /\ existsb item_rejected before = false /\ item_rejected item = true
  | NullItem =>
      exists before rest,
        elements = (objects before ++ None :: rest)%list
        /\ existsb item_rejected before = false
  end.
Proof.
  induction elements as [| [item |] rest IH]; simpl.
  - split; reflexivity.
  - destruct (item_rejected item) eqn:Ei.
    + exists [], item, rest. repeat split. exact Ei.
    + destruct (validate rest) as [items | |].
      * destruct IH as [-> Hok]. split; [reflexivity |]. simpl. rewrite Ei. exact Hok.
      * destruct IH as [before [bad [tl [-> [Hb Hbad]]]]].
        exists (item :: before), bad, tl. repeat split; [| exact Hbad].
        simpl. rewrite Ei. exact Hb.
      * destruct IH as [before [tl [-> Hb]]].
        exists (item :: before), tl. split; [reflexivity |].
        simpl. rewrite Ei. exact Hb.
  - exists [], rest. split; reflexivity.
Qed.


Lemma objects_inj (a b : list CartItem) : objects a = objects b -> a = b.
Proof.
  unfold objects. revert b. induction a as [| x a IH]; intros [| y b] H;
    try discriminate; [reflexivity |].
  simpl in H. injection H as -> H. rewrite (IH b H). reflexivity.
Qed.

Section Validation.

Context {G : Type} {PG : PaymentGateway G} {SC : OrderSchema}.

(** C7, as the code has it.  A checkout request whose item list is missing
    or empty, or holds an item without a non-empty identifier or with a
    quantity below one that the loop reaches, is answered 400 by a program
    that has no step at all: whatever the world, it is left as it was, with
    no order row written and no gateway call made.  When the loop reaches
    a [null] element first it throws, and the request is answered 500, by
    a program that has no step either. *)
Theorem createCheckoutSession_rejects_invalid_input (req : CreateCheckoutRequest) :
  (violates_input_constraints req ->
   exists msg,
     createCheckoutSession (G := G) req = Done (reply_error 400 msg)
     /\ forall w : World G,
          run (createCheckoutSession req) w = (Return (reply_error 400 msg), w))
  /\ (reaches_null req ->
      createCheckoutSession (G := G) req
      = Done (reply_error 500 "An unexpected error occurred. Please try again.")
      /\ forall w : World G,
           run (createCheckoutSession req) w
           = (Return (reply_error 500 "An unexpected error occurred. Please try again."),
              w)).
Proof.
  split.
  - intros Hbad.
    assert (Hdone : exists msg,
               createCheckoutSession (G := G) req = Done (reply_error 400 msg)).
    { unfold createCheckoutSession.
      destruct Hbad as [H | [H | [before [item [rest [H Hv]]]]]]; rewrite H.
      - eexists; reflexivity.
      - eexists; reflexivity.
      - pose proof (validate_refuses before item rest (item_violation_rejected item Hv))
          as Hr.
        destruct (objects before ++ Some item :: rest)%list as [| e0 l] eqn:E.
        + eexists; reflexivity.
        + rewrite Hr. eexists; reflexivity. }
    destruct Hdone as [msg Hmsg]. exists msg. split; [exact Hmsg |].
    intros w. rewrite Hmsg. reflexivity.
  - intros [before [rest [H Hok]]].
    assert (Hdone : createCheckoutSession (G := G) req
                    = Done (reply_error 500
                              "An unexpected error occurred. Please try again.")).
    { unfold createCheckoutSession. rewrite H.
      pose proof (validate_throws before rest Hok) as Hr.
      destruct (objects before ++ None :: rest)%list as [| e0 l] eqn:E.
      + destruct before; discriminate.
      + rewrite Hr. reflexivity. }
    split; [exact Hdone |]. intros w. rewrite Hdone. reflexivity.
Qed.

End Validation.

Lemma createCheckoutSession_rejects_invalid_input_witness :
  exists msg,
    createCheckoutSession (G := Demo.Provider)
      (mkCheckoutRequest (Some [Demo.item "p1" 500 2; Demo.item "p2" 500 0]) (Some "key-1"))
    = Done (reply_error 400 msg)
    /\ forall w : World Demo.Provider,
         run (createCheckoutSession
                (mkCheckoutRequest (Some [Demo.item "p1" 500 2; Demo.item "p2" 500 0])
                   (Some "key-1"))) w
         = (Return (reply_error 400 msg), w).
Proof.
  apply (createCheckoutSession_rejects_invalid_input
           (mkCheckoutRequest (Some [Demo.item "p1" 500 2; Demo.item "p2" 500 0])
              (Some "key-1"))).
  right. right. exists [Demo.item "p1" 500 2], (Demo.item "p2" 500 0), [].
  split; [reflexivity |].
  right. right. right. exists (Fin 0). split; reflexivity.
Defined.

(** C7, as stated, fails on a [null] item: it has no identifier, and the
    request is answered 500, not 400; nothing is stored and no call is
    made. *)
Lemma null_item_is_answered_500_counterexample :
  let req := mkCheckoutBody (Some [None]) (Some "key-1") in
  let w := Demo.world Demo.empty_db [] in
  run (createCheckoutSession req) w
  = (Return (reply_error 500 "An unexpected error occurred. Please try again."), w)
  /\ reply_status (reply_error 500 "An unexpected error occurred. Please try again.")
     <> 400.
Proof. split; [reflexivity | discriminate]. Qed.

(* ===================================================================== *)
(** ** Signature verification at the webhook endpoint *)

Section Signature.

Context {G : Type} {PG : PaymentGateway G} {SC : OrderSchema}.

(** C5.  When the signature header is missing, or verification of the raw
    body against it returns null, the webhook request is answered 400 by
    a program that has no step: no order changes status, whatever the
    payload and whatever orders are pending. *)
Theorem handleStripeWebhook_rejects_bad_signature (req : WebhookRequest) :
  (forall signature body,
      stripe_signature req = Some signature ->
      rawBody req = Some body ->
      verifyWebhookSignature body signature = None) ->
  exists msg,
    handleStripeWebhook (G := G) req = Done (mkWebhookReply 400 msg)
    /\ forall w : World G,
         run (handleStripeWebhook req) w = (Return (mkWebhookReply 400 msg), w)
         /\ map status (orders (db (snd (run (handleStripeWebhook req) w))))
            = map status (orders (db w)).
Proof.
  intros Hsig.
  assert (Hdone : exists msg,
             handleStripeWebhook (G := G) req = Done (mkWebhookReply 400 msg)).
  { unfold handleStripeWebhook, nonempty.
    destruct (stripe_signature req) as [signature |] eqn:Es; simpl.
    - destruct (String.eqb signature ""); simpl.
      + eexists; reflexivity.
      + destruct (rawBody req) as [body |] eqn:Eb.
        * rewrite (Hsig signature body eq_refl eq_refl). eexists; reflexivity.
        * eexists; reflexivity.
    - eexists; reflexivity. }
  destruct Hdone as [msg Hmsg]. exists msg. split; [exact Hmsg |].
  intros w. rewrite Hmsg. simpl. split; reflexivity.
Qed.

End Signature.

Lemma handleStripeWebhook_rejects_bad_signature_witness :
  exists msg,
    handleStripeWebhook (G := Demo.Provider)
      (mkWebhookRequest (Some "forged") (Some "cs_key-1"))
    = Done (mkWebhookReply 400 msg)
    /\ forall w : World Demo.Provider,
         run (handleStripeWebhook (mkWebhookRequest (Some "forged") (Some "cs_key-1"))) w
         = (Return (mkWebhookReply 400 msg), w)
         /\ map status
              (orders (db (snd (run (handleStripeWebhook
                                       (mkWebhookRequest (Some "forged") (Some "cs_key-1"))) w))))
            = map status (orders (db w)).
Proof.
  apply (handleStripeWebhook_rejects_bad_signature
           (mkWebhookRequest (Some "forged") (Some "cs_key-1"))).
  intros signature body Hs Hb. simpl in Hs, Hb.
  injection Hs as <-. injection Hb as <-. reflexivity.
Defined.

(* ===================================================================== *)
(** ** The order total *)

(** The sum of the magnitudes of the line totals: a bound on every
    intermediate value of the reduction. *)
Fixpoint magnitude (items : list CartItem) : Z :=
  match items with
  | [] => 0
  | item :: rest => Z.abs (or_else (line_exact item) 0) + magnitude rest
  end.

Lemma magnitude_nonneg (items : list CartItem) : 0 <= magnitude items.
Proof. induction items as [| i rest IH]; simpl; lia. Qed.

Lemma pow53_lt_pow1024 : 2 ^ 53 < 2 ^ 1024.
Proof. apply Z.pow_lt_mono_r; lia. Qed.

Lemma of_exact_safe (z : Z) : Z.abs z < MAX_SAFE -> of_exact z = Fin z.
Proof.
  intros Hz. unfold of_exact, round53.
  destruct (Z.ltb_spec (Z.abs z) MAX_SAFE) as [_ | Hge]; [| lia].
  destruct (Z.leb_spec (2 ^ 1024) (Z.abs z)) as [Hbig | _]; [| reflexivity].
  unfold MAX_SAFE in Hz. pose proof pow53_lt_pow1024. lia.
Qed.

Lemma reduce_exact (items : list CartItem) :
  forall (acc total : Z),
    exact_total items = Some total ->
    Z.abs acc + magnitude items < MAX_SAFE ->
    fold_left
      (fun t item =>
         add t (mul (to_number (item_price item)) (to_number (item_quantity item))))
      items (Fin acc)
    = Fin (acc + total).
Proof.
  induction items as [| i rest IH]; intros acc total Hex Hbound; simpl in *.
  - injection Hex as <-. f_equal. lia.
  - unfold line_exact in *.
    destruct (item_price i) as [[p | | | |] |]; try discriminate.
    destruct (item_quantity i) as [[q | | | |] |]; try discriminate.
    destruct (exact_total rest) as [t |] eqn:Et; try discriminate.
    injection Hex as <-. simpl in Hbound |- *.
    pose proof (magnitude_nonneg rest) as Hm.
    rewrite (of_exact_safe (p * q)) by lia. simpl.
    rewrite (of_exact_safe (acc + p * q)) by lia.
    rewrite (IH (acc + p * q) t eq_refl) by lia.
    f_equal. lia.
Qed.

Lemma calculateOrderTotal_exact (items : list CartItem) (total : Z) :
  exact_total items = Some total ->
  magnitude items < MAX_SAFE ->
  calculateOrderTotal items = Fin total.
Proof.
  intros Hex Hb. unfold calculateOrderTotal.
  rewrite (reduce_exact items 0 total Hex) by (simpl; lia).
  reflexivity.
Qed.

(* ===================================================================== *)
(** ** Invariants of the tables

    A property of the database that every atomic action of a program
    keeps is kept by the program, run alone or interleaved with others
    that keep it too. *)

Section Invariants.

Context {G : Type} {PG : PaymentGateway G} {SC : OrderSchema}.

Variable J : Database -> Prop.

Fixpoint steps_preserve {A : Type} (p : Async G A) : Prop :=
  match p with
  | Step act k =>
      forall w, J (db w) ->
                J (db (snd (act w))) /\ steps_preserve (k (fst (act w)))
  | _ => True
  end.

Lemma steps_preserve_bind {A B : Type} (p : Async G A) (f : A -> Async G B) :
  steps_preserve p -> (forall a, steps_preserve (f a)) -> steps_preserve (bind p f).
Proof.
  intros Hp Hf. induction p as [a | e | X act k IH]; simpl in *.
  - apply Hf.
  - exact I.
  - intros w Hw. destruct (Hp w Hw) as [H1 H2]. split; [exact H1 |].
    apply IH. exact H2.
Qed.

Lemma steps_preserve_try_catch {A : Type} (p : Async G A) (h : Exn -> Async G A) :
  steps_preserve p -> (forall e, steps_preserve (h e)) -> steps_preserve (try_catch p h).
Proof.
  intros Hp Hh. induction p as [a | e | X act k IH]; simpl in *.
  - exact I.
  - apply Hh.
  - intros w Hw. destruct (Hp w Hw) as [H1 H2]. split; [exact H1 |].
    apply IH. exact H2.
Qed.

Lemma steps_preserve_await {A : Type} (act : World G -> Completion A * World G) :
  (forall w, J (db w) -> J (db (snd (act w)))) -> steps_preserve (await act).
Proof.
  intros H. unfold await. simpl. intros w Hw. split; [apply H; exact Hw |].
  destruct (fst (act w)); exact I.
Qed.

Lemma steps_preserve_perform {A : Type} (act : World G -> A * World G) :
  (forall w, J (db w) -> J (db (snd (act w)))) -> steps_preserve (perform act).
Proof.
  intros H. unfold perform. simpl. intros w Hw. split; [apply H; exact Hw | exact I].
Qed.

Lemma run_preserves {A : Type} (p : Async G A) :
  steps_preserve p -> forall w, J (db w) -> J (db (snd (run p w))).
Proof.
  induction p as [a | e | X act k IH]; simpl; intros Hp w Hw.
  - exact Hw.
  - exact Hw.
  - destruct (Hp w Hw) as [H1 H2].
    destruct (act w) as [x w'] eqn:E. simpl in *. apply IH; assumption.
Qed.

Lemma storage_preserves {A : Type} (f : Database -> Completion A * Database) :
  (forall d, J d -> J (snd (f d))) ->
  forall w : World G, J (db w) -> J (db (snd (storage f w))).
Proof.
  intros Hf w Hw. unfold storage.
  destruct (faults w) as [| [|] rest]; simpl.
  - specialize (Hf (db w) Hw). destruct (f (db w)); exact Hf.
  - exact Hw.
  - specialize (Hf (db w) Hw). destruct (f (db w)); exact Hf.
Qed.

Lemma query_preserves {A : Type} (f : Database -> A) :
  forall w : World G, J (db w) -> J (db (snd (query f w))).
Proof. apply storage_preserves. intros d Hd. exact Hd. Qed.

Lemma step_thread_preserves {A : Type} (i : nat) (pool : list (Async G A)) (w : World G) :
  Forall steps_preserve pool -> J (db w) ->
  Forall steps_preserve (fst (step_thread i pool w)) /\ J (db (snd (step_thread i pool w))).
Proof.
  intros Hpool Hw. unfold step_thread.
  destruct (nth_error pool i) as [[a | e | X act k] |] eqn:E; simpl; try (split; assumption).
  assert (Hp : steps_preserve (Step act k)).
  { rewrite Forall_forall in Hpool. apply Hpool. eapply nth_error_In; exact E. }
  simpl in Hp. destruct (Hp w Hw) as [H1 H2].
  destruct (act w) as [x w']; simpl in *. split; [| exact H1].
  clear E Hp. revert i.
  induction Hpool as [| p0 rest Hp0 Hrest IH]; intros [| i']; simpl;
    try constructor; try assumption.
  apply IH.
Qed.

Lemma run_schedule_preserves {A : Type} (schedule : list nat) :
  forall (pool : list (Async G A)) (w : World G),
    Forall steps_preserve pool -> J (db w) ->
    Forall steps_preserve (fst (run_schedule schedule pool w))
    /\ J (db (snd (run_schedule schedule pool w))).
Proof.
  induction schedule as [| i rest IH]; intros pool w Hpool Hw; simpl.
  - split; assumption.
  - destruct (step_thread_preserves i pool w Hpool Hw) as [H1 H2].
    destruct (step_thread i pool w) as [pool' w']; simpl in *.
    apply IH; assumption.
Qed.

(** The checkout controller writes through two calls only: the insert of
    a [PENDING] row and the update to [PROCESSING]. *)
Lemma createCheckoutSession_preserves (req : CreateCheckoutRequest) :
  (forall o d, status o = PENDING ->
               (forall items, req_items req = Some (objects items) ->
                              amount o = calculateOrderTotal items) ->
               J d -> J (snd (Table.order_create o d))) ->
  (forall id sid d,
      J d ->
      J (snd (Table.order_update id (mkOrderUpdate (Some PROCESSING) sid None None None) d))) ->
  steps_preserve (createCheckoutSession req).
Proof.
  intros Hcreate Hupdate.
  assert (Hsteps : forall items key, req_items req = Some (objects items) ->
                                     steps_preserve (checkout_steps_4_to_8 items key)).
  { intros items key Hitems. unfold checkout_steps_4_to_8.
    apply steps_preserve_bind.
    - unfold createOrder. apply steps_preserve_bind.
      + apply steps_preserve_await. apply query_preserves.
      + intros [o |]; [exact I |].
        apply steps_preserve_await. intros w Hw.
        unfold prisma_order_create_pending.
        destruct (uuidv4 w) as [id w1] eqn:Eu.
        assert (Hw1 : db w1 = db w) by (unfold uuidv4 in Eu; injection Eu as <- <-; reflexivity).
        apply storage_preserves; [| rewrite Hw1; exact Hw].
        intros d Hd. apply Hcreate; [reflexivity | | exact Hd].
        intros items' Hi. simpl. rewrite Hitems in Hi. injection Hi as Hi.
        apply objects_inj in Hi. congruence.
    - intros order. apply steps_preserve_bind.
      + unfold stripe_createCheckoutSession. apply steps_preserve_bind.
        * apply steps_preserve_perform. intros w Hw. unfold stripe_sessions_create.
          destruct (sessions_create _ _ _ _); simpl. exact Hw.
        * intros [err | s]; exact I.
      + intros r. destruct (negb (sr_success r)); [exact I |].
        apply steps_preserve_bind; [| intros; exact I].
        unfold updateOrderWithStripeSession. apply steps_preserve_await.
        apply storage_preserves. intros d Hd. apply Hupdate; exact Hd. }
  unfold createCheckoutSession.
  apply steps_preserve_try_catch; [| intros; exact I].
  destruct (req_items req) as [[| e0 rest] |] eqn:Eitems; try exact I.
  pose proof (validate_inv (e0 :: rest)) as Hv.
  destruct (validate (e0 :: rest)) as [items | |]; try exact I.
  destruct Hv as [Hv _].
  assert (Hgo : forall key, steps_preserve (checkout_steps_4_to_8 items key))
    by (intros key; apply Hsteps; rewrite Hv; reflexivity).
  apply steps_preserve_bind.
  - destruct (nonempty (req_idempotencyKey req)); [exact I |].
    apply steps_preserve_perform. intros w Hw. exact Hw.
  - intros key. apply steps_preserve_bind.
    + unfold findOrderByIdempotencyKey. apply steps_preserve_await. apply query_preserves.
    + intros [existing |]; [| apply Hgo].
      destruct (nonempty (stripeCheckoutId existing)); [| apply Hgo].
      apply steps_preserve_bind.
      * unfold getCheckoutSession. apply steps_preserve_perform. intros w Hw. exact Hw.
      * intros [sess |]; [| apply Hgo].
        destruct (nonempty (session_url sess)); [exact I | apply Hgo].
Qed.

End Invariants.

(** What the two writes of the checkout controller do to the rows. *)
Lemma order_create_rows {SC : OrderSchema} (o : Order) (d : Database) :
  snd (Table.order_create o d) = d
  \/ exists a,
       amount_column (amount o) = Some a
       /\ snd (Table.order_create o d)
          = mkDatabase (orders d ++ [with_amount a o]) (webhookEvents d).
Proof.
  unfold Table.order_create.
  destruct (amount_column (amount o)) as [a |]; [| left; reflexivity].
  destruct (existsb _ _); simpl; [left; reflexivity |].
  right. exists a. split; reflexivity.
Qed.

Lemma order_update_rows (id : string) (u : OrderUpdate) (d : Database) :
  snd (Table.order_update id u d) = d
  \/ snd (Table.order_update id u d)
     = mkDatabase
         (map (fun o' => if String.eqb (order_id o') id then apply_update u o' else o')
            (orders d))
         (webhookEvents d).
Proof.
  unfold Table.order_update.
  destruct (find _ _); [| left; reflexivity].
  destruct (match set_stripeCheckoutId u with Some _ => _ | None => _ end); simpl;
    [left | right]; reflexivity.
Qed.

Section OrderAmount.

Context {G : Type} {PG : PaymentGateway G} {SC : OrderSchema}.

(** Rows that were there before keep their id; rows that were not carry
    the amount [x]. *)
Definition new_rows_amount (d0 : Database) (x : number) (d : Database) : Prop :=
  forall o, In o (orders d) ->
            (exists o0, In o0 (orders d0) /\ order_id o0 = order_id o) \/ amount o = x.

(** C6, as the code has it.  For every item list whose prices and
    quantities are integers and whose line totals add up, in magnitude, to
    less than 2^53, the total is the exact integer sum of price times
    quantity, and every order row the checkout creates carries exactly that
    amount. *)
Theorem order_amount_exact_within_safe_range
  (req : CreateCheckoutRequest) (items : list CartItem) (total : Z) (w : World G) :
  req_items req = Some (objects items) ->
  exact_total items = Some total ->
  magnitude items < MAX_SAFE ->
  calculateOrderTotal items = Fin total
  /\ forall o,
       In o (orders (db (snd (run (createCheckoutSession req) w)))) ->
       (forall o0, In o0 (orders (db w)) -> order_id o0 <> order_id o) ->
       amount o = Fin total.
Proof.
  intros Hitems Hex Hbound.
  pose proof (calculateOrderTotal_exact items total Hex Hbound) as Htotal.
  split; [exact Htotal |].
  assert (Hinv : new_rows_amount (db w) (Fin total)
                   (db (snd (run (createCheckoutSession req) w)))).
  { apply run_preserves.
    - apply createCheckoutSession_preserves.
      + intros o d Hst Ham Hd.
        destruct (order_create_rows o d) as [E | [a [Ea E]]]; rewrite E; [exact Hd |].
        intros o' Hin. simpl in Hin. apply in_app_or in Hin.
        destruct Hin as [Hin | [<- | []]].
        * apply Hd; exact Hin.
        * right. rewrite (Ham items Hitems), Htotal in Ea.
          apply amount_column_integer in Ea. exact Ea.
      + intros id sid d Hd.
        destruct (order_update_rows id (mkOrderUpdate (Some PROCESSING) sid None None None) d)
          as [E | E]; rewrite E; [exact Hd |].
        intros o' Hin. simpl in Hin. apply in_map_iff in Hin.
        destruct Hin as [o1 [<- Hin1]].
        destruct (Hd o1 Hin1) as [[o0 [H0 Hid]] | Ham].
        * left. exists o0. split; [exact H0 |].
          destruct (String.eqb (order_id o1) id); simpl; exact Hid.
        * right. destruct (String.eqb (order_id o1) id); simpl; exact Ham.
    - intros o Hin. left. exists o. split; [exact Hin | reflexivity]. }
  intros o Hin Hnew.
  destruct (Hinv o Hin) as [[o0 [H0 Hid]] | Ham]; [| exact Ham].
  exfalso. exact (Hnew o0 H0 Hid).
Qed.

End OrderAmount.

(** The scenario of the specification: [{id:"p1", price:500, quantity:2}]
    on an empty database. *)
Lemma order_amount_exact_within_safe_range_witness :
  calculateOrderTotal [Demo.item "p1" 500 2] = Fin 1000
  /\ forall o,
       In o (orders (db (snd (run (createCheckoutSession
                                     (mkCheckoutRequest (Some [Demo.item "p1" 500 2]) None))
                                  (Demo.world Demo.empty_db [])))))->
       (forall o0, In o0 (orders (db (Demo.world Demo.empty_db []))) ->
                   order_id o0 <> order_id o) ->
       amount o = Fin 1000.
Proof.
  apply (order_amount_exact_within_safe_range
           (mkCheckoutRequest (Some [Demo.item "p1" 500 2]) None)
           [Demo.item "p1" 500 2] 1000 (Demo.world Demo.empty_db [])).
  - reflexivity.
  - reflexivity.
  - reflexivity.
Defined.

Example scenario_p1_creates_processing_order :
  let r := run (createCheckoutSession (mkCheckoutRequest (Some [Demo.item "p1" 500 2]) None))
             (Demo.world Demo.empty_db []) in
  fst r = Return (reply_session (Some "https://checkout.example/uuid-0") "uuid-1")
  /\ map (fun o => (order_id o, status o, amount o)) (orders (db (snd r)))
     = [("uuid-1", PROCESSING, Fin 1000)].
Proof. vm_compute. split; reflexivity. Qed.

(** C6, as stated, fails: three validated items whose exact total is 1
    give an order of amount 0, because [2^53 + 1] is not a double. *)
Lemma order_amount_rounds_counterexample :
  let items :=
    [mkCartItem (Some "a") (Some "a") (Some (Fin (2 ^ 53))) (Some (Fin 1));
     mkCartItem (Some "b") (Some "b") (Some (Fin 1)) (Some (Fin 1));
     mkCartItem (Some "c") (Some "c") (Some (Fin (- 2 ^ 53))) (Some (Fin 1))] in
  let r := run (createCheckoutSession (mkCheckoutRequest (Some items) (Some "key-1")))
             (Demo.world Demo.empty_db []) in
  existsb item_rejected items = false
  /\ representable (2 ^ 53) /\ representable 1 /\ representable (- 2 ^ 53)
  /\ exact_total items = Some 1
  /\ calculateOrderTotal items = Fin 0
  /\ fst r = Return (reply_session (Some "https://checkout.example/key-1") "uuid-0")
  /\ map amount (orders (db (snd r))) = [Fin 0]
  /\ Fin 0 <> Fin 1.
Proof. vm_compute. repeat split; try reflexivity. discriminate. Qed.

(** With prices above zero only: the total of [2^53] and [1] is [2^53]. *)
Example order_amount_rounds_with_positive_prices :
  let items :=
    [mkCartItem (Some "a") (Some "a") (Some (Fin (2 ^ 53))) (Some (Fin 1));
     mkCartItem (Some "b") (Some "b") (Some (Fin 1)) (Some (Fin 1))] in
  existsb item_rejected items = false
  /\ exact_total items = Some (2 ^ 53 + 1)
  /\ calculateOrderTotal items = Fin (2 ^ 53).
Proof. vm_compute. repeat split; reflexivity. Qed.

(** A price with a fraction: [19.99] is the double
    [5626684784446013 / 2^48]; three of them make the double nearest to
    [59.97], and the integer column keeps 59. *)
Example order_amount_of_fractional_price :
  let items :=
    [mkCartItem (Some "p1") (Some "Widget") (Some (Frac 5626684784446013 48))
       (Some (Fin 3))] in
  let r := run (createCheckoutSession (mkCheckoutRequest (Some items) (Some "key-1")))
             (Demo.world Demo.empty_db []) in
  existsb item_rejected items = false
  /\ calculateOrderTotal items = Frac 2110006794167255 45
  /\ fst r = Return (reply_session (Some "https://checkout.example/key-1") "uuid-0")
  /\ map amount (orders (db (snd r))) = [Fin 59].
Proof. vm_compute. repeat split; reflexivity. Qed.

(* ===================================================================== *)
(** ** Prices are not validated *)

Definition with_price (p : option number) (item : CartItem) : CartItem :=
  mkCartItem (item_id item) (item_name item) p (item_quantity item).

Definition checkout_on_empty {SC : OrderSchema} (items : list CartItem)
  : Completion CheckoutReply * World Demo.Provider :=
  run (createCheckoutSession (mkCheckoutRequest (Some items) (Some "key-1")))
    (Demo.world Demo.empty_db []).

(** C10, as the code has it.  Validation reads the id and the quantity of
    an item and never its price: changing the price changes no verdict.
    Requests whose items have an id and a quantity of at least one but a
    zero or a negative price are accepted, and an order of amount zero, or
    below zero, is created.  A missing price passes validation too and
    makes the total NaN; but whenever the total is NaN and the column
    refuses NaN, as an integer column does, no order row is added, whatever
    the request, the tables, the gateway and the storage faults. *)
Theorem validation_ignores_price :
  (forall item p, item_rejected (with_price p item) = item_rejected item)
  /\ (let items := [mkCartItem (Some "p1") (Some "Widget") (Some (Fin 0)) (Some (Fin 2))] in
      existsb item_rejected items = false
      /\ fst (checkout_on_empty items)
         = Return (reply_session (Some "https://checkout.example/key-1") "uuid-0")
      /\ map amount (orders (db (snd (checkout_on_empty items)))) = [Fin 0])
  /\ (let items := [mkCartItem (Some "p1") (Some "Widget") (Some (Fin (-500))) (Some (Fin 2))] in
      existsb item_rejected items = false
      /\ fst (checkout_on_empty items)
         = Return (reply_session (Some "https://checkout.example/key-1") "uuid-0")
      /\ map amount (orders (db (snd (checkout_on_empty items)))) = [Fin (-1000)])
  /\ (let items := [mkCartItem (Some "p1") (Some "Widget") None (Some (Fin 2))] in
      existsb item_rejected items = false
      /\ calculateOrderTotal items = NaN)
  /\ (forall (G : Type) (PG : PaymentGateway G) (SC : OrderSchema)
             (req : CreateCheckoutRequest) (items : list CartItem) (w : World G),
         req_items req = Some (objects items) ->
         calculateOrderTotal items = NaN ->
         amount_column NaN = None ->
         map order_id (orders (db (snd (run (createCheckoutSession req) w))))
         = map order_id (orders (db w))).
Proof.
  split; [intros item p; reflexivity |].
  split; [vm_compute; repeat split; reflexivity |].
  split; [vm_compute; repeat split; reflexivity |].
  split; [vm_compute; repeat split; reflexivity |].
  intros G PG SC req items w Hitems Hnan Hcol.
  apply (run_preserves (fun d => map order_id (orders d) = map order_id (orders (db w))));
    [| reflexivity].
  apply createCheckoutSession_preserves.
  - intros o d _ Ham Hd. unfold Table.order_create.
    rewrite (Ham items Hitems), Hnan, Hcol. exact Hd.
  - intros id sid d Hd.
    destruct (order_update_rows id (mkOrderUpdate (Some PROCESSING) sid None None None) d)
      as [E | E]; rewrite E; [exact Hd |].
    cbn [orders]. rewrite <- Hd, map_map. apply map_ext. intros o.
    destruct (String.eqb (order_id o) id); reflexivity.
Qed.

(** C10, as stated, fails where the price is absent: the request passes
    validation, the total is NaN, the integer column of the schema refuses
    it, and the request ends in 500 with no order created. *)
Lemma absent_price_creates_no_order_counterexample :
  let items := [mkCartItem (Some "p1") (Some "Widget") None (Some (Fin 2))] in
  existsb item_rejected items = false
  /\ calculateOrderTotal items = NaN
  /\ fst (checkout_on_empty items)
     = Return (reply_error 500 "An unexpected error occurred. Please try again.")
  /\ orders (db (snd (checkout_on_empty items))) = [].
Proof. vm_compute. repeat split; reflexivity. Qed.

(* ===================================================================== *)
(** ** Idempotent replay of a checkout *)

Section Replay.

Context {G : Type} {PG : PaymentGateway G} {SC : OrderSchema}.

Lemma nonempty_some (s : string) : s <> "" -> nonempty (Some s) = Some s.
Proof.
  intros Hs. unfold nonempty. simpl.
  destruct (String.eqb_spec s ""); [contradiction | reflexivity].
Qed.

(** C8.  A validated request whose key belongs to an order that already
    has a provider session, while the gateway still reports a redirect URL
    for that session, is answered with that URL and the id of that order.
    The tables and the gateway are as before and the only gateway call is
    the retrieval: no order and no provider session is created.  The items
    of the request play no part in the answer. *)
Theorem createCheckoutSession_replays_existing_session
  (req : CreateCheckoutRequest) (items : list CartItem) (key sid url : string)
  (existing : Order) (session : CheckoutSession) (w : World G) :
  req_items req = Some (objects items) ->
  items <> [] ->
  existsb item_rejected items = false ->
  req_idempotencyKey req = Some key ->
  key <> "" ->
  faults w = [] ->
  Table.order_findUnique (ByIdempotencyKey key) (db w) = Some existing ->
  stripeCheckoutId existing = Some sid ->
  sid <> "" ->
  sessions_retrieve (gateway w) sid = Some session ->
  session_url session = Some url ->
  url <> "" ->
  let r := run (createCheckoutSession req) w in
  fst r = Return (reply_session (Some url) (order_id existing))
  /\ db (snd r) = db w
  /\ gateway (snd r) = gateway w
  /\ calls (snd r) = (calls w ++ [RetrieveSession sid])%list
  /\ uuid_next (snd r) = uuid_next w.
Proof.
  intros Hitems Hne Hvalid Hkey Hk Hf Hfind Hsid Hs Hret Hurl Hu.
  unfold createCheckoutSession. rewrite Hitems.
  destruct items as [| i0 rest]; [contradiction |]. cbn [objects map].
  rewrite (validate_cons_objects i0 rest Hvalid), Hkey, (nonempty_some key Hk).
  cbn [bind try_catch run findOrderByIdempotencyKey await].
  unfold query, storage. rewrite Hf, Hfind.
  cbn [bind try_catch run fst snd]. rewrite Hsid, (nonempty_some sid Hs).
  cbn [bind try_catch run getCheckoutSession perform stripe_sessions_retrieve db with_db gateway].
  rewrite Hret. rewrite Hurl, (nonempty_some url Hu).
  cbn. repeat split; reflexivity.
Qed.

End Replay.

Lemma createCheckoutSession_replays_existing_session_witness :
  let w1 := snd (checkout_on_empty [Demo.item "p1" 500 2]) in
  let r := run (createCheckoutSession
                  (mkCheckoutRequest (Some [Demo.item "p2" 999 7]) (Some "key-1"))) w1 in
  fst r = Return (reply_session (Some "https://checkout.example/key-1") "uuid-0")
  /\ db (snd r) = db w1
  /\ gateway (snd r) = gateway w1
  /\ calls (snd r) = (calls w1 ++ [RetrieveSession "cs_key-1"])%list
  /\ uuid_next (snd r) = uuid_next w1.
Proof.
  apply (createCheckoutSession_replays_existing_session
           (mkCheckoutRequest (Some [Demo.item "p2" 999 7]) (Some "key-1"))
           [Demo.item "p2" 999 7] "key-1" "cs_key-1" "https://checkout.example/key-1"
           (mkOrder "uuid-0" PROCESSING (Fin 1000) "usd" [Demo.item "p1" 500 2] "key-1"
              (Some "cs_key-1") None None None)
           (mkSession "cs_key-1" (Some "https://checkout.example/key-1") PI_null None)
           (snd (checkout_on_empty [Demo.item "p1" 500 2])));
    try reflexivity; discriminate.
Defined.

(* ===================================================================== *)
(** ** The webhook event processor *)

(** A verified event as it reaches the order service: the arguments of
    [markOrderAsPaid] or of [markOrderAsFailed]. *)
Inductive Delivery : Type :=
| Completed (stripeCheckoutId : string) (stripePaymentId customerEmail : option string)
    (webhookEventId : string)
| Expired (stripeCheckoutId : string) (webhookEventId : string).

Definition delivery_id (d : Delivery) : string :=
  match d with
  | Completed _ _ _ eid => eid
  | Expired _ eid => eid
  end.

Definition delivery_session (d : Delivery) : string :=
  match d with
  | Completed sid _ _ _ => sid
  | Expired sid _ => sid
  end.

Definition delivery_type (d : Delivery) : string :=
  match d with
  | Completed _ _ _ _ => "checkout.session.completed"
  | Expired _ _ => "checkout.session.expired"
  end.

(** The update each kind of event asks for, at time [t]. *)
Definition delivery_update (d : Delivery) (t : Z) : OrderUpdate :=
  match d with
  | Completed _ pay email _ => mkOrderUpdate (Some PAID) None (Some pay) (Some email) (Some t)
  | Expired _ _ => mkOrderUpdate (Some FAILED) None None None None
  end.

(** The guard in front of the update: [markOrderAsPaid] skips an order
    that is [PAID]; [markOrderAsFailed] has no such test. *)
Definition delivery_skips (d : Delivery) (o : Order) : bool :=
  match d with
  | Completed _ _ _ _ => status_eqb (status o) PAID
  | Expired _ _ => false
  end.

Definition count_events (eid : string) (d : Database) : nat :=
  List.length (filter (fun e => String.eqb (event_id e) eid) (webhookEvents d)).

Definition record_event (e : WebhookEvent) (d : Database) : Database :=
  mkDatabase (orders d) (webhookEvents d ++ [e]).

Definition update_rows (id : string) (u : OrderUpdate) (d : Database) : Database :=
  mkDatabase
    (map (fun o' => if String.eqb (order_id o') id then apply_update u o' else o')
       (orders d))
    (webhookEvents d).

(** What one delivery does to the tables when every storage call goes
    through: the value returned and the database committed. *)
Definition delivery_effect (d : Delivery) (t : Z) (base : Database)
  : option Order * Database :=
  match Table.webhookEvent_findUnique (delivery_id d) base with
  | Some _ => (None, base)
  | None =>
      let ev := mkWebhookEvent (delivery_id d) (delivery_type d) in
      match Table.order_findUnique (ByStripeCheckoutId (delivery_session d)) base with
      | None => (None, record_event ev base)
      | Some o =>
          if delivery_skips d o then (Some o, record_event ev base)
          else
            (option_map (apply_update (delivery_update d t))
               (Table.order_findUnique (ById (order_id o)) base),
             record_event ev (update_rows (order_id o) (delivery_update d t) base))
      end
  end.

Section Processor.

Context {G : Type} {PG : PaymentGateway G}.

(** The processor: one delivery is one call of the order service. *)
Definition deliver (d : Delivery) : Async G (option Order) :=
  match d with
  | Completed sid pay email eid => markOrderAsPaid sid pay email eid
  | Expired sid eid => markOrderAsFailed sid eid
  end.

(** The transaction body behind a delivery, and the body as a plain
    program. *)
Definition delivery_body (d : Delivery) : Tx (option Order) :=
  match d with
  | Completed sid pay email eid => markOrderAsPaid_body sid pay email eid
  | Expired sid eid => markOrderAsFailed_body sid eid
  end.

Definition delivery_tx (d : Delivery) : Async G (option Order) :=
  match d with
  | Completed sid pay email eid => markOrderAsPaid_tx sid pay email eid
  | Expired sid eid => markOrderAsFailed_tx sid eid
  end.

Lemma deliver_is_one_transaction (d : Delivery) :
  deliver d = transaction (delivery_body d).
Proof. destruct d; reflexivity. Qed.

Lemma delivery_tx_is_the_body (d : Delivery) :
  delivery_tx d = tx_program (delivery_body d).
Proof. destruct d; reflexivity. Qed.

(** A delivery that nothing overlaps is one action. *)
Lemma run_deliver (d : Delivery) (w : World G) :
  run (deliver d) w = transaction_alone (delivery_tx d) w.
Proof.
  rewrite deliver_is_one_transaction, delivery_tx_is_the_body. apply run_transaction.
Qed.

(** The two session handlers of the controller are deliveries. *)
Lemma handleCheckoutCompleted_delivers (event : StripeEvent) :
  handleCheckoutCompleted event =
  (deliver (Completed (session_id (ev_object event))
              (payment_intent_id (session_payment_intent (ev_object event)))
              (nonempty (session_customer_email (ev_object event)))
              (ev_id event)) ;; Done tt).
Proof. reflexivity. Qed.

Lemma handleCheckoutExpired_delivers (event : StripeEvent) :
  handleCheckoutExpired event =
  (deliver (Expired (session_id (ev_object event)) (ev_id event)) ;; Done tt).
Proof. reflexivity. Qed.

(** The switch of the controller: the two session events are deliveries,
    a failed payment intent and every other type reach no order service
    call. *)
Lemma route_event_completed (event : StripeEvent) :
  ev_type event = "checkout.session.completed" ->
  route_event (G := G) event = handleCheckoutCompleted event.
Proof. intros H. unfold route_event. rewrite H. reflexivity. Qed.

Lemma route_event_expired (event : StripeEvent) :
  ev_type event = "checkout.session.expired" ->
  route_event (G := G) event = handleCheckoutExpired event.
Proof. intros H. unfold route_event. rewrite H. reflexivity. Qed.

Lemma route_event_other (event : StripeEvent) :
  ev_type event <> "checkout.session.completed" ->
  ev_type event <> "checkout.session.expired" ->
  route_event (G := G) event = Done tt.
Proof.
  intros H1 H2. unfold route_event, handlePaymentFailed.
  destruct (String.eqb_spec (ev_type event) "checkout.session.completed");
    [contradiction |].
  destruct (String.eqb_spec (ev_type event) "checkout.session.expired");
    [contradiction |].
  destruct (String.eqb (ev_type event) "payment_intent.payment_failed"); reflexivity.
Qed.

End Processor.

Ltac world_simpl :=
  cbn [db with_db with_faults with_gateway faults clock gateway calls
       uuid_pool uuid_next fst snd now] in *.

Section HealthyStore.

Context {G : Type} {PG : PaymentGateway G}.

Lemma storage_healthy {A : Type} (f : Database -> Completion A * Database) (w : World G) :
  faults w = [] ->
  storage f w = (fst (f (db w)), with_db (snd (f (db w))) w).
Proof.
  intros Hf. unfold storage. rewrite Hf. destruct (f (db w)); reflexivity.
Qed.

Lemma query_healthy {A : Type} (f : Database -> A) (w : World G) :
  faults w = [] ->
  query f w = (Return (f (db w)), with_db (db w) w).
Proof. intros Hf. unfold query. rewrite storage_healthy by exact Hf. reflexivity. Qed.

Lemma find_none_existsb {A : Type} (f : A -> bool) (l : list A) :
  find f l = None -> existsb f l = false.
Proof.
  induction l as [| a l IH]; simpl; [reflexivity |].
  destruct (f a); [discriminate | exact IH].
Qed.

Lemma webhookEvent_create_fresh (e : WebhookEvent) (d : Database) :
  Table.webhookEvent_findUnique (event_id e) d = None ->
  Table.webhookEvent_create e d = (Return e, record_event e d).
Proof.
  unfold Table.webhookEvent_findUnique, Table.webhookEvent_create. intros Hnone.
  rewrite (find_none_existsb _ _ Hnone). reflexivity.
Qed.

Lemma find_by_own_id (f : Order -> bool) (l : list Order) (o : Order) :
  find f l = Some o -> exists o', find (order_matches (ById (order_id o))) l = Some o'.
Proof.
  induction l as [| a l IH]; simpl; [discriminate |].
  intros H. destruct (String.eqb (order_id a) (order_id o)) eqn:E.
  - eexists; reflexivity.
  - destruct (f a).
    + injection H as ->. rewrite String.eqb_refl in E. discriminate.
    + apply IH; exact H.
Qed.

Lemma order_update_found (o : Order) (u : OrderUpdate) (d : Database) :
  Table.order_findUnique (ById (order_id o)) d <> None ->
  set_stripeCheckoutId u = None ->
  Table.order_update (order_id o) u d
  = (match Table.order_findUnique (ById (order_id o)) d with
     | Some o' => Return (apply_update u o')
     | None => Throw RecordNotFound
     end,
     update_rows (order_id o) u d).
Proof.
  unfold Table.order_findUnique, Table.order_update. intros Hfound Hsid.
  destruct (find _ _); [| contradiction].
  rewrite Hsid. reflexivity.
Qed.

Ltac healthy_step Hf :=
  cbn [tx_program];
  rewrite run_bind; first [rewrite run_await | rewrite run_perform];
  try rewrite query_healthy by exact Hf;
  try rewrite storage_healthy by exact Hf;
  world_simpl.

(** With a healthy store, the transaction body of a delivery returns, and
    what it returns and leaves behind is [delivery_effect]. *)
Lemma delivery_tx_healthy (d : Delivery) (w : World G) :
  faults w = [] ->
  run (delivery_tx d) w
  = (Return (fst (delivery_effect d (clock w) (db w))),
     with_db (snd (delivery_effect d (clock w) (db w))) w).
Proof.
  intros Hf. unfold delivery_effect.
  destruct d as [sid pay email eid | sid eid]; simpl delivery_tx;
    unfold markOrderAsPaid_tx, markOrderAsFailed_tx,
      markOrderAsPaid_body, markOrderAsFailed_body;
    healthy_step Hf;
    cbn [delivery_id delivery_session delivery_type delivery_skips delivery_update];
    destruct (Table.webhookEvent_findUnique eid (db w)) as [ev |] eqn:Eev;
    try reflexivity;
    healthy_step Hf;
    destruct (Table.order_findUnique (ByStripeCheckoutId sid) (db w)) as [o |] eqn:Eo.
  - destruct (status_eqb (status o) PAID).
    + healthy_step Hf.
      rewrite (webhookEvent_create_fresh (mkWebhookEvent eid _) (db w) Eev).
      reflexivity.
    + destruct (find_by_own_id _ _ _ Eo) as [o' Ho'].
      healthy_step Hf. healthy_step Hf.
      rewrite order_update_found
        by (try reflexivity; unfold Table.order_findUnique; rewrite Ho'; discriminate).
      unfold Table.order_findUnique. rewrite Ho'. world_simpl.
      healthy_step Hf.
      rewrite (webhookEvent_create_fresh (mkWebhookEvent eid _)) by exact Eev.
      reflexivity.
  - healthy_step Hf.
    rewrite (webhookEvent_create_fresh (mkWebhookEvent eid _) (db w) Eev).
    reflexivity.
  - destruct (find_by_own_id _ _ _ Eo) as [o' Ho'].
    healthy_step Hf.
    rewrite order_update_found
      by (try reflexivity; unfold Table.order_findUnique; rewrite Ho'; discriminate).
    unfold Table.order_findUnique. rewrite Ho'. world_simpl.
    healthy_step Hf.
    rewrite (webhookEvent_create_fresh (mkWebhookEvent eid _)) by exact Eev.
    reflexivity.
  - healthy_step Hf.
    rewrite (webhookEvent_create_fresh (mkWebhookEvent eid _) (db w) Eev).
    reflexivity.
Qed.

End HealthyStore.

Section Deliveries.

Context {G : Type} {PG : PaymentGateway G}.

Lemma deliver_healthy (d : Delivery) (w : World G) :
  faults w = [] ->
  run (deliver d) w
  = (Return (fst (delivery_effect d (clock w) (db w))),
     with_db (snd (delivery_effect d (clock w) (db w))) w).
Proof.
  intros Hf. rewrite run_deliver. unfold transaction_alone.
  rewrite delivery_tx_healthy by exact Hf. world_simpl. rewrite Hf. reflexivity.
Qed.

(** A transaction that throws leaves the tables as they were. *)
Lemma transaction_rollback {A : Type} (body : Async G A) (w : World G) (e : Exn) :
  fst (transaction_alone body w) = Throw e -> db (snd (transaction_alone body w)) = db w.
Proof.
  unfold transaction_alone. destruct (run body w) as [[a | e'] w'].
  - destruct (faults w') as [| [|] rest]; simpl; intros H;
      try discriminate; reflexivity.
  - intros _. reflexivity.
Qed.

Lemma deliver_rollback (d : Delivery) (w : World G) (e : Exn) :
  fst (run (deliver d) w) = Throw e -> db (snd (run (deliver d) w)) = db w.
Proof.
  rewrite run_deliver. apply transaction_rollback.
Qed.

Lemma find_app_last {A : Type} (f : A -> bool) (l : list A) (a : A) :
  f a = true -> find f (l ++ [a]) <> None.
Proof.
  intros Ha. induction l as [| b l IH]; simpl.
  - rewrite Ha. discriminate.
  - destruct (f b); [discriminate | exact IH].
Qed.

(** C9.  A completed or an expired event whose session id matches no
    order: with the store up, the delivery returns null, the orders are
    what they were, and a [WebhookEvent] row with the event's id is there
    afterwards; it is appended by this delivery when the id was new. *)
Theorem unmatched_event_is_recorded_without_order_mutation (d : Delivery) (w : World G) :
  faults w = [] ->
  Table.order_findUnique (ByStripeCheckoutId (delivery_session d)) (db w) = None ->
  let r := run (deliver d) w in
  fst r = Return None
  /\ orders (db (snd r)) = orders (db w)
  /\ Table.webhookEvent_findUnique (delivery_id d) (db (snd r)) <> None
  /\ (Table.webhookEvent_findUnique (delivery_id d) (db w) = None ->
      webhookEvents (db (snd r))
      = (webhookEvents (db w) ++ [mkWebhookEvent (delivery_id d) (delivery_type d)])%list).
Proof.
  intros Hf Hnone. cbv zeta. rewrite deliver_healthy by exact Hf.
  unfold delivery_effect. rewrite Hnone.
  destruct (Table.webhookEvent_findUnique (delivery_id d) (db w)) as [ev |] eqn:Eev;
    world_simpl.
  - repeat split; try reflexivity.
    + rewrite Eev. discriminate.
    + discriminate.
  - repeat split; try reflexivity.
    unfold Table.webhookEvent_findUnique, record_event. simpl.
    apply find_app_last. simpl. apply String.eqb_refl.
Qed.

End Deliveries.

Lemma unmatched_event_is_recorded_without_order_mutation_witness :
  let w := Demo.world (mkDatabase [Demo.order "ord_1" PROCESSING "key-1" (Some "cs_1")] []) [] in
  let d := Expired "cs_unknown" "evt_9" in
  let r := run (deliver d) w in
  fst r = Return None
  /\ orders (db (snd r)) = orders (db w)
  /\ Table.webhookEvent_findUnique (delivery_id d) (db (snd r)) <> None
  /\ (Table.webhookEvent_findUnique (delivery_id d) (db w) = None ->
      webhookEvents (db (snd r))
      = (webhookEvents (db w) ++ [mkWebhookEvent (delivery_id d) (delivery_type d)])%list).
Proof.
  apply (unmatched_event_is_recorded_without_order_mutation
           (Expired "cs_unknown" "evt_9")
           (Demo.world (mkDatabase [Demo.order "ord_1" PROCESSING "key-1" (Some "cs_1")] []) []));
    reflexivity.
Defined.

(* ===================================================================== *)
(** ** Terminal statuses *)

(** C1 does not hold of the code.  [markOrderAsFailed] has no test on the
    current status, where [markOrderAsPaid] has its step 3: a late expired
    event, under an event id not seen before, moves a [PAID] order to
    [FAILED]; the event is recorded. *)
Theorem late_expired_event_moves_paid_order_to_failed :
  let d0 := mkDatabase [Demo.order "ord_1" PAID "key-1" (Some "cs_1")]
              [mkWebhookEvent "evt_1" "checkout.session.completed"] in
  let r := run (deliver (Expired "cs_1" "evt_2")) (Demo.world d0 []) in
  map status (orders d0) = [PAID]
  /\ map status (orders (db (snd r))) = [FAILED]
  /\ map event_id (webhookEvents (db (snd r))) = ["evt_1"; "evt_2"].
Proof. vm_compute. repeat split; reflexivity. Qed.

(** The same on every world: an expired event under a new id rewrites the
    status of the order its session id finds, whatever that status was. *)
Lemma markOrderAsFailed_has_no_status_guard
  {G : Type} {PG : PaymentGateway G} (w : World G) (sid eid : string) (o : Order) :
  faults w = [] ->
  Table.webhookEvent_findUnique eid (db w) = None ->
  Table.order_findUnique (ByStripeCheckoutId sid) (db w) = Some o ->
  orders (db (snd (run (markOrderAsFailed sid eid) w)))
  = map (fun o' => if String.eqb (order_id o') (order_id o)
                   then apply_update (mkOrderUpdate (Some FAILED) None None None None) o'
                   else o')
      (orders (db w))
  /\ forall o', In o' (orders (db (snd (run (markOrderAsFailed sid eid) w)))) ->
                order_id o' = order_id o -> status o' = FAILED.
Proof.
  intros Hf Hev Ho.
  change (markOrderAsFailed sid eid) with (deliver (G := G) (Expired sid eid)).
  rewrite deliver_healthy by exact Hf. unfold delivery_effect.
  cbn [delivery_id delivery_session delivery_skips delivery_update delivery_type].
  rewrite Hev, Ho. world_simpl. cbn [record_event update_rows orders].
  split; [reflexivity |].
  intros o' Hin Hid. apply in_map_iff in Hin. destruct Hin as [o1 [<- Hin1]].
  destruct (String.eqb (order_id o1) (order_id o)) eqn:E.
  - reflexivity.
  - simpl in Hid. rewrite Hid, String.eqb_refl in E. discriminate.
Qed.

(** The guard of [markOrderAsPaid] names [PAID] only: a completed event
    moves a [FAILED] order to [PAID]. *)
Example completed_event_moves_failed_order_to_paid :
  let d0 := mkDatabase [Demo.order "ord_1" FAILED "key-1" (Some "cs_1")]
              [mkWebhookEvent "evt_1" "checkout.session.expired"] in
  let r := run (deliver (Completed "cs_1" (Some "pi_1") (Some "a@b.c") "evt_2"))
             (Demo.world d0 []) in
  map status (orders (db (snd r))) = [PAID]
  /\ map event_id (webhookEvents (db (snd r))) = ["evt_1"; "evt_2"].
Proof. vm_compute. split; reflexivity. Qed.

(** The two cases in which a terminal status does stay. *)
Example completed_event_leaves_paid_order :
  let d0 := mkDatabase [Demo.order "ord_1" PAID "key-1" (Some "cs_1")]
              [mkWebhookEvent "evt_1" "checkout.session.completed"] in
  let r := run (deliver (Completed "cs_1" (Some "pi_1") (Some "a@b.c") "evt_2"))
             (Demo.world d0 []) in
  orders (db (snd r)) = orders d0
  /\ map event_id (webhookEvents (db (snd r))) = ["evt_1"; "evt_2"].
Proof. vm_compute. split; reflexivity. Qed.

Example expired_event_leaves_failed_order :
  let d0 := mkDatabase [Demo.order "ord_1" FAILED "key-1" (Some "cs_1")]
              [mkWebhookEvent "evt_1" "checkout.session.expired"] in
  let r := run (deliver (Expired "cs_1" "evt_2")) (Demo.world d0 []) in
  orders (db (snd r)) = orders d0
  /\ map event_id (webhookEvents (db (snd r))) = ["evt_1"; "evt_2"].
Proof. vm_compute. split; reflexivity. Qed.

(* ===================================================================== *)
(** ** Exactly-once processing of a webhook event *)

Lemma count_events_zero (eid : string) (d : Database) :
  count_events eid d = 0%nat <-> Table.webhookEvent_findUnique eid d = None.
Proof.
  unfold count_events, Table.webhookEvent_findUnique.
  induction (webhookEvents d) as [| e l IH]; simpl.
  - split; reflexivity.
  - destruct (String.eqb (event_id e) eid); simpl.
    + split; discriminate.
    + exact IH.
Qed.

Lemma count_events_record (eid : string) (e : WebhookEvent) (d : Database) :
  count_events eid (record_event e d)
  = (count_events eid d + (if String.eqb (event_id e) eid then 1 else 0))%nat.
Proof.
  unfold count_events, record_event. simpl.
  rewrite filter_app, length_app. simpl.
  destruct (String.eqb (event_id e) eid); reflexivity.
Qed.

(** The events table after one healthy delivery. *)
Lemma delivery_effect_events (d : Delivery) (t : Z) (base : Database) :
  match Table.webhookEvent_findUnique (delivery_id d) base with
  | Some _ => delivery_effect d t base = (None, base)
  | None =>
      forall eid,
        count_events eid (snd (delivery_effect d t base))
        = (count_events eid base
           + (if String.eqb (delivery_id d) eid then 1 else 0))%nat
  end.
Proof.
  unfold delivery_effect.
  destruct (Table.webhookEvent_findUnique (delivery_id d) base); [reflexivity |].
  intros eid.
  destruct (Table.order_findUnique (ByStripeCheckoutId (delivery_session d)) base) as [o |].
  - destruct (delivery_skips d o); simpl snd; rewrite count_events_record; reflexivity.
  - simpl snd. rewrite count_events_record. reflexivity.
Qed.

Section ExactlyOnce.

Context {G : Type} {PG : PaymentGateway G}.

(** One entry of the processing log: the delivery, the world it met, what
    the call returned, the world it left. *)
Record Processed : Type := mkProcessed {
  seen : Delivery;
  before : World G;
  result : Completion (option Order);
  after : World G
}.

(** Deliveries handled one after the other, in the order given, none
    beginning before the one in front of it has ended. *)
Fixpoint process_all (ds : list Delivery) (w : World G) : list Processed :=
  match ds with
  | [] => []
  | d :: rest =>
      let r := run (deliver d) w in
      mkProcessed d w (fst r) (snd r) :: process_all rest (snd r)
  end.

Definition final_world (ds : list Delivery) (w : World G) : World G :=
  fold_left (fun w d => snd (run (deliver d) w)) ds w.

Definition about (eid : string) (s : Processed) : bool :=
  String.eqb (delivery_id (seen s)) eid.

(** A delivery that changes nothing: it found the event's row and
    returned null. *)
Definition absorbed (s : Processed) : Prop :=
  Table.webhookEvent_findUnique (delivery_id (seen s)) (db (before s)) <> None
  /\ result s = Return None
  /\ db (after s) = db (before s).

Lemma deliver_keeps_store_up (d : Delivery) (w : World G) :
  faults w = [] -> faults (snd (run (deliver d) w)) = [].
Proof. intros Hf. rewrite deliver_healthy by exact Hf. exact Hf. Qed.

(** Once the row of [eid] is there, every delivery of [eid] is absorbed
    and the row stays alone. *)
Lemma recorded_event_absorbs (eid : string) (ds : list Delivery) :
  forall w : World G,
    faults w = [] ->
    count_events eid (db w) = 1%nat ->
    count_events eid (db (final_world ds w)) = 1%nat
    /\ Forall absorbed (filter (about eid) (process_all ds w)).
Proof.
  induction ds as [| d rest IH]; intros w Hf Hone; simpl.
  - split; [exact Hone | constructor].
  - pose proof (deliver_keeps_store_up d w Hf) as Hf'.
    pose proof (delivery_effect_events d (clock w) (db w)) as Hev.
    assert (Hstep : count_events eid (db (snd (run (deliver d) w))) = 1%nat
                    /\ (about eid (mkProcessed d w (fst (run (deliver d) w))
                                     (snd (run (deliver d) w))) = true ->
                        absorbed (mkProcessed d w (fst (run (deliver d) w))
                                    (snd (run (deliver d) w))))).
    { rewrite deliver_healthy by exact Hf. world_simpl.
      unfold about, absorbed. cbn [seen before result after]. world_simpl.
      destruct (Table.webhookEvent_findUnique (delivery_id d) (db w)) as [ev |] eqn:Efind.
      - rewrite Hev. world_simpl. split; [exact Hone |].
        intros _. repeat split; try reflexivity. discriminate.
      - rewrite (Hev eid).
        destruct (String.eqb (delivery_id d) eid) eqn:Eid.
        + apply String.eqb_eq in Eid. subst eid.
          apply count_events_zero in Efind. rewrite Efind in Hone. discriminate.
        + split; [lia | discriminate]. }
    destruct Hstep as [Hone' Habs].
    destruct (IH (snd (run (deliver d) w)) Hf' Hone') as [Hfinal Hrest].
    split; [exact Hfinal |].
    destruct (about eid _) eqn:Eab; [| exact Hrest].
    constructor; [apply Habs; reflexivity | exact Hrest].
Qed.

(** X9.  Deliveries in turn.  With the store up, let the deliveries [ds] be
    processed one after the other, among them at least one of the event id
    [eid], on tables that hold at most one row of that id.  Afterwards
    exactly one [WebhookEvent] row has the id, and of the deliveries of
    [eid] every one after the first found the row, returned null and
    changed nothing: at most the first one made a transition. *)
Lemma deliveries_in_turn_processed_once (eid : string) (ds : list Delivery) :
  forall w : World G,
    faults w = [] ->
    (count_events eid (db w) <= 1)%nat ->
    (exists d, In d ds /\ delivery_id d = eid) ->
    count_events eid (db (final_world ds w)) = 1%nat
    /\ Forall absorbed (tl (filter (about eid) (process_all ds w))).
Proof.
  induction ds as [| d rest IH]; intros w Hf Hcount [d0 [Hin Hid]].
  - destruct Hin.
  - destruct (Nat.eq_dec (count_events eid (db w)) 1) as [Hone | Hzero].
    + destruct (recorded_event_absorbs eid (d :: rest) w Hf Hone) as [H1 H2].
      split; [exact H1 |].
      destruct (filter (about eid) (process_all (d :: rest) w)) as [| s l];
        [constructor | inversion H2; assumption].
    + assert (Hz : count_events eid (db w) = 0%nat) by lia.
      pose proof (deliver_keeps_store_up d w Hf) as Hf'.
      pose proof (delivery_effect_events d (clock w) (db w)) as Hev.
      assert (Hnone : Table.webhookEvent_findUnique eid (db w) = None)
        by (apply count_events_zero; exact Hz).
      simpl. unfold about at 1. cbn [seen].
      destruct (String.eqb (delivery_id d) eid) eqn:Eid.
      * apply String.eqb_eq in Eid.
        assert (Hone' : count_events eid (db (snd (run (deliver d) w))) = 1%nat).
        { rewrite deliver_healthy by exact Hf. world_simpl.
          rewrite Eid, Hnone in Hev. rewrite (Hev eid), Hz, String.eqb_refl.
          reflexivity. }
        destruct (recorded_event_absorbs eid rest _ Hf' Hone') as [H1 H2].
        split; [exact H1 | exact H2].
      * assert (Hcount' : (count_events eid (db (snd (run (deliver d) w))) <= 1)%nat).
        { rewrite deliver_healthy by exact Hf. world_simpl.
          destruct (Table.webhookEvent_findUnique (delivery_id d) (db w)).
          - rewrite Hev. world_simpl. lia.
          - rewrite (Hev eid), Eid. lia. }
        apply IH; [exact Hf' | exact Hcount' |].
        destruct Hin as [<- | Hin].
        -- rewrite Hid, String.eqb_refl in Eid. discriminate.
        -- exists d0. split; assumption.
Qed.

End ExactlyOnce.

Lemma deliveries_in_turn_processed_once_witness :
  let w := Demo.world (mkDatabase [Demo.order "ord_1" PROCESSING "key-1" (Some "cs_1")] []) [] in
  let ds := [Completed "cs_1" (Some "pi_1") (Some "a@b.c") "evt_1";
             Expired "cs_other" "evt_7";
             Completed "cs_1" (Some "pi_1") (Some "a@b.c") "evt_1";
             Completed "cs_1" (Some "pi_1") (Some "a@b.c") "evt_1"] in
  count_events "evt_1" (db (final_world ds w)) = 1%nat
  /\ Forall absorbed (tl (filter (about "evt_1") (process_all ds w))).
Proof.
  apply (deliveries_in_turn_processed_once "evt_1"
           [Completed "cs_1" (Some "pi_1") (Some "a@b.c") "evt_1";
            Expired "cs_other" "evt_7";
            Completed "cs_1" (Some "pi_1") (Some "a@b.c") "evt_1";
            Completed "cs_1" (Some "pi_1") (Some "a@b.c") "evt_1"]
           (Demo.world (mkDatabase [Demo.order "ord_1" PROCESSING "key-1" (Some "cs_1")] []) [])).
  - reflexivity.
  - vm_compute. lia.
  - exists (Completed "cs_1" (Some "pi_1") (Some "a@b.c") "evt_1").
    split; [left; reflexivity | reflexivity].
Defined.

(** A verified [payment_intent.payment_failed] event does not reach the
    order service: it is routed to a handler that only logs, so however
    often it is delivered no [WebhookEvent] row of its id is written. *)
Example payment_failed_event_is_only_logged :
  let req := mkWebhookRequest (Some "whsec_ok") (Some "pi_failed") in
  let w0 := Demo.world (mkDatabase [Demo.order "ord_1" PROCESSING "key-1" (Some "cs_1")] []) [] in
  let r1 := run (handleStripeWebhook req) w0 in
  let r2 := run (handleStripeWebhook req) (snd r1) in
  verifyWebhookSignature "pi_failed" "whsec_ok"
  = Some (mkEvent "evt_pf" "payment_intent.payment_failed"
            (mkSession "pi_failed" None PI_null None))
  /\ fst r1 = Return (mkWebhookReply 200 "{received:true}")
  /\ fst r2 = Return (mkWebhookReply 200 "{received:true}")
  /\ count_events "evt_pf" (db (snd r1)) = 0%nat
  /\ count_events "evt_pf" (db (snd r2)) = 0%nat
  /\ db (snd r2) = db w0.
Proof. vm_compute. repeat split; reflexivity. Qed.

(** The scenario of the specification: the completed event of an order's
    session arrives twice. *)
Example completed_twice_pays_once :
  let w := Demo.world (mkDatabase [Demo.order "ord_1" PROCESSING "key-1" (Some "cs_1")] []) [] in
  let d := Completed "cs_1" (Some "pi_1") (Some "a@b.c") "evt_1" in
  let w1 := snd (run (deliver d) w) in
  let r2 := run (deliver d) w1 in
  map (fun o => (status o, paidAt o)) (orders (db w1)) = [(PAID, Some 1700000000)]
  /\ fst r2 = Return None
  /\ db (snd r2) = db w1
  /\ List.length (webhookEvents (db (snd r2))) = 1%nat.
Proof. vm_compute. repeat split; reflexivity. Qed.

(* ===================================================================== *)
(** ** All or nothing *)

Section Acknowledgement.

Context {G : Type} {PG : PaymentGateway G}.

(** A verified event is acknowledged with 200 when its handler returns and
    with 500, the provider's cue to deliver again, when it throws. *)
Lemma handleStripeWebhook_verified
  (req : WebhookRequest) (signature body : string) (event : StripeEvent) (w : World G) :
  stripe_signature req = Some signature ->
  signature <> "" ->
  rawBody req = Some body ->
  verifyWebhookSignature body signature = Some event ->
  run (handleStripeWebhook req) w
  = match run (route_event event) w with
    | (Return _, w') => (Return (mkWebhookReply 200 "{received:true}"), w')
    | (Throw _, w') => (Return (mkWebhookReply 500 "Webhook processing failed"), w')
    end.
Proof.
  intros Hs Hne Hb Hv. unfold handleStripeWebhook.
  rewrite Hs, (nonempty_some signature Hne), Hb, Hv.
  rewrite run_try_catch, run_bind.
  destruct (run (route_event event) w) as [[[] | e] w']; reflexivity.
Qed.

End Acknowledgement.

Section Atomicity.

Context {G : Type} {PG : PaymentGateway G}.

(** C3.  Whatever the outage plan, a delivery that throws, at the
    duplicate check, the order lookup, the status update, the insertion of
    the event row or the commit, leaves both tables exactly as they were.
    A later delivery of the same event that meets those tables with the
    store up returns, does what a first delivery does on them, and leaves
    exactly one row of the event's id. *)
Theorem failed_delivery_rolls_back_and_retry_applies_once
  (d : Delivery) (w : World G) (e : Exn) :
  fst (run (deliver d) w) = Throw e ->
  (count_events (delivery_id d) (db w) <= 1)%nat ->
  db (snd (run (deliver d) w)) = db w
  /\ forall w2 : World G,
       faults w2 = [] ->
       db w2 = db (snd (run (deliver d) w)) ->
       fst (run (deliver d) w2) = Return (fst (delivery_effect d (clock w2) (db w)))
       /\ db (snd (run (deliver d) w2)) = snd (delivery_effect d (clock w2) (db w))
       /\ count_events (delivery_id d) (db (snd (run (deliver d) w2))) = 1%nat.
Proof.
  intros Hthrow Hcount.
  pose proof (deliver_rollback d w e Hthrow) as Hdb.
  split; [exact Hdb |].
  intros w2 Hf2 Hdb2. rewrite Hdb in Hdb2.
  rewrite deliver_healthy by exact Hf2. world_simpl. rewrite Hdb2.
  repeat split.
  pose proof (delivery_effect_events d (clock w2) (db w)) as Hev.
  destruct (Table.webhookEvent_findUnique (delivery_id d) (db w)) as [ev |] eqn:Efind.
  - rewrite Hev. world_simpl.
    assert (count_events (delivery_id d) (db w) <> 0%nat).
    { intros Hz. apply count_events_zero in Hz. congruence. }
    lia.
  - rewrite (Hev (delivery_id d)), String.eqb_refl.
    apply count_events_zero in Efind. lia.
Qed.

End Atomicity.

(** The store goes down between the update of the order and the insertion
    of the event row. *)
Lemma failed_delivery_rolls_back_and_retry_applies_once_witness :
  let w := Demo.world (mkDatabase [Demo.order "ord_1" PROCESSING "key-1" (Some "cs_1")] [])
             [false; false; false; true] in
  let d := Completed "cs_1" (Some "pi_1") (Some "a@b.c") "evt_1" in
  db (snd (run (deliver d) w)) = db w
  /\ forall w2 : World Demo.Provider,
       faults w2 = [] ->
       db w2 = db (snd (run (deliver d) w)) ->
       fst (run (deliver d) w2) = Return (fst (delivery_effect d (clock w2) (db w)))
       /\ db (snd (run (deliver d) w2)) = snd (delivery_effect d (clock w2) (db w))
       /\ count_events (delivery_id d) (db (snd (run (deliver d) w2))) = 1%nat.
Proof.
  apply (failed_delivery_rolls_back_and_retry_applies_once
           (Completed "cs_1" (Some "pi_1") (Some "a@b.c") "evt_1")
           (Demo.world (mkDatabase [Demo.order "ord_1" PROCESSING "key-1" (Some "cs_1")] [])
              [false; false; false; true])
           StorageUnavailable).
  - reflexivity.
  - vm_compute. lia.
Defined.

Example outage_before_event_row_undoes_the_update :
  let d0 := mkDatabase [Demo.order "ord_1" PROCESSING "key-1" (Some "cs_1")] [] in
  let d := Completed "cs_1" (Some "pi_1") (Some "a@b.c") "evt_1" in
  let tx := run (delivery_tx d) (Demo.world d0 [false; false; false; true]) in
  let r := run (deliver d) (Demo.world d0 [false; false; false; true]) in
  fst tx = Throw StorageUnavailable
  /\ map status (orders (db (snd tx))) = [PAID]
  /\ fst r = Throw StorageUnavailable
  /\ db (snd r) = d0.
Proof. vm_compute. repeat split; reflexivity. Qed.

(* ===================================================================== *)
(** ** Programs under interference

    [ok Q p w]: from world [w] on, whatever the other programs do between
    its steps (they keep [I] and move the world along [R]), every step of
    [p] keeps [I] and moves along [R], and [Q] holds of its result in the
    world where it finishes. *)

Section Interference.

Context {G : Type}.

Variable I : World G -> Prop.
Variable R : World G -> World G -> Prop.
Hypothesis R_refl : forall w, R w w.
Hypothesis R_trans : forall w1 w2 w3, R w1 w2 -> R w2 w3 -> R w1 w3.

Fixpoint ok {A : Type} (Q : A -> World G -> Prop) (p : Async G A) (w : World G) : Prop :=
  match p with
  | Done a => Q a w
  | Raise _ => True
  | Step act k =>
      forall w1, R w w1 -> I w1 ->
                 I (snd (act w1)) /\ R w1 (snd (act w1))
                 /\ ok Q (k (fst (act w1))) (snd (act w1))
  end.

Definition stable {A : Type} (Q : A -> World G -> Prop) : Prop :=
  forall a w w', Q a w -> R w w' -> Q a w'.

(** An action that keeps [I] and moves along [R]. *)
Definition guarantees {X : Type} (act : World G -> X * World G) : Prop :=
  forall w, I w -> I (snd (act w)) /\ R w (snd (act w)).

Lemma ok_stable {A : Type} (Q : A -> World G -> Prop) (p : Async G A) :
  stable Q -> forall w w', ok Q p w -> R w w' -> ok Q p w'.
Proof.
  intros HQ. destruct p as [a | e | X act k]; simpl; intros w w' Hok Hr.
  - eapply HQ; eassumption.
  - exact Logic.I.
  - intros w1 Hr1 Hi. apply Hok; [eapply R_trans; eassumption | exact Hi].
Qed.

Lemma ok_bind {A B : Type} (P : A -> World G -> Prop) (Q : B -> World G -> Prop)
  (p : Async G A) (f : A -> Async G B) :
  (forall a w, P a w -> ok Q (f a) w) ->
  forall w, ok P p w -> ok Q (bind p f) w.
Proof.
  intros Hf. induction p as [a | e | X act k IH]; simpl; intros w Hok.
  - apply Hf; exact Hok.
  - exact Logic.I.
  - intros w1 Hr Hi. destruct (Hok w1 Hr Hi) as [H1 [H2 H3]].
    repeat split; try assumption. apply IH; exact H3.
Qed.

Lemma ok_try_catch {A : Type} (Q : A -> World G -> Prop) (p : Async G A)
  (h : Exn -> Async G A) :
  (forall e w, ok Q (h e) w) ->
  forall w, ok Q p w -> ok Q (try_catch p h) w.
Proof.
  intros Hh. induction p as [a | e | X act k IH]; simpl; intros w Hok.
  - exact Hok.
  - apply Hh.
  - intros w1 Hr Hi. destruct (Hok w1 Hr Hi) as [H1 [H2 H3]].
    repeat split; try assumption. apply IH; exact H3.
Qed.

(** A fact about the world that survives interference can be carried
    along a program. *)
Lemma ok_frame {A : Type} (F : World G -> Prop) (Q : A -> World G -> Prop)
  (p : Async G A) :
  (forall w w', F w -> R w w' -> F w') ->
  forall w, F w -> ok Q p w -> ok (fun a w' => Q a w' /\ F w') p w.
Proof.
  intros HF. induction p as [a | e | X act k IH]; simpl; intros w Hw Hok.
  - split; assumption.
  - exact Logic.I.
  - intros w1 Hr Hi. destruct (Hok w1 Hr Hi) as [H1 [H2 H3]].
    repeat split; try assumption.
    apply IH; [| exact H3]. eapply HF; [| exact H2]. eapply HF; eassumption.
Qed.

Lemma ok_await {A : Type} (Q : A -> World G -> Prop)
  (act : World G -> Completion A * World G) :
  guarantees act ->
  (forall w a, I w -> fst (act w) = Return a -> Q a (snd (act w))) ->
  forall w, ok Q (await act) w.
Proof.
  intros Hg Hq w. unfold await. simpl. intros w1 Hr Hi.
  destruct (Hg w1 Hi) as [H1 H2]. repeat split; try assumption.
  destruct (fst (act w1)) as [a | e] eqn:E; simpl; [| exact Logic.I].
  apply Hq; assumption.
Qed.

Lemma ok_perform {A : Type} (Q : A -> World G -> Prop) (act : World G -> A * World G) :
  guarantees act ->
  (forall w, I w -> Q (fst (act w)) (snd (act w))) ->
  forall w, ok Q (perform act) w.
Proof.
  intros Hg Hq w. unfold perform. simpl. intros w1 Hr Hi.
  destruct (Hg w1 Hi) as [H1 H2]. repeat split; try assumption.
  apply Hq; exact Hi.
Qed.

Lemma replace_nth_Forall {A : Type} (P : A -> Prop) (i : nat) (x : A) (l : list A) :
  P x -> Forall P l -> Forall P (replace_nth i x l).
Proof.
  intros Hx Hl. revert i.
  induction Hl as [| a l Ha Hl IH]; intros [| i']; simpl;
    try constructor; try assumption.
  apply IH.
Qed.

Lemma step_thread_ok {A : Type} (Q : A -> World G -> Prop) (i : nat)
  (pool : list (Async G A)) (w : World G) :
  stable Q -> I w -> Forall (fun p => ok Q p w) pool ->
  I (snd (step_thread i pool w))
  /\ R w (snd (step_thread i pool w))
  /\ Forall (fun p => ok Q p (snd (step_thread i pool w))) (fst (step_thread i pool w)).
Proof.
  intros HQ Hi Hpool. unfold step_thread.
  destruct (nth_error pool i) as [[a | e | X act k] |] eqn:E; simpl;
    try (repeat split; [exact Hi | apply R_refl | exact Hpool]).
  assert (Hp : ok Q (Step act k) w).
  { rewrite Forall_forall in Hpool. apply Hpool. eapply nth_error_In; exact E. }
  simpl in Hp. destruct (Hp w (R_refl w) Hi) as [H1 [H2 H3]].
  destruct (act w) as [x w'] eqn:Eact. simpl in *.
  repeat split; try assumption.
  apply replace_nth_Forall; [exact H3 |].
  eapply Forall_impl; [| exact Hpool].
  intros p Hok. exact (ok_stable Q p HQ w w' Hok H2).
Qed.

Lemma run_schedule_ok {A : Type} (Q : A -> World G -> Prop) (schedule : list nat) :
  stable Q ->
  forall (pool : list (Async G A)) (w : World G),
    I w -> Forall (fun p => ok Q p w) pool ->
    I (snd (run_schedule schedule pool w))
    /\ R w (snd (run_schedule schedule pool w))
    /\ Forall (fun p => ok Q p (snd (run_schedule schedule pool w)))
         (fst (run_schedule schedule pool w)).
Proof.
  intros HQ. induction schedule as [| i rest IH]; intros pool w Hi Hpool; simpl.
  - repeat split; [exact Hi | apply R_refl | exact Hpool].
  - destruct (step_thread_ok Q i pool w HQ Hi Hpool) as [H1 [H2 H3]].
    destruct (step_thread i pool w) as [pool' w']. simpl in *.
    destruct (IH pool' w' H1 H3) as [H4 [H5 H6]].
    repeat split; try assumption. eapply R_trans; eassumption.
Qed.

End Interference.

(* ===================================================================== *)
(** ** The steps of a transaction

    A round trip of a transaction leaves the tables alone, all but the
    commit; what the commit installs is what the writes of the body make
    of the tables it finds. *)

Section TransactionSteps.

Context {G : Type}.

Variable T : Database -> Database -> Prop.
Hypothesis T_refl : forall d, T d d.
Hypothesis T_trans : forall d1 d2 d3, T d1 d2 -> T d2 d3 -> T d1 d3.

(** Every write of the body moves the tables along [T], whatever the
    statements before it returned. *)
Fixpoint tx_writes {A : Type} (body : Tx A) : Prop :=
  match body with
  | TxDone _ => True
  | TxQuery _ k => forall x, tx_writes (k x)
  | TxWrite f k => (forall d, T d (snd (f d))) /\ forall x, tx_writes (k x)
  | TxNow k => forall t, tx_writes (k t)
  end.

Definition within (pending : Pending) : Prop :=
  forall d d', pending d = Return d' -> T d d'.

Lemma within_nothing : within (fun d => Return d).
Proof. intros d d' H. injection H as <-. apply T_refl. Qed.

Lemma within_then_write {X : Type} (pending : Pending)
  (f : Database -> Completion X * Database) :
  within pending -> (forall d, T d (snd (f d))) -> within (then_write pending f).
Proof.
  intros Hp Hf d d' H. unfold then_write in H.
  destruct (pending d) as [view | e] eqn:Ep; [| discriminate].
  specialize (Hf view). destruct (f view) as [[x | e] view']; [| discriminate].
  injection H as <-. eapply T_trans; [apply Hp; exact Ep | exact Hf].
Qed.

(** From [w] to [w']: the provider was left alone, the tables moved along
    [T], and a store that was up is up. *)
Definition tx_step (w w' : World G) : Prop :=
  calls w' = calls w /\ gateway w' = gateway w /\ T (db w) (db w')
  /\ (faults w = [] -> faults w' = []).

Lemma storage_tx_step {X : Type} (f : Database -> Completion X * Database) :
  (forall d, T d (snd (f d))) ->
  forall w : World G, tx_step w (snd (storage f w)).
Proof.
  intros Hf w. unfold tx_step, storage.
  destruct (faults w) as [| [|] rest] eqn:E; simpl.
  - specialize (Hf (db w)). destruct (f (db w)); simpl in *.
    split; [reflexivity | split; [reflexivity | split; [exact Hf | intros _; exact E]]].
  - split; [reflexivity | split; [reflexivity | split; [apply T_refl | discriminate]]].
  - specialize (Hf (db w)). destruct (f (db w)); simpl in *.
    split; [reflexivity | split; [reflexivity | split; [exact Hf | discriminate]]].
Qed.

Lemma tx_statement_step {X : Type} (pending : Pending)
  (f : Database -> Completion X * Database) (w : World G) :
  tx_step w (snd (tx_statement pending f w)).
Proof.
  apply storage_tx_step. intros d. destruct (pending d); apply T_refl.
Qed.

Lemma tx_commit_step {A : Type} (pending : Pending) (a : A) (w : World G) :
  within pending -> tx_step w (snd (tx_commit pending a w)).
Proof.
  intros Hp. apply storage_tx_step. intros d.
  destruct (pending d) as [d' | e] eqn:E; simpl; [apply Hp; exact E | apply T_refl].
Qed.

Section Promises.

Variable I : World G -> Prop.
Variable R : World G -> World G -> Prop.
Hypothesis step_kept : forall w w', I w -> tx_step w w' -> I w' /\ R w w'.

Lemma in_transaction_ok {A : Type} (body : Tx A) :
  forall pending, within pending -> tx_writes body ->
                  forall w, ok I R (fun _ _ => True) (in_transaction pending body) w.
Proof.
  induction body as [a | X f k IH | X f k IH | k IH];
    intros pending Hp Hb w; cbn [in_transaction].
  - apply ok_await; [| intros; exact Logic.I].
    intros w1 Hi. apply step_kept; [exact Hi | apply tx_commit_step; exact Hp].
  - apply (ok_bind I R (fun _ _ => True)).
    + intros x w1 _. apply IH; [exact Hp | apply Hb].
    + apply ok_await; [| intros; exact Logic.I].
      intros w1 Hi. apply step_kept; [exact Hi | apply tx_statement_step].
  - destruct Hb as [Hf Hk]. apply (ok_bind I R (fun _ _ => True)).
    + intros x w1 _. apply IH; [apply within_then_write; assumption | apply Hk].
    + apply ok_await; [| intros; exact Logic.I].
      intros w1 Hi. apply step_kept; [exact Hi | apply tx_statement_step].
  - apply (ok_bind I R (fun _ _ => True)).
    + intros t w1 _. apply IH; [exact Hp | apply Hb].
    + apply ok_perform; [| intros; exact Logic.I].
      intros w1 Hi. apply step_kept; [exact Hi |].
      split; [reflexivity | split; [reflexivity | split; [apply T_refl | tauto]]].
Qed.

Lemma transaction_ok {A : Type} (body : Tx A) (w : World G) :
  tx_writes body -> ok I R (fun _ _ => True) (transaction body) w.
Proof. intros Hb. apply in_transaction_ok; [apply within_nothing | exact Hb]. Qed.

End Promises.

Section Kept.

Variable J : Database -> Prop.
Hypothesis T_keeps : forall d d', T d d' -> J d -> J d'.

Lemma in_transaction_preserves {A : Type} (body : Tx A) :
  forall pending, within pending -> tx_writes body ->
                  steps_preserve J (in_transaction (G := G) pending body).
Proof.
  assert (Hstep : forall w w' : World G, tx_step w w' -> J (db w) -> J (db w')).
  { intros w w' [_ [_ [Ht _]]]. apply T_keeps. exact Ht. }
  induction body as [a | X f k IH | X f k IH | k IH];
    intros pending Hp Hb; cbn [in_transaction].
  - apply steps_preserve_await. intros w. apply Hstep, tx_commit_step. exact Hp.
  - apply steps_preserve_bind.
    + apply steps_preserve_await. intros w. apply Hstep, tx_statement_step.
    + intros x. apply IH; [exact Hp | apply Hb].
  - destruct Hb as [Hf Hk]. apply steps_preserve_bind.
    + apply steps_preserve_await. intros w. apply Hstep, tx_statement_step.
    + intros x. apply IH; [apply within_then_write; assumption | apply Hk].
  - apply steps_preserve_bind.
    + apply steps_preserve_perform. intros w Hw. exact Hw.
    + intros t. apply IH; [exact Hp | apply Hb].
Qed.

Lemma transaction_steps_preserve {A : Type} (body : Tx A) :
  tx_writes body -> steps_preserve J (transaction (G := G) body).
Proof. intros Hb. apply in_transaction_preserves; [apply within_nothing | exact Hb]. Qed.

End Kept.

(** The two transactions of the order service write through three calls:
    the update to [PAID], the update to [FAILED] and the insert of the
    event row. *)
Lemma delivery_body_writes (d : Delivery) :
  (forall id pay email t db,
      T db (snd (Table.order_update id
                   (mkOrderUpdate (Some PAID) None (Some pay) (Some email) (Some t)) db))) ->
  (forall id db,
      T db (snd (Table.order_update id (mkOrderUpdate (Some FAILED) None None None None) db))) ->
  (forall e db, T db (snd (Table.webhookEvent_create e db))) ->
  tx_writes (delivery_body d).
Proof.
  intros Hpaid Hfailed Hevent.
  destruct d as [sid pay email eid | sid eid];
    cbn [delivery_body]; unfold markOrderAsPaid_body, markOrderAsFailed_body;
    cbn [tx_writes].
  - intros [ev |]; [exact Logic.I |]. cbn [tx_writes].
    intros [o |]; cbn [tx_writes].
    + destruct (status_eqb (status o) PAID); cbn [tx_writes].
      * split; [apply Hevent | intros _; exact Logic.I].
      * intros t. split; [apply Hpaid |]. intros o'.
        split; [apply Hevent | intros _; exact Logic.I].
    + split; [apply Hevent | intros _; exact Logic.I].
  - intros [ev |]; [exact Logic.I |]. cbn [tx_writes].
    intros [o |]; cbn [tx_writes].
    + split; [apply Hfailed |]. intros o'.
      split; [apply Hevent | intros _; exact Logic.I].
    + split; [apply Hevent | intros _; exact Logic.I].
Qed.

End TransactionSteps.

(* ===================================================================== *)
(** ** Requests side by side, move by move

    [obeys may ends p w]: from world [w] on, whatever the other requests
    do between its moves (within [R], keeping [I]), every move of [p]
    keeps [I], stays within [R] and within [may], and [p] ends, returning
    or throwing, in a world where [ends] holds of its outcome. *)

Section Threads.

Context {G : Type}.

Variable I : World G -> Prop.
Variable R : World G -> World G -> Prop.
Hypothesis R_refl : forall w, R w w.
Hypothesis R_trans : forall w1 w2 w3, R w1 w2 -> R w2 w3 -> R w1 w3.

Fixpoint obeys {A : Type} (may : World G -> World G -> Prop)
  (ends : Completion A -> World G -> Prop) (p : Async G A) (w : World G) : Prop :=
  match p with
  | Done a => ends (Return a) w
  | Raise e => ends (Throw e) w
  | Step act k =>
      forall w1, R w w1 -> I w1 ->
                 I (snd (act w1)) /\ R w1 (snd (act w1)) /\ may w1 (snd (act w1))
                 /\ obeys may ends (k (fst (act w1))) (snd (act w1))
  end.

Definition lasting {A : Type} (ends : Completion A -> World G -> Prop) : Prop :=
  forall c w w', ends c w -> R w w' -> ends c w'.

Lemma obeys_lasting {A : Type} (may : World G -> World G -> Prop)
  (ends : Completion A -> World G -> Prop) (p : Async G A) :
  lasting ends -> forall w w', obeys may ends p w -> R w w' -> obeys may ends p w'.
Proof.
  intros Hq. destruct p as [a | e | X act k]; simpl; intros w w' Hok Hr.
  - eapply Hq; eassumption.
  - eapply Hq; eassumption.
  - intros w1 Hr1 Hi. apply Hok; [eapply R_trans; eassumption | exact Hi].
Qed.

Lemma obeys_await_bind {A X : Type} (may : World G -> World G -> Prop)
  (ends : Completion A -> World G -> Prop)
  (act : World G -> Completion X * World G) (f : X -> Async G A) (w : World G) :
  (forall w1, R w w1 -> I w1 ->
              I (snd (act w1)) /\ R w1 (snd (act w1)) /\ may w1 (snd (act w1))
              /\ match fst (act w1) with
                 | Return x => obeys may ends (f x) (snd (act w1))
                 | Throw e => ends (Throw e) (snd (act w1))
                 end) ->
  obeys may ends (x <- await act ;; f x) w.
Proof.
  intros H. unfold await. cbn [bind obeys]. intros w1 Hr Hi.
  destruct (H w1 Hr Hi) as [H1 [H2 [H3 H4]]].
  split; [exact H1 | split; [exact H2 | split; [exact H3 |]]].
  destruct (fst (act w1)) as [x | e]; exact H4.
Qed.

Lemma obeys_await {A : Type} (may : World G -> World G -> Prop)
  (ends : Completion A -> World G -> Prop)
  (act : World G -> Completion A * World G) (w : World G) :
  (forall w1, R w w1 -> I w1 ->
              I (snd (act w1)) /\ R w1 (snd (act w1)) /\ may w1 (snd (act w1))
              /\ ends (fst (act w1)) (snd (act w1))) ->
  obeys may ends (await act) w.
Proof.
  intros H. unfold await. cbn [obeys]. intros w1 Hr Hi.
  destruct (H w1 Hr Hi) as [H1 [H2 [H3 H4]]].
  split; [exact H1 | split; [exact H2 | split; [exact H3 |]]].
  destruct (fst (act w1)) as [x | e]; exact H4.
Qed.

Lemma obeys_perform_bind {A X : Type} (may : World G -> World G -> Prop)
  (ends : Completion A -> World G -> Prop)
  (act : World G -> X * World G) (f : X -> Async G A) (w : World G) :
  (forall w1, R w w1 -> I w1 ->
              I (snd (act w1)) /\ R w1 (snd (act w1)) /\ may w1 (snd (act w1))
              /\ obeys may ends (f (fst (act w1))) (snd (act w1))) ->
  obeys may ends (x <- perform act ;; f x) w.
Proof. intros H. unfold perform. cbn [bind obeys]. exact H. Qed.

Lemma obeys_bind {A B : Type} (may : World G -> World G -> Prop)
  (mid : Completion A -> World G -> Prop) (ends : Completion B -> World G -> Prop)
  (p : Async G A) (f : A -> Async G B) :
  (forall a w, mid (Return a) w -> obeys may ends (f a) w) ->
  (forall e w, mid (Throw e) w -> ends (Throw e) w) ->
  forall w, obeys may mid p w -> obeys may ends (bind p f) w.
Proof.
  intros Hf He. induction p as [a | e | X act k IH]; simpl; intros w Hp.
  - apply Hf. exact Hp.
  - apply He. exact Hp.
  - intros w1 Hr Hi. destruct (Hp w1 Hr Hi) as [H1 [H2 [H3 H4]]].
    split; [exact H1 | split; [exact H2 | split; [exact H3 |]]].
    apply IH. exact H4.
Qed.

Lemma obeys_try_catch {A : Type} (may : World G -> World G -> Prop)
  (mid ends : Completion A -> World G -> Prop)
  (p : Async G A) (h : Exn -> Async G A) :
  (forall a w, mid (Return a) w -> ends (Return a) w) ->
  (forall e w, mid (Throw e) w -> obeys may ends (h e) w) ->
  forall w, obeys may mid p w -> obeys may ends (try_catch p h) w.
Proof.
  intros Ha Hh. induction p as [a | e | X act k IH]; simpl; intros w Hp.
  - apply Ha. exact Hp.
  - apply Hh. exact Hp.
  - intros w1 Hr Hi. destruct (Hp w1 Hr Hi) as [H1 [H2 [H3 H4]]].
    split; [exact H1 | split; [exact H2 | split; [exact H3 |]]].
    apply IH. exact H4.
Qed.

(** A fact about the world that survives interference can be carried
    along. *)
Lemma obeys_frame {A : Type} (F : World G -> Prop) (may : World G -> World G -> Prop)
  (ends : Completion A -> World G -> Prop) (p : Async G A) :
  (forall w w', F w -> R w w' -> F w') ->
  forall w, F w -> obeys may ends p w -> obeys may (fun c w' => ends c w' /\ F w') p w.
Proof.
  intros HF. induction p as [a | e | X act k IH]; simpl; intros w Hw Hp.
  - split; assumption.
  - split; assumption.
  - intros w1 Hr Hi. destruct (Hp w1 Hr Hi) as [H1 [H2 [H3 H4]]].
    split; [exact H1 | split; [exact H2 | split; [exact H3 |]]].
    apply IH; [| exact H4]. eapply HF; [| exact H2]. eapply HF; eassumption.
Qed.

(** A fact that survives interference holds at the end of a program
    that is [ok], however it ends. *)
Lemma kept_along {A : Type} (F : World G -> Prop) (p : Async G A) :
  (forall w w', F w -> R w w' -> F w') ->
  forall w, F w -> ok I R (fun _ _ => True) p w ->
            obeys (fun _ _ => True) (fun _ w' => F w') p w.
Proof.
  intros HF. induction p as [a | e | X act k IH]; simpl; intros w Hw Hok.
  - exact Hw.
  - exact Hw.
  - intros w1 Hr Hi. destruct (Hok w1 Hr Hi) as [H1 [H2 H3]].
    split; [exact H1 | split; [exact H2 | split; [exact Logic.I |]]].
    apply IH; [| exact H3]. eapply HF; [| exact H2]. eapply HF; eassumption.
Qed.

(** A program that is [ok] obeys, with nothing more asked of its moves
    and of its end. *)
Lemma ok_obeys {A : Type} (p : Async G A) :
  forall w, ok I R (fun _ _ => True) p w ->
            obeys (fun _ _ => True) (fun _ _ => True) p w.
Proof.
  induction p as [a | e | X act k IH]; simpl; intros w Hok.
  - exact Logic.I.
  - exact Logic.I.
  - intros w1 Hr Hi. destruct (Hok w1 Hr Hi) as [H1 [H2 H3]].
    split; [exact H1 | split; [exact H2 | split; [exact Logic.I |]]].
    apply IH. exact H3.
Qed.

(** *** A pool of requests, each with its own duties *)

Context {A : Type}.

Variable may : nat -> World G -> World G -> Prop.
Variable ends : nat -> Completion A -> World G -> Prop.
Hypothesis may_refl : forall i w, may i w w.
Hypothesis ends_lasting : forall i, lasting (ends i).

Definition pool_obeys (pool : list (Async G A)) (w : World G) : Prop :=
  forall i p, nth_error pool i = Some p -> obeys (may i) (ends i) p w.

Lemma nth_error_replace_nth_eq {B : Type} (i : nat) (x y : B) (l : list B) :
  nth_error l i = Some y -> nth_error (replace_nth i x l) i = Some x.
Proof.
  revert i. induction l as [| h t IH]; intros [| i']; simpl; intros H;
    try discriminate; [reflexivity | apply IH; exact H].
Qed.

Lemma nth_error_replace_nth_neq {B : Type} (i j : nat) (x : B) (l : list B) :
  i <> j -> nth_error (replace_nth i x l) j = nth_error l j.
Proof.
  revert i j. induction l as [| h t IH]; intros [| i'] [| j']; simpl; intros H;
    try reflexivity; [contradiction | apply IH; congruence].
Qed.

Lemma step_thread_obeys (i : nat) (pool : list (Async G A)) (w : World G) :
  I w -> pool_obeys pool w ->
  I (snd (step_thread i pool w))
  /\ R w (snd (step_thread i pool w))
  /\ may i w (snd (step_thread i pool w))
  /\ pool_obeys (fst (step_thread i pool w)) (snd (step_thread i pool w)).
Proof.
  intros Hi Hpool. unfold step_thread.
  destruct (nth_error pool i) as [[a | e | X act k] |] eqn:E; simpl;
    try (split; [exact Hi | split; [apply R_refl | split; [apply may_refl | exact Hpool]]]).
  pose proof (Hpool i _ E) as Hp. simpl in Hp.
  destruct (Hp w (R_refl w) Hi) as [H1 [H2 [H3 H4]]].
  destruct (act w) as [x w'] eqn:Eact. simpl in *.
  split; [exact H1 | split; [exact H2 | split; [exact H3 |]]].
  intros j p Hj. destruct (Nat.eq_dec i j) as [<- | Hne].
  - rewrite (nth_error_replace_nth_eq i (k x) _ pool E) in Hj.
    injection Hj as <-. exact H4.
  - rewrite (nth_error_replace_nth_neq i j (k x) pool Hne) in Hj.
    apply (obeys_lasting _ _ p (ends_lasting j) w w'); [apply Hpool; exact Hj | exact H2].
Qed.

(** One move of the schedule: who moved, from which world, to which. *)
Record Move : Type := mkMove {
  mover : nat;
  from : World G;
  to : World G
}.

Fixpoint moves (schedule : list nat) (pool : list (Async G A)) (w : World G)
  : list Move :=
  match schedule with
  | [] => []
  | i :: rest =>
      let (pool', w') := step_thread i pool w in
      mkMove i w w' :: moves rest pool' w'
  end.

Definition dutiful (m : Move) : Prop :=
  I (from m) /\ R (from m) (to m) /\ may (mover m) (from m) (to m).

Lemma run_schedule_obeys (schedule : list nat) :
  forall (pool : list (Async G A)) (w : World G),
    I w -> pool_obeys pool w ->
    Forall dutiful (moves schedule pool w)
    /\ I (snd (run_schedule schedule pool w))
    /\ R w (snd (run_schedule schedule pool w))
    /\ pool_obeys (fst (run_schedule schedule pool w)) (snd (run_schedule schedule pool w)).
Proof.
  induction schedule as [| i rest IH]; intros pool w Hi Hpool; simpl.
  - split; [constructor | split; [exact Hi | split; [apply R_refl | exact Hpool]]].
  - destruct (step_thread_obeys i pool w Hi Hpool) as [H1 [H2 [H3 H4]]].
    destruct (step_thread i pool w) as [pool' w']. simpl in *.
    destruct (IH pool' w' H1 H4) as [H5 [H6 [H7 H8]]].
    split; [| split; [exact H6 | split; [eapply R_trans; eassumption | exact H8]]].
    constructor; [| exact H5].
    split; [exact Hi | split; [exact H2 | exact H3]].
Qed.

End Threads.

Section Schedules.

Context {G A : Type}.

Lemma run_schedule_app (s1 s2 : list nat) :
  forall (pool : list (Async G A)) (w : World G),
    run_schedule (s1 ++ s2) pool w
    = run_schedule s2 (fst (run_schedule s1 pool w)) (snd (run_schedule s1 pool w)).
Proof.
  induction s1 as [| i rest IH]; intros pool w; simpl.
  - reflexivity.
  - destruct (step_thread i pool w) as [pool' w']. apply IH.
Qed.

Lemma moves_app (s1 s2 : list nat) :
  forall (pool : list (Async G A)) (w : World G),
    moves (s1 ++ s2) pool w
    = (moves s1 pool w
       ++ moves s2 (fst (run_schedule s1 pool w)) (snd (run_schedule s1 pool w)))%list.
Proof.
  induction s1 as [| i rest IH]; intros pool w; simpl.
  - reflexivity.
  - destruct (step_thread i pool w) as [pool' w']. simpl. f_equal. apply IH.
Qed.

(** Each move starts where the one before it ended. *)
Fixpoint linked (w : World G) (trace : list (Move (G := G))) : Prop :=
  match trace with
  | [] => True
  | m :: rest => from m = w /\ linked (to m) rest
  end.

Lemma moves_linked (schedule : list nat) :
  forall (pool : list (Async G A)) (w : World G), linked w (moves schedule pool w).
Proof.
  induction schedule as [| i rest IH]; intros pool w; simpl.
  - exact I.
  - destruct (step_thread i pool w) as [pool' w']. simpl. split; [reflexivity | apply IH].
Qed.

(** A request that has not moved is where it was. *)
Lemma run_schedule_untouched (schedule : list nat) (i : nat) :
  ~ In i schedule ->
  forall (pool : list (Async G A)) (w : World G),
    nth_error (fst (run_schedule schedule pool w)) i = nth_error pool i.
Proof.
  induction schedule as [| j rest IH]; intros Hnot pool w; simpl.
  - reflexivity.
  - assert (Hji : j <> i) by (intros ->; apply Hnot; left; reflexivity).
    assert (Hrest : ~ In i rest) by (intros H; apply Hnot; right; exact H).
    unfold step_thread.
    destruct (nth_error pool j) as [[a | e | X act k] |] eqn:E;
      try (apply IH; exact Hrest).
    destruct (act w) as [x w']. rewrite (IH Hrest).
    apply nth_error_replace_nth_neq. exact Hji.
Qed.

End Schedules.

(* ===================================================================== *)
(** ** Checkouts racing on one idempotency key *)

Definition count_orders (key : string) (d : Database) : nat :=
  List.length (filter (order_matches (ByIdempotencyKey key)) (orders d)).

Definition has_order (key id : string) (d : Database) : Prop :=
  exists o, In o (orders d) /\ order_id o = id /\ idempotencyKey o = key.

Lemma find_has_order (key : string) (d : Database) (o : Order) :
  Table.order_findUnique (ByIdempotencyKey key) d = Some o ->
  has_order key (order_id o) d.
Proof.
  unfold Table.order_findUnique. intros H. apply find_some in H.
  destruct H as [Hin Hm]. simpl in Hm. apply String.eqb_eq in Hm.
  exists o. repeat split; assumption.
Qed.

Lemma has_order_found (key id : string) (d : Database) :
  (count_orders key d <= 1)%nat ->
  has_order key id d ->
  exists o, Table.order_findUnique (ByIdempotencyKey key) d = Some o /\ order_id o = id.
Proof.
  unfold count_orders, has_order, Table.order_findUnique.
  intros Hcount [o [Hin [Hid Hkey]]].
  induction (orders d) as [| a l IH]; [destruct Hin |].
  simpl in *. destruct (String.eqb (idempotencyKey a) key) eqn:Ea.
  - exists a. split; [reflexivity |].
    destruct Hin as [-> | Hin]; [exact Hid |].
    exfalso. simpl in Hcount.
    assert (Hin' : In o (filter (order_matches (ByIdempotencyKey key)) l)).
    { apply filter_In. split; [exact Hin |]. simpl. apply String.eqb_eq. exact Hkey. }
    destruct (filter (order_matches (ByIdempotencyKey key)) l); [destruct Hin' |].
    simpl in Hcount. lia.
  - destruct Hin as [-> | Hin].
    + rewrite Hkey, String.eqb_refl in Ea. discriminate.
    + apply IH; assumption.
Qed.

Lemma has_order_counted (key id : string) (d : Database) :
  has_order key id d -> (1 <= count_orders key d)%nat.
Proof.
  unfold has_order, count_orders. intros [o [Hin [_ Hkey]]].
  assert (Hf : In o (filter (order_matches (ByIdempotencyKey key)) (orders d))).
  { apply filter_In. split; [exact Hin |]. simpl. apply String.eqb_eq. exact Hkey. }
  destruct (filter _ (orders d)); [destruct Hf | simpl; lia].
Qed.

Lemma order_create_count {SC : OrderSchema} (key : string) (o : Order) (d : Database) :
  (count_orders key d <= 1)%nat ->
  (count_orders key (snd (Table.order_create o d)) <= 1)%nat.
Proof.
  unfold Table.order_create, count_orders. intros Hcount.
  destruct (amount_column (amount o)) as [x |]; [| exact Hcount].
  destruct (existsb _ (orders d)) eqn:Eex; simpl; [exact Hcount |].
  rewrite filter_app, length_app. simpl.
  destruct (String.eqb (idempotencyKey o) key) eqn:Ek; simpl; [| lia].
  apply String.eqb_eq in Ek.
  assert (Hnil : filter (order_matches (ByIdempotencyKey key)) (orders d) = []).
  { destruct (filter _ (orders d)) as [| a l] eqn:Ef; [reflexivity |].
    assert (Ha : In a (filter (order_matches (ByIdempotencyKey key)) (orders d)))
      by (rewrite Ef; left; reflexivity).
    apply filter_In in Ha. destruct Ha as [Hin Hm]. simpl in Hm.
    assert (Hex : existsb
                    (fun o' => String.eqb (order_id o') (order_id o)
                               || String.eqb (idempotencyKey o') (idempotencyKey o))
                    (orders d) = true).
    { apply existsb_exists. exists a. split; [exact Hin |].
      rewrite Ek, Hm. apply orb_true_r. }
    rewrite Hex in Eex. discriminate. }
  rewrite Hnil. simpl. lia.
Qed.

Lemma order_create_has_order {SC : OrderSchema} (key id : string) (o : Order) (d : Database) :
  has_order key id d -> has_order key id (snd (Table.order_create o d)).
Proof.
  intros [o' [Hin H]]. destruct (order_create_rows o d) as [E | [a [_ E]]]; rewrite E.
  - exists o'. split; assumption.
  - exists o'. split; [simpl; apply in_or_app; left; exact Hin | exact H].
Qed.

Lemma order_create_returned {SC : OrderSchema} (o a : Order) (d : Database) :
  fst (Table.order_create o d) = Return a ->
  has_order (idempotencyKey o) (order_id a) (snd (Table.order_create o d)).
Proof.
  unfold Table.order_create.
  destruct (amount_column (amount o)) as [x |]; simpl; [| discriminate].
  destruct (existsb _ _); simpl; [discriminate |].
  intros H. injection H as <-. exists (with_amount x o). repeat split.
  apply in_or_app. right. left. reflexivity.
Qed.

Lemma order_update_count (key id : string) (u : OrderUpdate) (d : Database) :
  count_orders key (snd (Table.order_update id u d)) = count_orders key d.
Proof.
  destruct (order_update_rows id u d) as [E | E]; rewrite E; [reflexivity |].
  unfold count_orders. simpl. clear E.
  induction (orders d) as [| a l IH]; simpl; [reflexivity |].
  destruct (String.eqb (order_id a) id); simpl;
    destruct (String.eqb (idempotencyKey a) key); simpl; rewrite IH; reflexivity.
Qed.

Lemma order_update_has_order (key id id' : string) (u : OrderUpdate) (d : Database) :
  has_order key id d -> has_order key id (snd (Table.order_update id' u d)).
Proof.
  intros [o [Hin [Hid Hkey]]].
  destruct (order_update_rows id' u d) as [E | E]; rewrite E.
  - exists o. repeat split; assumption.
  - exists (if String.eqb (order_id o) id' then apply_update u o else o).
    split; [| destruct (String.eqb (order_id o) id'); simpl; split; assumption].
    simpl. apply in_map_iff. exists o. split; [reflexivity | exact Hin].
Qed.

Section SameKey.

Context {G : Type} {PG : PaymentGateway G} {SC : OrderSchema}.

Variable key : string.

(** The invariant, the interference allowed, and what a reply promises. *)
Definition one_row (w : World G) : Prop :=
  (count_orders key (db w) <= 1)%nat.

Definition rows_stay (w w' : World G) : Prop :=
  forall id, has_order key id (db w) -> has_order key id (db w').

Definition answers_row (reply : CheckoutReply) (w : World G) : Prop :=
  forall oid, res_orderId (reply_json reply) = Some oid -> has_order key oid (db w).

Lemma rows_stay_refl (w : World G) : rows_stay w w.
Proof. intros id H. exact H. Qed.

Lemma rows_stay_trans (w1 w2 w3 : World G) :
  rows_stay w1 w2 -> rows_stay w2 w3 -> rows_stay w1 w3.
Proof. intros H12 H23 id H. apply H23, H12, H. Qed.

Lemma answers_row_stable : stable rows_stay answers_row.
Proof. intros reply w w' Hq Hr oid Hoid. apply Hr, Hq, Hoid. Qed.

Lemma same_db_guarantees {X : Type} (act : World G -> X * World G) :
  (forall w, db (snd (act w)) = db w) -> guarantees one_row rows_stay act.
Proof.
  intros Hdb w Hi. unfold one_row, rows_stay. rewrite Hdb. split; [exact Hi |].
  intros id H. exact H.
Qed.

Lemma storage_guarantees {X : Type} (f : Database -> Completion X * Database) :
  (forall d, (count_orders key d <= 1)%nat -> (count_orders key (snd (f d)) <= 1)%nat) ->
  (forall d id, has_order key id d -> has_order key id (snd (f d))) ->
  guarantees one_row rows_stay (storage f).
Proof.
  intros Hcount Hhas w Hi. unfold one_row, rows_stay, storage in *.
  destruct (faults w) as [| [|] rest]; simpl.
  - specialize (Hcount (db w) Hi). specialize (Hhas (db w)).
    destruct (f (db w)); simpl in *. split; assumption.
  - split; [exact Hi | intros id H; exact H].
  - specialize (Hcount (db w) Hi). specialize (Hhas (db w)).
    destruct (f (db w)); simpl in *. split; assumption.
Qed.

Lemma storage_returned {X : Type} (f : Database -> Completion X * Database)
  (w : World G) (a : X) :
  fst (storage f w) = Return a ->
  fst (f (db w)) = Return a /\ db (snd (storage f w)) = snd (f (db w)).
Proof.
  unfold storage. destruct (faults w) as [| [|] rest]; simpl.
  - destruct (f (db w)); simpl. intros H. split; [exact H | reflexivity].
  - discriminate.
  - destruct (f (db w)); simpl. intros H. split; [exact H | reflexivity].
Qed.

Lemma query_guarantees {X : Type} (f : Database -> X) :
  guarantees one_row rows_stay (query f).
Proof.
  apply storage_guarantees; intros; simpl; assumption.
Qed.

Lemma query_returned {X : Type} (f : Database -> X) (w : World G) (a : X) :
  fst (query f w) = Return a -> a = f (db w) /\ db (snd (query f w)) = db w.
Proof.
  intros H. apply storage_returned in H. simpl in H. destruct H as [H1 H2].
  injection H1 as <-. split; [reflexivity | exact H2].
Qed.

Lemma create_pending_guarantees (input : CreateOrderInput) :
  guarantees one_row rows_stay (prisma_order_create_pending input).
Proof.
  intros w Hi. unfold prisma_order_create_pending.
  destruct (uuidv4 w) as [id w1] eqn:Eu.
  assert (Hw1 : db w1 = db w) by (unfold uuidv4 in Eu; injection Eu as <- <-; reflexivity).
  assert (Hi1 : one_row w1) by (unfold one_row; rewrite Hw1; exact Hi).
  pose proof (fun o => storage_guarantees (Table.order_create o)
                          (fun d => order_create_count key o d)
                          (fun d id' => order_create_has_order key id' o d) w1 Hi1) as Hg.
  match goal with
  | |- context [storage (Table.order_create ?o) w1] => destruct (Hg o) as [H1 H2]
  end.
  split; [exact H1 |].
  intros id' H. apply H2. rewrite Hw1. exact H.
Qed.

Lemma create_pending_returned (input : CreateOrderInput) (w : World G) (a : Order) :
  fst (prisma_order_create_pending input w) = Return a ->
  has_order (in_idempotencyKey input) (order_id a)
    (db (snd (prisma_order_create_pending input w))).
Proof.
  unfold prisma_order_create_pending. destruct (uuidv4 w) as [id w1].
  intros H. apply storage_returned in H. destruct H as [H1 H2].
  rewrite H2. apply order_create_returned in H1. exact H1.
Qed.

(** [createOrder] under interference: the row it returns carries the
    key. *)
Lemma createOrder_ok (input : CreateOrderInput) (w : World G) :
  in_idempotencyKey input = key ->
  ok one_row rows_stay (fun o w' => has_order key (order_id o) (db w')) (createOrder input) w.
Proof.
  intros Hkey. unfold createOrder.
  apply (ok_bind one_row rows_stay
           (fun existing w' =>
              forall o, existing = Some o -> has_order key (order_id o) (db w'))).
  - intros [o |] w' HP.
    + simpl. apply HP. reflexivity.
    + apply ok_await.
      * apply create_pending_guarantees.
      * intros w1 a _ Hret. rewrite <- Hkey.
        apply create_pending_returned. exact Hret.
  - apply ok_await.
    + apply query_guarantees.
    + intros w1 a _ Hret o Ho. apply query_returned in Hret.
      destruct Hret as [Ha Hdb]. rewrite Hdb. rewrite Hkey in Ha.
      apply find_has_order. congruence.
Qed.

Lemma has_order_survives (id : string) (w w' : World G) :
  has_order key id (db w) -> rows_stay w w' -> has_order key id (db w').
Proof. intros H Hr. apply Hr, H. Qed.

Lemma stripe_createCheckoutSession_ok (orderId : string) (items : list CartItem)
  (w : World G) :
  ok one_row rows_stay (fun _ _ => True) (stripe_createCheckoutSession orderId items key) w.
Proof.
  unfold stripe_createCheckoutSession.
  apply (ok_bind one_row rows_stay (fun _ _ => True)).
  - intros [err | s] w' _; exact Logic.I.
  - apply ok_perform; [| intros; exact Logic.I].
    apply same_db_guarantees. intros w1. unfold stripe_sessions_create.
    destruct (sessions_create _ _ _ _). reflexivity.
Qed.

Lemma updateOrderWithStripeSession_ok (orderId : string) (sid : option string)
  (w : World G) :
  ok one_row rows_stay (fun _ _ => True) (updateOrderWithStripeSession orderId sid) w.
Proof.
  unfold updateOrderWithStripeSession. apply ok_await; [| intros; exact Logic.I].
  apply storage_guarantees.
  - intros d Hd. rewrite order_update_count. exact Hd.
  - intros d id H. apply order_update_has_order. exact H.
Qed.

Lemma checkout_steps_4_to_8_ok (items : list CartItem) (w : World G) :
  ok one_row rows_stay answers_row (checkout_steps_4_to_8 items key) w.
Proof.
  unfold checkout_steps_4_to_8.
  apply (ok_bind one_row rows_stay
           (fun o w' => has_order key (order_id o) (db w')));
    [| apply createOrder_ok; reflexivity].
  intros order w1 Horder.
  apply (ok_bind one_row rows_stay
           (fun _ w' => True /\ has_order key (order_id order) (db w')));
    [| apply (ok_frame one_row rows_stay (fun w' => has_order key (order_id order) (db w')));
       [intros; eapply has_order_survives; eassumption
       | exact Horder
       | apply stripe_createCheckoutSession_ok]].
  intros r w2 [_ Horder2].
  destruct (negb (sr_success r)).
  - simpl. intros oid Hoid. discriminate.
  - apply (ok_bind one_row rows_stay
             (fun _ w' => True /\ has_order key (order_id order) (db w')));
      [| apply (ok_frame one_row rows_stay
                  (fun w' => has_order key (order_id order) (db w')));
         [intros; eapply has_order_survives; eassumption
         | exact Horder2
         | apply updateOrderWithStripeSession_ok]].
    intros _ w3 [_ Horder3]. simpl. intros oid Hoid.
    injection Hoid as <-. exact Horder3.
Qed.

(** The controller under interference: a reply that names an order names
    a row that carries the key. *)
Lemma createCheckoutSession_ok (req : CreateCheckoutRequest) (w : World G) :
  key <> "" ->
  req_idempotencyKey req = Some key ->
  ok one_row rows_stay answers_row (createCheckoutSession req) w.
Proof.
  intros Hne Hkey. unfold createCheckoutSession.
  apply ok_try_catch; [intros e w' oid Hoid; discriminate |].
  destruct (req_items req) as [[| i0 rest] |];
    try (intros oid Hoid; discriminate).
  destruct (validate (i0 :: rest)) as [items | |];
    [| intros oid Hoid; discriminate | exact Logic.I].
  rewrite Hkey, (nonempty_some key Hne). cbn [bind].
  apply (ok_bind one_row rows_stay
           (fun existing w' =>
              forall o, existing = Some o -> has_order key (order_id o) (db w'))).
  - intros [existing |] w1 HP; [| apply checkout_steps_4_to_8_ok].
    destruct (nonempty (stripeCheckoutId existing)) as [sid |];
      [| apply checkout_steps_4_to_8_ok].
    apply (ok_bind one_row rows_stay
             (fun _ w' => True /\ has_order key (order_id existing) (db w'))).
    + intros [sess |] w2 [_ Hex]; [| apply checkout_steps_4_to_8_ok].
      destruct (nonempty (session_url sess)) as [url |];
        [| apply checkout_steps_4_to_8_ok].
      simpl. intros oid Hoid. injection Hoid as <-. exact Hex.
    + apply (ok_frame one_row rows_stay
               (fun w' => has_order key (order_id existing) (db w'))).
      * intros; eapply has_order_survives; eassumption.
      * apply HP. reflexivity.
      * unfold getCheckoutSession. apply ok_perform; [| intros; exact Logic.I].
        apply same_db_guarantees. intros w0. reflexivity.
  - unfold findOrderByIdempotencyKey. apply ok_await.
    + apply query_guarantees.
    + intros w1 a _ Hret o Ho. apply query_returned in Hret.
      destruct Hret as [Ha Hdb]. rewrite Hdb. apply find_has_order. congruence.
Qed.

End SameKey.

Section ConcurrentCheckout.

Context {G : Type} {PG : PaymentGateway G} {SC : OrderSchema}.

(** Let any number of checkout requests carrying one idempotency key run
    interleaved in any way, on tables holding at most one order of that
    key.  At every moment at most one order row carries the key; once a
    caller has been answered with an order id there is exactly one, and the
    id answered is the id of that row; so all such callers observe the same
    order id. *)
Lemma concurrent_checkouts_one_order_id
  (key : string) (reqs : list CreateCheckoutRequest) (schedule : list nat) (w : World G) :
  key <> "" ->
  (forall req, In req reqs -> req_idempotencyKey req = Some key) ->
  (count_orders key (db w) <= 1)%nat ->
  let r := run_schedule schedule (map createCheckoutSession reqs) w in
  (count_orders key (db (snd r)) <= 1)%nat
  /\ (forall p reply oid,
         In p (fst r) ->
         outcome p = Some (Return reply) ->
         res_orderId (reply_json reply) = Some oid ->
         count_orders key (db (snd r)) = 1%nat
         /\ exists o,
              Table.order_findUnique (ByIdempotencyKey key) (db (snd r)) = Some o
              /\ order_id o = oid)
  /\ (forall p1 p2 reply1 reply2 oid1 oid2,
         In p1 (fst r) -> In p2 (fst r) ->
         outcome p1 = Some (Return reply1) ->
         outcome p2 = Some (Return reply2) ->
         res_orderId (reply_json reply1) = Some oid1 ->
         res_orderId (reply_json reply2) = Some oid2 ->
         oid1 = oid2).
Proof.
  intros Hne Hkeys Hcount. cbv zeta.
  assert (Hpool : Forall (fun p => ok (one_row key) (rows_stay key) (answers_row key) p w)
                    (map createCheckoutSession reqs)).
  { apply Forall_forall. intros p Hin. apply in_map_iff in Hin.
    destruct Hin as [req [<- Hreq]].
    apply createCheckoutSession_ok; [exact Hne | apply Hkeys; exact Hreq]. }
  destruct (run_schedule_ok (one_row key) (rows_stay key)
              (rows_stay_refl key) (rows_stay_trans key)
              (answers_row key) schedule (answers_row_stable key)
              (map createCheckoutSession reqs) w Hcount Hpool) as [Hone [_ Hfinal]].
  set (r := run_schedule schedule (map createCheckoutSession reqs) w) in *.
  assert (Hfound : forall p reply oid,
             In p (fst r) ->
             outcome p = Some (Return reply) ->
             res_orderId (reply_json reply) = Some oid ->
             count_orders key (db (snd r)) = 1%nat
             /\ exists o,
                  Table.order_findUnique (ByIdempotencyKey key) (db (snd r)) = Some o
                  /\ order_id o = oid).
  { intros p reply oid Hin Hout Hoid.
    rewrite Forall_forall in Hfinal. specialize (Hfinal p Hin).
    destruct p as [a | e | X act k]; simpl in Hout; try discriminate.
    injection Hout as ->. simpl in Hfinal. specialize (Hfinal oid Hoid).
    split.
    - pose proof (has_order_counted key oid _ Hfinal). unfold one_row in Hone. lia.
    - apply has_order_found; [exact Hone | exact Hfinal]. }
  split; [exact Hone |]. split; [exact Hfound |].
  intros p1 p2 reply1 reply2 oid1 oid2 Hin1 Hin2 Hout1 Hout2 Hoid1 Hoid2.
  destruct (Hfound p1 reply1 oid1 Hin1 Hout1 Hoid1) as [_ [o1 [Hf1 <-]]].
  destruct (Hfound p2 reply2 oid2 Hin2 Hout2 Hoid2) as [_ [o2 [Hf2 <-]]].
  congruence.
Qed.

End ConcurrentCheckout.

(** An interleaving in which both callers get the order: the second
    caller's [createOrder] reads after the first one's insert. *)
Example interleaved_checkouts_both_answered :
  let req := mkCheckoutRequest (Some [Demo.item "p1" 500 2]) (Some "key-1") in
  let r := run_schedule [0; 1; 0; 0; 1; 0; 0; 1; 1]%nat
             [createCheckoutSession req; createCheckoutSession req]
             (Demo.world Demo.empty_db []) in
  map outcome (fst r)
  = [Some (Return (reply_session (Some "https://checkout.example/key-1") "uuid-0"));
     Some (Return (reply_session (Some "https://checkout.example/key-1") "uuid-0"))]
  /\ List.length (orders (db (snd r))) = 1%nat.
Proof. vm_compute. split; reflexivity. Qed.

(** C4, as stated, fails.  Two requests with one key; both read before
    either inserts.  The second insert meets the unique index, the
    exception is not caught by [createOrder], and the controller answers
    500: that caller observes no order id and no session URL. *)
Lemma racing_checkouts_conflict_counterexample :
  let req := mkCheckoutRequest (Some [Demo.item "p1" 500 2]) (Some "key-1") in
  let r := run_schedule [0; 1; 0; 1; 0; 1; 0; 0]%nat
             [createCheckoutSession req; createCheckoutSession req]
             (Demo.world Demo.empty_db []) in
  map outcome (fst r)
  = [Some (Return (reply_session (Some "https://checkout.example/key-1") "uuid-0"));
     Some (Return (reply_error 500 "An unexpected error occurred. Please try again."))]
  /\ List.length (orders (db (snd r))) = 1%nat.
Proof. vm_compute. split; reflexivity. Qed.

(* ===================================================================== *)
(** ** End to end *)

(** A checkout, then the provider's signed completed event for its
    session: the order goes [PENDING], [PROCESSING], [PAID], and the event
    is on record. *)
Example checkout_then_webhook_pays_the_order :
  let w1 := snd (checkout_on_empty [Demo.item "p1" 500 2]) in
  let r := run (handleStripeWebhook (mkWebhookRequest (Some "whsec_ok") (Some "cs_key-1"))) w1 in
  map status (orders (db w1)) = [PROCESSING]
  /\ fst r = Return (mkWebhookReply 200 "{received:true}")
  /\ map (fun o => (status o, amount o, stripePaymentId o, customerEmail o, paidAt o))
       (orders (db (snd r)))
     = [(PAID, Fin 1000, Some "pi_1", Some "a@b.c", Some 1700000000)]
  /\ map event_id (webhookEvents (db (snd r))) = ["evt_cs_key-1"].
Proof. vm_compute. repeat split; reflexivity. Qed.

(* ===================================================================== *)
(** * Further properties of the server *)

(** ** What a handler can answer *)

Section Leaves.

Context {G : Type}.

(** [P] holds of every value the program can finish with, whatever its
    actions return. *)
Fixpoint leaves {A : Type} (P : A -> Prop) (p : Async G A) : Prop :=
  match p with
  | Done a => P a
  | Raise _ => True
  | Step act k => forall x, leaves P (k x)
  end.



Lemma leaves_await {A : Type} (P : A -> Prop) (act : World G -> Completion A * World G) :
  (forall a, P a) -> leaves P (await act).
Proof. intros H. unfold await. simpl. intros [a | e]; simpl; [apply H | exact I]. Qed.



End Leaves.





Section CheckoutReplies.

Context {G : Type} {PG : PaymentGateway G} {SC : OrderSchema}.







End CheckoutReplies.

(* ===================================================================== *)
(** ** What the webhook endpoint answers *)

Section WebhookReplies.

Context {G : Type} {PG : PaymentGateway G}.

(** The event a request stands for, when its header is there, its body is
    there and the signature verifies. *)
Definition verified_event (req : WebhookRequest) : option StripeEvent :=
  match nonempty (stripe_signature req), rawBody req with
  | Some signature, Some body => verifyWebhookSignature body signature
  | _, _ => None
  end.

Lemma nonempty_inv (x : option string) (s : string) :
  nonempty x = Some s -> x = Some s /\ s <> "".
Proof.
  unfold nonempty. destruct x as [y |]; simpl; [| discriminate].
  destruct (String.eqb_spec y ""); simpl; [discriminate |].
  intros H. injection H as <-. split; [reflexivity | assumption].
Qed.

(** Routing an event either returns, or throws with the tables as they
    were; with the store up it returns. *)
Lemma route_event_outcome (event : StripeEvent) (w : World G) :
  (forall e, fst (run (route_event event) w) = Throw e ->
             db (snd (run (route_event event) w)) = db w)
  /\ (faults w = [] -> fst (run (route_event event) w) = Return tt).
Proof.
  assert (Hd : forall d : Delivery,
             (forall e, fst (run (deliver d ;; Done tt) w) = Throw e ->
                        db (snd (run (deliver d ;; Done tt) w)) = db w)
             /\ (faults w = [] -> fst (run (deliver d ;; Done tt) w) = Return tt)).
  { intros d. rewrite run_bind. split.
    - intros e. pose proof (deliver_rollback d w) as Hrb.
      destruct (run (deliver d) w) as [[r | e'] w']; simpl in *; [discriminate |].
      intros _. apply (Hrb e'). reflexivity.
    - intros Hf. rewrite deliver_healthy by exact Hf. reflexivity. }
  unfold route_event.
  destruct (String.eqb (ev_type event) "checkout.session.completed").
  - rewrite handleCheckoutCompleted_delivers. apply Hd.
  - destruct (String.eqb (ev_type event) "checkout.session.expired").
    + rewrite handleCheckoutExpired_delivers. apply Hd.
    + destruct (String.eqb (ev_type event) "payment_intent.payment_failed");
        simpl; split; intros; try discriminate; reflexivity.
Qed.

(** X2.  [handleStripeWebhook] always answers and never throws.  A request
    without a header, without a body or with a signature that does not
    verify is answered 400 and leaves the world as it was.  A verified
    event, of whatever type, is answered 200, or 500 with both tables as
    they were before the request; with the store up it is always 200. *)
Theorem handleStripeWebhook_reply_discipline (req : WebhookRequest) (w : World G) :
  exists reply,
    fst (run (handleStripeWebhook req) w) = Return reply
    /\ match verified_event req with
       | None => wh_status reply = 400 /\ snd (run (handleStripeWebhook req) w) = w
       | Some event =>
           (wh_status reply = 200
            \/ (wh_status reply = 500
                /\ db (snd (run (handleStripeWebhook req) w)) = db w))
           /\ (faults w = [] -> wh_status reply = 200)
       end.
Proof.
  unfold verified_event.
  destruct (nonempty (stripe_signature req)) as [signature |] eqn:Esig.
  - destruct (rawBody req) as [body |] eqn:Ebody.
    + destruct (verifyWebhookSignature body signature) as [event |] eqn:Ever.
      * apply nonempty_inv in Esig. destruct Esig as [Es Hne].
        rewrite (handleStripeWebhook_verified req signature body event w Es Hne Ebody Ever).
        destruct (route_event_outcome event w) as [Hthrow Hup].
        destruct (run (route_event event) w) as [[[] | e] w'] eqn:Erun; simpl in *.
        -- eexists. split; [reflexivity |]. split; [left; reflexivity | reflexivity].
        -- eexists. split; [reflexivity |]. split.
           ++ right. split; [reflexivity | apply (Hthrow e); reflexivity].
           ++ intros Hf. specialize (Hup Hf). discriminate.
      * unfold handleStripeWebhook. rewrite Esig, Ebody, Ever.
        eexists. split; [reflexivity |]. split; reflexivity.
    + unfold handleStripeWebhook. rewrite Esig, Ebody.
      eexists. split; [reflexivity |]. split; reflexivity.
  - unfold handleStripeWebhook. rewrite Esig.
    eexists. split; [reflexivity |]. split; reflexivity.
Qed.

End WebhookReplies.

(* ===================================================================== *)
(** ** The total of a list with a hole *)

Lemma add_nan_r (x : number) : add x NaN = NaN.
Proof. destruct x; reflexivity. Qed.

Lemma mul_nan_r (x : number) : mul x NaN = NaN.
Proof. destruct x; reflexivity. Qed.

Lemma reduce_from_nan (items : list CartItem) :
  fold_left
    (fun t item =>
       add t (mul (to_number (item_price item)) (to_number (item_quantity item))))
    items NaN
  = NaN.
Proof. induction items as [| i rest IH]; simpl; [reflexivity | exact IH]. Qed.

(** X3.  One item whose price (or quantity) is missing or NaN makes the
    whole total NaN, wherever it stands in the list and whatever the other
    items are. *)
Theorem calculateOrderTotal_nan_absorbs (items : list CartItem) (item : CartItem) :
  In item items ->
  to_number (item_price item) = NaN \/ to_number (item_quantity item) = NaN ->
  calculateOrderTotal items = NaN.
Proof.
  intros Hin Hnan. unfold calculateOrderTotal. generalize (Fin 0) as acc.
  induction items as [| i rest IH]; intros acc; [destruct Hin |].
  simpl. destruct Hin as [-> | Hin].
  - assert (Hline : mul (to_number (item_price item)) (to_number (item_quantity item)) = NaN).
    { destruct Hnan as [H | H]; rewrite H; [reflexivity | apply mul_nan_r]. }
    rewrite Hline, add_nan_r. apply reduce_from_nan.
  - apply IH. exact Hin.
Qed.

Lemma calculateOrderTotal_nan_absorbs_witness :
  calculateOrderTotal
    [Demo.item "p1" 500 2;
     mkCartItem (Some "p2") (Some "Gadget") None (Some (Fin 1));
     Demo.item "p3" 250 4]
  = NaN.
Proof.
  apply (calculateOrderTotal_nan_absorbs
           [Demo.item "p1" 500 2;
            mkCartItem (Some "p2") (Some "Gadget") None (Some (Fin 1));
            Demo.item "p3" 250 4]
           (mkCartItem (Some "p2") (Some "Gadget") None (Some (Fin 1)))).
  - right. left. reflexivity.
  - left. reflexivity.
Defined.

(* ===================================================================== *)
(** ** Insert and look up *)

Section RoundTrips.

Context {G : Type} {PG : PaymentGateway G} {SC : OrderSchema}.

(** [getOrderById] *)
Definition getOrderById (orderId : string) : Async G (option Order) :=
  await (query (Table.order_findUnique (ById orderId))).

Lemma find_app_fresh {A : Type} (f : A -> bool) (l : list A) (a : A) :
  find f l = None -> f a = true -> find f (l ++ [a]) = Some a.
Proof.
  intros Hl Ha. induction l as [| b l IH]; simpl in *.
  - rewrite Ha. reflexivity.
  - destruct (f b); [discriminate | apply IH; exact Hl].
Qed.

Lemma existsb_false_find {A : Type} (f : A -> bool) (l : list A) :
  existsb f l = false -> find f l = None.
Proof.
  induction l as [| a l IH]; simpl; [reflexivity |].
  destruct (f a); simpl; [discriminate | exact IH].
Qed.

Lemma existsb_orb {A : Type} (f g : A -> bool) (l : list A) :
  existsb (fun a => f a || g a) l = existsb f l || existsb g l.
Proof.
  induction l as [| a l IH]; simpl; [reflexivity |].
  rewrite IH. destruct (f a), (g a), (existsb f l), (existsb g l); reflexivity.
Qed.

Lemma uuidv4_keeps (w : World G) :
  db (snd (uuidv4 w)) = db w /\ faults (snd (uuidv4 w)) = faults w.
Proof. split; reflexivity. Qed.

(** What [createOrder] does on a healthy store. *)
Lemma createOrder_healthy (input : CreateOrderInput) (w : World G) (o : Order) :
  faults w = [] ->
  fst (run (createOrder input) w) = Return o ->
  faults (snd (run (createOrder input) w)) = []
  /\ Table.order_findUnique (ByIdempotencyKey (in_idempotencyKey input))
       (db (snd (run (createOrder input) w))) = Some o
  /\ Table.order_findUnique (ById (order_id o)) (db (snd (run (createOrder input) w)))
     <> None
  /\ (db (snd (run (createOrder input) w)) = db w
      \/ (Table.order_findUnique (ByIdempotencyKey (in_idempotencyKey input)) (db w) = None
          /\ status o = PENDING /\ amount_column (in_amount input) = Some (amount o)
          /\ items o = in_items input /\ stripeCheckoutId o = None
          /\ db (snd (run (createOrder input) w))
             = mkDatabase (orders (db w) ++ [o]) (webhookEvents (db w)))).
Proof.
  intros Hf. unfold createOrder.
  rewrite run_bind, run_await, query_healthy by exact Hf. world_simpl.
  destruct (Table.order_findUnique (ByIdempotencyKey (in_idempotencyKey input)) (db w))
    as [o0 |] eqn:Efind.
  - simpl. intros H. injection H as <-. world_simpl.
    repeat split; try assumption.
    + destruct (find_by_own_id _ _ _ Efind) as [o' Ho'].
      unfold Table.order_findUnique. rewrite Ho'. discriminate.
    + left. reflexivity.
  - rewrite run_await. unfold prisma_order_create_pending.
    destruct (uuidv4 (with_db (db w) w)) as [id w1] eqn:Eu.
    assert (Hw1 : db w1 = db w /\ faults w1 = [])
      by (unfold uuidv4 in Eu; injection Eu as <- <-; split; [reflexivity | exact Hf]).
    destruct Hw1 as [Hdb1 Hf1].
    rewrite storage_healthy by exact Hf1. world_simpl. rewrite Hdb1.
    unfold Table.order_create. cbn [amount idempotencyKey order_id].
    destruct (amount_column (in_amount input)) as [x |] eqn:Ecol; [| discriminate].
    rewrite existsb_orb.
    destruct (existsb (fun o' => String.eqb (order_id o') id) (orders (db w))) eqn:Eid;
      [discriminate |].
    apply find_none_existsb in Efind as Ekey. unfold order_matches in Ekey.
    rewrite Ekey. cbn [orb fst snd]. intros H. injection H as <-. world_simpl.
    repeat split; try assumption.
    + unfold Table.order_findUnique. simpl. apply find_app_fresh.
      * exact Efind.
      * simpl. apply String.eqb_refl.
    + unfold Table.order_findUnique. simpl. apply find_app_last.
      simpl. apply String.eqb_refl.
    + right. repeat split; reflexivity.
Qed.

(** X4.  [createOrder] is idempotent on a healthy store: once it has
    returned an order, asking again with the same input returns that very
    order and leaves the tables as they are, and both
    [findOrderByIdempotencyKey] on the key and [getOrderById] on the id
    find a row. *)
Theorem createOrder_idempotent (input : CreateOrderInput) (w : World G) (o : Order) :
  faults w = [] ->
  fst (run (createOrder input) w) = Return o ->
  let w1 := snd (run (createOrder input) w) in
  fst (run (createOrder input) w1) = Return o
  /\ db (snd (run (createOrder input) w1)) = db w1
  /\ fst (run (findOrderByIdempotencyKey (in_idempotencyKey input)) w1) = Return (Some o)
  /\ exists o', fst (run (getOrderById (order_id o)) w1) = Return (Some o')
                /\ order_id o' = order_id o.
Proof.
  intros Hf Hret. cbv zeta.
  destruct (createOrder_healthy input w o Hf Hret) as [Hf1 [Hfind [Hid _]]].
  set (w1 := snd (run (createOrder input) w)) in *.
  assert (Hagain : run (createOrder input) w1 = (Return o, with_db (db w1) w1)).
  { unfold createOrder. rewrite run_bind, run_await, query_healthy by exact Hf1.
    rewrite Hfind. reflexivity. }
  rewrite Hagain. world_simpl. repeat split.
  - unfold findOrderByIdempotencyKey. rewrite run_await, query_healthy by exact Hf1.
    simpl. rewrite Hfind. reflexivity.
  - unfold getOrderById. rewrite run_await, query_healthy by exact Hf1. simpl.
    destruct (Table.order_findUnique (ById (order_id o)) (db w1)) as [o' |] eqn:E;
      [| contradiction].
    exists o'. split; [reflexivity |].
    unfold Table.order_findUnique in E. apply find_some in E.
    destruct E as [_ E]. simpl in E. apply String.eqb_eq. exact E.
Qed.

End RoundTrips.

Lemma createOrder_idempotent_witness :
  let input := mkCreateOrderInput [Demo.item "p1" 500 2] "key-1" (Fin 1000) (Some "usd") in
  let o := mkOrder "uuid-0" PENDING (Fin 1000) "usd" [Demo.item "p1" 500 2] "key-1"
             None None None None in
  let w1 := snd (run (createOrder input) (Demo.world Demo.empty_db [])) in
  fst (run (createOrder input) w1) = Return o
  /\ db (snd (run (createOrder input) w1)) = db w1
  /\ fst (run (findOrderByIdempotencyKey (in_idempotencyKey input)) w1) = Return (Some o)
  /\ exists o', fst (run (getOrderById (order_id o)) w1) = Return (Some o')
                /\ order_id o' = order_id o.
Proof.
  apply (createOrder_idempotent
           (mkCreateOrderInput [Demo.item "p1" 500 2] "key-1" (Fin 1000) (Some "usd"))
           (Demo.world Demo.empty_db [])
           (mkOrder "uuid-0" PENDING (Fin 1000) "usd" [Demo.item "p1" 500 2] "key-1"
              None None None None)).
  - reflexivity.
  - reflexivity.
Defined.

Section Reconciliation.

Context {G : Type} {PG : PaymentGateway G}.

(** After an update that sets [stripeCheckoutId] to [sid] on the rows of
    id [id], the first row found under [sid] is one of them. *)
Lemma find_session_after_update (id sid : string) (u : OrderUpdate) (l : list Order) :
  set_stripeCheckoutId u = Some sid ->
  find (order_matches (ById id)) l <> None ->
  existsb (fun o' => negb (String.eqb (order_id o') id)
                     && opt_str_is (stripeCheckoutId o') sid) l = false ->
  exists o,
    In o l /\ order_id o = id
    /\ find (order_matches (ByStripeCheckoutId sid))
         (map (fun o' => if String.eqb (order_id o') id then apply_update u o' else o') l)
       = Some (apply_update u o).
Proof.
  intros Hu. induction l as [| a l IH]; simpl; intros Hfound Hclash;
    [contradiction |].
  apply orb_false_iff in Hclash. destruct Hclash as [Ha Hclash].
  destruct (String.eqb (order_id a) id) eqn:Eid.
  - exists a. split; [left; reflexivity |].
    split; [apply String.eqb_eq; exact Eid |].
    simpl. rewrite Hu. simpl. rewrite String.eqb_refl. reflexivity.
  - simpl in Ha. rewrite Ha.
    destruct (IH Hfound Hclash) as [o [Hin [Hid Hfind]]].
    exists o. split; [right; exact Hin |]. split; assumption.
Qed.

(** X5.  The session id stored at checkout is the one the webhook looks
    up: once [updateOrderWithStripeSession] has returned, on a healthy
    store, [findOrderByStripeCheckoutId] on that session id finds an order
    with the id that was updated, in status [PROCESSING]. *)
Theorem stored_session_id_finds_the_order (orderId sid : string) (w : World G) (o : Order) :
  faults w = [] ->
  fst (run (updateOrderWithStripeSession orderId (Some sid)) w) = Return o ->
  let w1 := snd (run (updateOrderWithStripeSession orderId (Some sid)) w) in
  exists o',
    fst (run (findOrderByStripeCheckoutId sid) w1) = Return (Some o')
    /\ order_id o' = orderId
    /\ status o' = PROCESSING
    /\ stripeCheckoutId o' = Some sid.
Proof.
  intros Hf. cbv zeta. unfold updateOrderWithStripeSession, findOrderByStripeCheckoutId.
  rewrite !run_await. rewrite storage_healthy by exact Hf.
  unfold Table.order_update.
  destruct (find (order_matches (ById orderId)) (orders (db w))) as [o0 |] eqn:Efind;
    [| discriminate].
  cbn [set_stripeCheckoutId].
  destruct (existsb _ (orders (db w))) eqn:Eclash; [discriminate |].
  intros _. world_simpl. rewrite query_healthy by exact Hf. world_simpl.
  destruct (find_session_after_update orderId sid
              (mkOrderUpdate (Some PROCESSING) (Some sid) None None None)
              (orders (db w)) eq_refl) as [o1 [_ [Hid Hfound]]].
  - rewrite Efind. discriminate.
  - exact Eclash.
  - unfold Table.order_findUnique. cbn [orders]. rewrite Hfound.
    eexists. split; [reflexivity |]. repeat split. exact Hid.
Qed.

End Reconciliation.

Lemma stored_session_id_finds_the_order_witness :
  let w := Demo.world (mkDatabase [Demo.order "ord_1" PENDING "key-1" None;
                                   Demo.order "ord_2" PENDING "key-2" None] []) [] in
  let w1 := snd (run (updateOrderWithStripeSession "ord_2" (Some "cs_9")) w) in
  exists o',
    fst (run (findOrderByStripeCheckoutId "cs_9") w1) = Return (Some o')
    /\ order_id o' = "ord_2"
    /\ status o' = PROCESSING
    /\ stripeCheckoutId o' = Some "cs_9".
Proof.
  apply (stored_session_id_finds_the_order "ord_2" "cs_9"
           (Demo.world (mkDatabase [Demo.order "ord_1" PENDING "key-1" None;
                                    Demo.order "ord_2" PENDING "key-2" None] []) [])
           (mkOrder "ord_2" PROCESSING (Fin 1000) "usd" [Demo.item "p1" 500 2] "key-2"
              (Some "cs_9") None None None)).
  - reflexivity.
  - reflexivity.
Defined.

(* ===================================================================== *)
(** ** A first checkout under a key *)

Section FirstCheckout.

Context {G : Type} {PG : PaymentGateway G} {SC : OrderSchema}.

(** Step 2 of the controller, [clientKey || uuidv4()], on its own: the
    key and the world after drawing it. *)
Definition resolve_key (req : CreateCheckoutRequest) (w : World G) : string * World G :=
  match nonempty (req_idempotencyKey req) with
  | Some clientKey => (clientKey, w)
  | None => uuidv4 w
  end.

(** The row [createOrder] inserts, with the amount [a] the column kept of
    the total. *)
Definition pending_row (id key : string) (items : list CartItem) (a : number) : Order :=
  mkOrder id PENDING a "usd" items key None None None None.

Definition processing_row (id key sid : string) (items : list CartItem) (a : number)
  : Order :=
  mkOrder id PROCESSING a "usd" items key (Some sid) None None None.

Lemma map_update_no_id (id : string) (u : OrderUpdate) (l : list Order) :
  find (order_matches (ById id)) l = None ->
  map (fun o' => if String.eqb (order_id o') id then apply_update u o' else o') l = l.
Proof.
  induction l as [| a l IH]; simpl; [reflexivity |].
  destruct (String.eqb (order_id a) id); [discriminate |].
  intros H. rewrite (IH H). reflexivity.
Qed.

(** Updating the row that was just appended. *)
Lemma order_update_appended (row : Order) (u : OrderUpdate) (d : Database) :
  Table.order_findUnique (ById (order_id row)) d = None ->
  match set_stripeCheckoutId u with
  | Some sid => Table.order_findUnique (ByStripeCheckoutId sid) d = None
  | None => True
  end ->
  Table.order_update (order_id row) u (mkDatabase (orders d ++ [row]) (webhookEvents d))
  = (Return (apply_update u row),
     mkDatabase (orders d ++ [apply_update u row]) (webhookEvents d)).
Proof.
  unfold Table.order_findUnique, Table.order_update. intros Hid Hsid. cbn [orders webhookEvents].
  rewrite (find_app_fresh _ _ row Hid) by (simpl; apply String.eqb_refl).
  assert (Hclash :
            match set_stripeCheckoutId u with
            | Some s =>
                existsb (fun o' => negb (String.eqb (order_id o') (order_id row))
                                   && opt_str_is (stripeCheckoutId o') s)
                  (orders d ++ [row])
            | None => false
            end = false).
  { destruct (set_stripeCheckoutId u) as [s |]; [| reflexivity].
    rewrite existsb_app. simpl. rewrite String.eqb_refl. simpl.
    rewrite orb_false_r. apply find_none_existsb in Hsid.
    induction (orders d) as [| a l IH]; simpl in *; [reflexivity |].
    apply orb_false_iff in Hsid. destruct Hsid as [Ha Hl].
    rewrite Ha, andb_false_r. simpl. apply IH.
    - simpl in Hid. destruct (String.eqb (order_id a) (order_id row)); [discriminate | exact Hid].
    - exact Hl. }
  rewrite Hclash. rewrite map_app. simpl. rewrite String.eqb_refl.
  rewrite (map_update_no_id _ _ _ Hid). reflexivity.
Qed.

Lemma order_update_appended_at (id : string) (row : Order) (u : OrderUpdate) (d : Database) :
  order_id row = id ->
  Table.order_findUnique (ById id) d = None ->
  match set_stripeCheckoutId u with
  | Some sid => Table.order_findUnique (ByStripeCheckoutId sid) d = None
  | None => True
  end ->
  Table.order_update id u (mkDatabase (orders d ++ [row]) (webhookEvents d))
  = (Return (apply_update u row),
     mkDatabase (orders d ++ [apply_update u row]) (webhookEvents d)).
Proof. intros <-. apply order_update_appended. Qed.

(** [createOrder] when neither the key nor the id to be drawn is in the
    table and the column takes the amount. *)
Lemma createOrder_fresh (items : list CartItem) (key : string) (a : number) (w : World G) :
  faults w = [] ->
  Table.order_findUnique (ByIdempotencyKey key) (db w) = None ->
  Table.order_findUnique (ById (uuid_pool w (uuid_next w))) (db w) = None ->
  amount_column (calculateOrderTotal items) = Some a ->
  run (createOrder (mkCreateOrderInput items key (calculateOrderTotal items) (Some "usd"))) w
  = (Return (pending_row (uuid_pool w (uuid_next w)) key items a),
     mkWorld
       (mkDatabase (orders (db w) ++ [pending_row (uuid_pool w (uuid_next w)) key items a])
          (webhookEvents (db w)))
       (faults w) (gateway w) (calls w) (uuid_pool w) (S (uuid_next w)) (clock w)).
Proof.
  intros Hf Hkey Hid Hst. unfold createOrder.
  rewrite run_bind, run_await, query_healthy by exact Hf. world_simpl.
  cbn [in_idempotencyKey]. rewrite Hkey. rewrite run_await.
  unfold prisma_order_create_pending, uuidv4. world_simpl.
  rewrite storage_healthy by exact Hf. world_simpl.
  unfold Table.order_create.
  cbn [amount in_amount idempotencyKey in_idempotencyKey order_id in_items in_currency or_else].
  rewrite Hst. rewrite existsb_orb.
  apply find_none_existsb in Hkey. apply find_none_existsb in Hid.
  unfold order_matches in Hkey, Hid. rewrite Hkey, Hid. reflexivity.
Qed.

End FirstCheckout.

Section FirstCheckoutOutcome.

Context {G : Type} {PG : PaymentGateway G} {SC : OrderSchema}.

(** A validated request whose key is new comes down to steps 4 to 8. *)
Lemma createCheckoutSession_new_key
  (req : CreateCheckoutRequest) (items : list CartItem) (w : World G) :
  req_items req = Some (objects items) ->
  items <> [] ->
  existsb item_rejected items = false ->
  faults w = [] ->
  Table.order_findUnique (ByIdempotencyKey (fst (resolve_key req w))) (db w) = None ->
  run (createCheckoutSession req) w
  = match run (checkout_steps_4_to_8 items (fst (resolve_key req w)))
            (with_db (db w) (snd (resolve_key req w))) with
    | (Return a, w2) => (Return a, w2)
    | (Throw _, w2) =>
        (Return (reply_error 500 "An unexpected error occurred. Please try again."), w2)
    end.
Proof.
  intros Hitems Hne Hvalid Hf Hfind. unfold createCheckoutSession.
  rewrite Hitems. destruct items as [| i0 rest]; [contradiction |]. cbn [objects map].
  rewrite (validate_cons_objects i0 rest Hvalid), run_try_catch. unfold resolve_key in *.
  destruct (nonempty (req_idempotencyKey req)) as [k |]; cbn [bind fst snd] in *.
  - unfold findOrderByIdempotencyKey.
    rewrite run_bind, run_await, query_healthy by exact Hf. rewrite Hfind. reflexivity.
  - rewrite run_bind, run_perform. cbn [fst snd].
    unfold findOrderByIdempotencyKey.
    rewrite run_bind, run_await, query_healthy by exact Hf.
    cbn [uuidv4 fst snd db] in *. rewrite Hfind. reflexivity.
Qed.

(** X6.  The main path.  A validated request, a healthy store, a key and a
    drawn order id that are both new, a total of which the column keeps
    [a] (the total itself when it is an integer, the integer part of a
    fractional total for an integer column), and a gateway that returns a
    session whose id no order carries: the reply is 200 with the session's
    URL and the new order's id; exactly one row is appended, in status
    [PROCESSING], with amount [a], the items as sent, the key and the
    session id; the events table is untouched and the gateway was called
    once, with the order's id and the same key. *)
Theorem checkout_creates_processing_order
  (req : CreateCheckoutRequest) (items : list CartItem) (a : number) (w : World G)
  (session : CheckoutSession) (g' : G) :
  req_items req = Some (objects items) ->
  items <> [] ->
  existsb item_rejected items = false ->
  faults w = [] ->
  let key := fst (resolve_key req w) in
  let w0 := snd (resolve_key req w) in
  let id := uuid_pool w0 (uuid_next w0) in
  Table.order_findUnique (ByIdempotencyKey key) (db w) = None ->
  Table.order_findUnique (ById id) (db w) = None ->
  amount_column (calculateOrderTotal items) = Some a ->
  sessions_create (gateway w) id (map to_line_item items) key = (inr session, g') ->
  Table.order_findUnique (ByStripeCheckoutId (session_id session)) (db w) = None ->
  let r := run (createCheckoutSession req) w in
  fst r = Return (reply_session (nonempty (session_url session)) id)
  /\ orders (db (snd r))
     = (orders (db w) ++ [processing_row id key (session_id session) items a])%list
  /\ webhookEvents (db (snd r)) = webhookEvents (db w)
  /\ gateway (snd r) = g'
  /\ calls (snd r) = (calls w ++ [CreateSession id (map to_line_item items) key])%list.
Proof.
  intros Hitems Hne Hvalid Hf key w0 id Hkey Hid Hst Hgw Hsid. cbv zeta.
  rewrite (createCheckoutSession_new_key req items w Hitems Hne Hvalid Hf Hkey).
  fold key w0.
  assert (Hw0 : db w0 = db w /\ faults w0 = [] /\ gateway w0 = gateway w
                /\ calls w0 = calls w /\ uuid_pool w0 = uuid_pool w).
  { unfold w0, resolve_key. destruct (nonempty (req_idempotencyKey req));
      cbn; repeat split; exact Hf. }
  destruct Hw0 as [Hdb0 [Hf0 [Hg0 [Hc0 Hp0]]]].
  unfold checkout_steps_4_to_8.
  rewrite run_bind.
  rewrite (createOrder_fresh items key a (with_db (db w) w0))
    by (world_simpl; assumption).
  world_simpl. fold id.
  unfold stripe_createCheckoutSession.
  rewrite !run_bind, run_perform. unfold stripe_sessions_create. world_simpl.
  cbn [order_id pending_row].
  rewrite Hg0, Hgw. cbn [fst snd run negb sr_success sr_sessionId].
  rewrite run_bind. unfold updateOrderWithStripeSession.
  rewrite run_await, storage_healthy by (world_simpl; exact Hf0). world_simpl.
  rewrite (order_update_appended_at id (pending_row id key items a)
             (mkOrderUpdate (Some PROCESSING) (Some (session_id session)) None None None)
             (db w)) by (cbn; first [reflexivity | assumption]).
  cbn. rewrite Hc0. repeat split; reflexivity.
Qed.

(** X7.  The gateway fails on a first checkout (declined card, rate limit,
    lost connection, anything thrown): the reply is 500, whatever the
    class of the failure, with the text the service chose for it; the order
    row stays, in status [PENDING] and without a session id, and no update
    is attempted.  ([a] is what the column keeps of the total.) *)
Theorem checkout_gateway_failure_leaves_pending_order
  (req : CreateCheckoutRequest) (items : list CartItem) (a : number) (w : World G)
  (thrown : StripeThrown) (g' : G) :
  req_items req = Some (objects items) ->
  items <> [] ->
  existsb item_rejected items = false ->
  faults w = [] ->
  let key := fst (resolve_key req w) in
  let w0 := snd (resolve_key req w) in
  let id := uuid_pool w0 (uuid_next w0) in
  Table.order_findUnique (ByIdempotencyKey key) (db w) = None ->
  Table.order_findUnique (ById id) (db w) = None ->
  amount_column (calculateOrderTotal items) = Some a ->
  sessions_create (gateway w) id (map to_line_item items) key = (inl thrown, g') ->
  let r := run (createCheckoutSession req) w in
  (exists msg,
      sr_error (handleStripeError thrown) = Some msg
      /\ fst r = Return (reply_error 500 msg))
  /\ orders (db (snd r)) = (orders (db w) ++ [pending_row id key items a])%list
  /\ webhookEvents (db (snd r)) = webhookEvents (db w)
  /\ gateway (snd r) = g'
  /\ calls (snd r) = (calls w ++ [CreateSession id (map to_line_item items) key])%list.
Proof.
  intros Hitems Hne Hvalid Hf key w0 id Hkey Hid Hst Hgw. cbv zeta.
  rewrite (createCheckoutSession_new_key req items w Hitems Hne Hvalid Hf Hkey).
  fold key w0.
  assert (Hw0 : db w0 = db w /\ faults w0 = [] /\ gateway w0 = gateway w
                /\ calls w0 = calls w /\ uuid_pool w0 = uuid_pool w).
  { unfold w0, resolve_key. destruct (nonempty (req_idempotencyKey req));
      cbn; repeat split; exact Hf. }
  destruct Hw0 as [Hdb0 [Hf0 [Hg0 [Hc0 Hp0]]]].
  unfold checkout_steps_4_to_8.
  rewrite run_bind.
  rewrite (createOrder_fresh items key a (with_db (db w) w0))
    by (world_simpl; assumption).
  world_simpl. fold id.
  unfold stripe_createCheckoutSession.
  rewrite !run_bind, run_perform. unfold stripe_sessions_create. world_simpl.
  cbn [order_id pending_row].
  rewrite Hg0, Hgw. cbn [fst snd run].
  assert (Hmsg : exists msg, sr_error (handleStripeError thrown) = Some msg
                             /\ nonempty (Some msg) = Some msg
                             /\ sr_success (handleStripeError thrown) = false).
  { destruct thrown as [cls code |]; [| eexists; repeat split].
    unfold handleStripeError.
    destruct (getStripeErrorType cls code); eexists; repeat split. }
  destruct Hmsg as [msg [Hm [Hn Hs]]]. rewrite Hs, Hm, Hn. cbn.
  rewrite Hc0. repeat split. exists msg. split; reflexivity.
Qed.

End FirstCheckoutOutcome.

(** A provider that declines every card. *)
Definition declining_gateway : PaymentGateway Demo.Provider :=
  {| sessions_create :=
       fun g _ _ _ => (inl (StripeErr CardErr (Some "card_declined")), g);
     sessions_retrieve := Demo.retrieve;
     constructEvent := Demo.construct |}.

(** Three items at 19.99: the total is the double nearest to 59.97, and
    the integer column keeps 59. *)
Definition three_at_19_99 : list CartItem :=
  [mkCartItem (Some "p1") (Some "Widget") (Some (Frac 5626684784446013 48)) (Some (Fin 3))].

Lemma checkout_creates_processing_order_witness :
  let req := mkCheckoutRequest (Some three_at_19_99) None in
  let w := Demo.world Demo.empty_db [] in
  let session := mkSession "cs_uuid-0" (Some "https://checkout.example/uuid-0") PI_null None in
  let r := run (createCheckoutSession req) w in
  fst r = Return (reply_session (nonempty (session_url session)) "uuid-1")
  /\ orders (db (snd r))
     = (orders (db w)
        ++ [processing_row "uuid-1" "uuid-0" (session_id session) three_at_19_99
              (Fin 59)])%list
  /\ webhookEvents (db (snd r)) = webhookEvents (db w)
  /\ gateway (snd r) = [("uuid-0", session)]
  /\ calls (snd r)
     = (calls w
        ++ [CreateSession "uuid-1" (map to_line_item three_at_19_99) "uuid-0"])%list.
Proof.
  apply (checkout_creates_processing_order
           (mkCheckoutRequest (Some three_at_19_99) None)
           three_at_19_99 (Fin 59) (Demo.world Demo.empty_db [])
           (mkSession "cs_uuid-0" (Some "https://checkout.example/uuid-0") PI_null None)
           [("uuid-0",
             mkSession "cs_uuid-0" (Some "https://checkout.example/uuid-0") PI_null None)]);
    try reflexivity.
  discriminate.
Defined.

Lemma checkout_gateway_failure_leaves_pending_order_witness :
  let req := mkCheckoutRequest (Some [Demo.item "p1" 500 2]) (Some "key-1") in
  let w := Demo.world Demo.empty_db [] in
  let r := run (createCheckoutSession (PG := declining_gateway) req) w in
  (exists msg,
      sr_error (handleStripeError (StripeErr CardErr (Some "card_declined"))) = Some msg
      /\ fst r = Return (reply_error 500 msg))
  /\ orders (db (snd r))
     = (orders (db w)
        ++ [pending_row "uuid-0" "key-1" [Demo.item "p1" 500 2] (Fin 1000)])%list
  /\ webhookEvents (db (snd r)) = webhookEvents (db w)
  /\ gateway (snd r) = []
  /\ calls (snd r)
     = (calls w
        ++ [CreateSession "uuid-0" (map to_line_item [Demo.item "p1" 500 2]) "key-1"])%list.
Proof.
  apply (checkout_gateway_failure_leaves_pending_order (PG := declining_gateway)
           (mkCheckoutRequest (Some [Demo.item "p1" 500 2]) (Some "key-1"))
           [Demo.item "p1" 500 2] (Fin 1000) (Demo.world Demo.empty_db [])
           (StripeErr CardErr (Some "card_declined")) []);
    try reflexivity.
  discriminate.
Defined.

Example declined_card_is_answered_500 :
  fst (run (createCheckoutSession (PG := declining_gateway)
              (mkCheckoutRequest (Some [Demo.item "p1" 500 2]) (Some "key-1")))
         (Demo.world Demo.empty_db []))
  = Return (reply_error 500
              "Your card was declined. Please try a different payment method.").
Proof. vm_compute. reflexivity. Qed.

(* ===================================================================== *)
(** ** A checkout under a key whose session is gone *)

Section ReusedOrder.

Context {G : Type} {PG : PaymentGateway G} {SC : OrderSchema}.

(** The URL step 3 of the controller would replay for an order: that of
    its stored session, if the order has one, the gateway still returns it
    and it has a URL. *)
Definition replay_url (existing : Order) (g : G) : option string :=
  match nonempty (stripeCheckoutId existing) with
  | Some sid =>
      match sessions_retrieve g sid with
      | Some s => nonempty (session_url s)
      | None => None
      end
  | None => None
  end.

Definition retrieval_calls (existing : Order) : list GatewayCall :=
  match nonempty (stripeCheckoutId existing) with
  | Some sid => [RetrieveSession sid]
  | None => []
  end.

Lemma find_map_preserving {A : Type} (f : A -> bool) (g : A -> A) (l : list A) :
  (forall a, f (g a) = f a) -> find f (map g l) = option_map g (find f l).
Proof.
  intros Hfg. induction l as [| a l IH]; simpl; [reflexivity |].
  rewrite Hfg. destruct (f a); [reflexivity | exact IH].
Qed.

Lemma order_update_existing (existing : Order) (u : OrderUpdate) (d : Database) :
  In existing (orders d) ->
  match set_stripeCheckoutId u with
  | Some sid =>
      forall o', In o' (orders d) -> stripeCheckoutId o' = Some sid ->
                 order_id o' = order_id existing
  | None => True
  end ->
  exists o',
    Table.order_update (order_id existing) u d
    = (Return o', update_rows (order_id existing) u d).
Proof.
  intros Hin Hclash. unfold Table.order_update.
  destruct (find (order_matches (ById (order_id existing))) (orders d)) as [o0 |] eqn:Efind.
  - assert (Hno :
              match set_stripeCheckoutId u with
              | Some s =>
                  existsb (fun o' => negb (String.eqb (order_id o') (order_id existing))
                                     && opt_str_is (stripeCheckoutId o') s)
                    (orders d)
              | None => false
              end = false).
    { destruct (set_stripeCheckoutId u) as [s |]; [| reflexivity].
      destruct (existsb _ (orders d)) eqn:E; [| reflexivity].
      apply existsb_exists in E. destruct E as [o' [Hin' H]].
      apply andb_true_iff in H. destruct H as [Hid Hs].
      unfold opt_str_is in Hs. destruct (stripeCheckoutId o') as [s' |] eqn:Es'; [| discriminate].
      apply String.eqb_eq in Hs. subst s'.
      rewrite (Hclash o' Hin' Es'), String.eqb_refl in Hid. discriminate. }
    rewrite Hno. eexists. reflexivity.
  - exfalso. apply (find_none _ _ Efind) in Hin. simpl in Hin.
    rewrite String.eqb_refl in Hin. discriminate.
Qed.

Lemma checkout_steps_reuse
  (items : list CartItem) (key : string) (w : World G) (existing : Order)
  (session : CheckoutSession) (g' : G) :
  faults w = [] ->
  Table.order_findUnique (ByIdempotencyKey key) (db w) = Some existing ->
  sessions_create (gateway w) (order_id existing) (map to_line_item items) key
  = (inr session, g') ->
  (forall o', In o' (orders (db w)) ->
              stripeCheckoutId o' = Some (session_id session) ->
              order_id o' = order_id existing) ->
  let u := mkOrderUpdate (Some PROCESSING) (Some (session_id session)) None None None in
  let r := run (checkout_steps_4_to_8 items key) w in
  fst r = Return (reply_session (nonempty (session_url session)) (order_id existing))
  /\ db (snd r) = update_rows (order_id existing) u (db w)
  /\ gateway (snd r) = g'
  /\ calls (snd r)
     = (calls w ++ [CreateSession (order_id existing) (map to_line_item items) key])%list
  /\ uuid_next (snd r) = uuid_next w.
Proof.
  intros Hf Hfind Hgw Hclash. cbv zeta. unfold checkout_steps_4_to_8, createOrder.
  rewrite !run_bind, run_await, query_healthy by exact Hf.
  cbn [in_idempotencyKey]. rewrite Hfind. cbn [run].
  unfold stripe_createCheckoutSession.
  rewrite !run_bind, run_perform. unfold stripe_sessions_create. world_simpl.
  rewrite Hgw. cbn [fst snd run negb sr_success sr_sessionId].
  rewrite run_bind. unfold updateOrderWithStripeSession.
  rewrite run_await, storage_healthy by (world_simpl; exact Hf). world_simpl.
  assert (Hin : In existing (orders (db w)))
    by (unfold Table.order_findUnique in Hfind; apply find_some in Hfind; tauto).
  destruct (order_update_existing existing
              (mkOrderUpdate (Some PROCESSING) (Some (session_id session)) None None None)
              (db w) Hin Hclash) as [o' Hupd].
  rewrite Hupd. cbn. repeat split; reflexivity.
Qed.

(** X8.  A validated request under the key of an order whose stored
    session can no longer be replayed (the order has none, the gateway no
    longer returns it, or it has no URL), with the store up and a gateway
    that creates a session: no row is added; the order of the key is
    reused, the gateway is called with its id and the key, and the row
    leaves with status [PROCESSING], whatever its status was, and the new
    session id, its amount and items being those of the first request. *)
Theorem checkout_reuses_order_when_session_is_gone
  (req : CreateCheckoutRequest) (cart : list CartItem) (w : World G)
  (existing : Order) (session : CheckoutSession) (g' : G) :
  req_items req = Some (objects cart) ->
  cart <> [] ->
  existsb item_rejected cart = false ->
  faults w = [] ->
  let key := fst (resolve_key req w) in
  Table.order_findUnique (ByIdempotencyKey key) (db w) = Some existing ->
  replay_url existing (gateway w) = None ->
  sessions_create (gateway w) (order_id existing) (map to_line_item cart) key
  = (inr session, g') ->
  (forall o', In o' (orders (db w)) ->
              stripeCheckoutId o' = Some (session_id session) ->
              order_id o' = order_id existing) ->
  let r := run (createCheckoutSession req) w in
  fst r = Return (reply_session (nonempty (session_url session)) (order_id existing))
  /\ List.length (orders (db (snd r))) = List.length (orders (db w))
  /\ Table.order_findUnique (ByIdempotencyKey key) (db (snd r))
     = Some (mkOrder (order_id existing) PROCESSING (amount existing) (currency existing)
               (items existing) key (Some (session_id session))
               (stripePaymentId existing) (customerEmail existing) (paidAt existing))
  /\ calls (snd r)
     = (calls w ++ retrieval_calls existing
        ++ [CreateSession (order_id existing) (map to_line_item cart) key])%list.
Proof.
  intros Hitems Hne Hvalid Hf key Hfind Hurl Hgw Hclash. cbv zeta.
  assert (Hkey : idempotencyKey existing = key).
  { unfold Table.order_findUnique in Hfind. apply find_some in Hfind.
    destruct Hfind as [_ H]. simpl in H. apply String.eqb_eq. exact H. }
  assert (Hsteps : forall w', faults w' = [] -> db w' = db w -> gateway w' = gateway w ->
             let r := run (checkout_steps_4_to_8 cart key) w' in
             fst r = Return (reply_session (nonempty (session_url session)) (order_id existing))
             /\ List.length (orders (db (snd r))) = List.length (orders (db w))
             /\ Table.order_findUnique (ByIdempotencyKey key) (db (snd r))
                = Some (mkOrder (order_id existing) PROCESSING (amount existing)
                          (currency existing) (items existing) key
                          (Some (session_id session)) (stripePaymentId existing)
                          (customerEmail existing) (paidAt existing))
             /\ calls (snd r)
                = (calls w'
                   ++ [CreateSession (order_id existing) (map to_line_item cart) key])%list).
  { intros w' Hf' Hdb' Hg'. cbv zeta.
    destruct (checkout_steps_reuse cart key w' existing session g')
      as [H1 [H2 [_ [H4 _]]]]; try rewrite Hdb'; try rewrite Hg'; try assumption.
    rewrite H1, H2, H4, Hdb'. repeat split.
    - unfold update_rows. cbn [orders]. apply length_map.
    - unfold Table.order_findUnique, update_rows. cbn [orders].
      rewrite find_map_preserving.
      + unfold Table.order_findUnique in Hfind. rewrite Hfind. cbn [option_map].
        rewrite String.eqb_refl. unfold apply_update. cbn. rewrite Hkey. reflexivity.
      + intros a. destruct (String.eqb (order_id a) (order_id existing)); reflexivity. }
  assert (Hkw : run (createCheckoutSession req) w
                = match run (existingOrder <- findOrderByIdempotencyKey key ;;
                             match existingOrder with
                             | Some existing =>
                                 match nonempty (stripeCheckoutId existing) with
                                 | Some sid =>
                                     session <- getCheckoutSession sid ;;
                                     match session with
                                     | Some s =>
                                         match nonempty (session_url s) with
                                         | Some url =>
                                             Done (reply_session (Some url) (order_id existing))
                                         | None => checkout_steps_4_to_8 cart key
                                         end
                                     | None => checkout_steps_4_to_8 cart key
                                     end
                                 | None => checkout_steps_4_to_8 cart key
                                 end
                             | None => checkout_steps_4_to_8 cart key
                             end)
                        (snd (resolve_key req w)) with
                  | (Return a, w2) => (Return a, w2)
                  | (Throw _, w2) =>
                      (Return (reply_error 500
                                 "An unexpected error occurred. Please try again."), w2)
                  end).
  { unfold createCheckoutSession. rewrite Hitems.
    destruct cart as [| i0 rest]; [contradiction |]. cbn [objects map].
    rewrite (validate_cons_objects i0 rest Hvalid), run_try_catch. unfold key, resolve_key.
    destruct (nonempty (req_idempotencyKey req)) as [k |]; cbn [bind fst snd].
    - reflexivity.
    - rewrite run_bind, run_perform. reflexivity. }
  rewrite Hkw. clear Hkw.
  assert (Hw0 : db (snd (resolve_key req w)) = db w
                /\ faults (snd (resolve_key req w)) = []
                /\ gateway (snd (resolve_key req w)) = gateway w
                /\ calls (snd (resolve_key req w)) = calls w).
  { unfold resolve_key. destruct (nonempty (req_idempotencyKey req));
      cbn; repeat split; exact Hf. }
  destruct Hw0 as [Hdb0 [Hf0 [Hg0 Hc0]]].
  set (w0 := snd (resolve_key req w)) in *.
  unfold findOrderByIdempotencyKey.
  rewrite run_bind, run_await, query_healthy by exact Hf0. rewrite Hdb0, Hfind.
  unfold replay_url, retrieval_calls in *.
  destruct (nonempty (stripeCheckoutId existing)) as [sid |].
  - unfold getCheckoutSession. rewrite run_bind, run_perform.
    unfold stripe_sessions_retrieve. world_simpl. rewrite Hg0.
    assert (Hgo : forall w',
               faults w' = [] -> db w' = db w -> gateway w' = gateway w ->
               calls w' = (calls w ++ [RetrieveSession sid])%list ->
               let r := match run (checkout_steps_4_to_8 cart key) w' with
                        | (Return a, w2) => (Return a, w2)
                        | (Throw _, w2) =>
                            (Return (reply_error 500
                                       "An unexpected error occurred. Please try again."),
                             w2)
                        end in
               fst r = Return (reply_session (nonempty (session_url session))
                                 (order_id existing))
               /\ List.length (orders (db (snd r))) = List.length (orders (db w))
               /\ Table.order_findUnique (ByIdempotencyKey key) (db (snd r))
                  = Some (mkOrder (order_id existing) PROCESSING (amount existing)
                            (currency existing) (items existing) key
                            (Some (session_id session)) (stripePaymentId existing)
                            (customerEmail existing) (paidAt existing))
               /\ calls (snd r)
                  = (calls w ++ [RetrieveSession sid]
                     ++ [CreateSession (order_id existing) (map to_line_item cart) key])%list).
    { intros w' Hf' Hdb' Hg' Hc'. cbv zeta.
      destruct (Hsteps w' Hf' Hdb' Hg') as [H1 [H2 [H3 H4]]].
      destruct (run (checkout_steps_4_to_8 cart key) w') as [[a | e] w2];
        simpl in *; [| discriminate].
      repeat split; try assumption.
      rewrite H4, Hc', <- app_assoc. reflexivity. }
    destruct (sessions_retrieve (gateway w) sid) as [s |].
    + rewrite Hurl. apply Hgo; world_simpl; try assumption; try reflexivity.
      rewrite Hc0. reflexivity.
    + apply Hgo; world_simpl; try assumption; try reflexivity.
      rewrite Hc0. reflexivity.
  - destruct (Hsteps (with_db (db w) w0)) as [H1 [H2 [H3 H4]]];
      try (world_simpl; first [assumption | reflexivity]).
    destruct (run (checkout_steps_4_to_8 cart key) (with_db (db w) w0)) as [[a | e] w2];
      simpl in *; [| discriminate].
    repeat split; try assumption.
    rewrite H4, Hc0. reflexivity.
Qed.

End ReusedOrder.

(** A paid order whose session the provider no longer returns, and a new
    request under its key: the row comes out [PROCESSING]. *)
Lemma checkout_reuses_order_when_session_is_gone_witness :
  let req := mkCheckoutRequest (Some [Demo.item "p2" 999 7]) (Some "key-1") in
  let existing := Demo.order "ord_1" PAID "key-1" (Some "cs_old") in
  let w := Demo.world (mkDatabase [existing] []) [] in
  let session := mkSession "cs_key-1" (Some "https://checkout.example/key-1") PI_null None in
  let r := run (createCheckoutSession req) w in
  fst r = Return (reply_session (nonempty (session_url session)) (order_id existing))
  /\ List.length (orders (db (snd r))) = List.length (orders (db w))
  /\ Table.order_findUnique (ByIdempotencyKey "key-1") (db (snd r))
     = Some (mkOrder (order_id existing) PROCESSING (amount existing) (currency existing)
               (items existing) "key-1" (Some (session_id session))
               (stripePaymentId existing) (customerEmail existing) (paidAt existing))
  /\ calls (snd r)
     = (calls w ++ retrieval_calls existing
        ++ [CreateSession (order_id existing) (map to_line_item [Demo.item "p2" 999 7])
              "key-1"])%list.
Proof.
  apply (checkout_reuses_order_when_session_is_gone
           (mkCheckoutRequest (Some [Demo.item "p2" 999 7]) (Some "key-1"))
           [Demo.item "p2" 999 7]
           (Demo.world (mkDatabase [Demo.order "ord_1" PAID "key-1" (Some "cs_old")] []) [])
           (Demo.order "ord_1" PAID "key-1" (Some "cs_old"))
           (mkSession "cs_key-1" (Some "https://checkout.example/key-1") PI_null None)
           [("key-1",
             mkSession "cs_key-1" (Some "https://checkout.example/key-1") PI_null None)]);
    try reflexivity.
  - discriminate.
  - intros o' [<- | []] H. discriminate H.
Defined.

(* ===================================================================== *)
(** ** The two endpoints together *)

Section Router.

Context {G : Type} {PG : PaymentGateway G} {SC : OrderSchema}.

(** The two [POST] routes of [routes/index.ts]. *)
Inductive Request : Type :=
| PostCheckout (req : CreateCheckoutRequest)    (* /api/create-checkout-session *)
| PostWebhook (req : WebhookRequest).           (* /api/webhooks/stripe *)

Definition serve (r : Request) : Async G (CheckoutReply + WebhookReply) :=
  match r with
  | PostCheckout req => reply <- createCheckoutSession req ;; Done (inl reply)
  | PostWebhook req => reply <- handleStripeWebhook req ;; Done (inr reply)
  end.

Variable J : Database -> Prop.

Hypothesis create_keeps :
  forall o d, status o = PENDING -> stripeCheckoutId o = None ->
              stripePaymentId o = None -> customerEmail o = None -> paidAt o = None ->
              J d -> J (snd (Table.order_create o d)).
Hypothesis session_update_keeps :
  forall id sid d,
    J d ->
    J (snd (Table.order_update id (mkOrderUpdate (Some PROCESSING) sid None None None) d)).
Hypothesis paid_update_keeps :
  forall id pay email t d,
    J d ->
    J (snd (Table.order_update id
              (mkOrderUpdate (Some PAID) None (Some pay) (Some email) (Some t)) d)).
Hypothesis failed_update_keeps :
  forall id d,
    J d ->
    J (snd (Table.order_update id (mkOrderUpdate (Some FAILED) None None None None) d)).
Hypothesis event_keeps :
  forall e d, J d -> J (snd (Table.webhookEvent_create e d)).

Lemma deliver_preserves (d : Delivery) : steps_preserve (G := G) J (deliver d).
Proof.
  rewrite deliver_is_one_transaction.
  apply (transaction_steps_preserve (fun d1 d2 => J d1 -> J d2)).
  - intros d0 H. exact H.
  - intros d1 d2 d3 H12 H23 H. apply H23, H12, H.
  - intros d1 d2 H. exact H.
  - apply delivery_body_writes.
    + intros id pay email t d0. apply paid_update_keeps.
    + intros id d0. apply failed_update_keeps.
    + intros e d0. apply event_keeps.
Qed.

Lemma handleStripeWebhook_preserves (req : WebhookRequest) :
  steps_preserve (G := G) J (handleStripeWebhook req).
Proof.
  unfold handleStripeWebhook.
  destruct (nonempty (stripe_signature req)); [| exact I].
  destruct (rawBody req); [| exact I].
  destruct (verifyWebhookSignature _ _) as [event |]; [| exact I].
  apply steps_preserve_try_catch; [| intros; exact I].
  apply steps_preserve_bind; [| intros; exact I].
  unfold route_event.
  destruct (String.eqb (ev_type event) "checkout.session.completed").
  - rewrite handleCheckoutCompleted_delivers.
    apply steps_preserve_bind; [apply deliver_preserves | intros; exact I].
  - destruct (String.eqb (ev_type event) "checkout.session.expired").
    + rewrite handleCheckoutExpired_delivers.
      apply steps_preserve_bind; [apply deliver_preserves | intros; exact I].
    + destruct (String.eqb (ev_type event) "payment_intent.payment_failed"); exact I.
Qed.

Lemma checkout_preserves (req : CreateCheckoutRequest) :
  steps_preserve J (createCheckoutSession req).
Proof.
  assert (Hsteps : forall items key, steps_preserve J (checkout_steps_4_to_8 items key)).
  { intros items key. unfold checkout_steps_4_to_8.
    apply steps_preserve_bind.
    - unfold createOrder. apply steps_preserve_bind.
      + apply steps_preserve_await. apply query_preserves.
      + intros [o |]; [exact I |].
        apply steps_preserve_await. intros w Hw.
        unfold prisma_order_create_pending.
        destruct (uuidv4 w) as [id w1] eqn:Eu.
        assert (Hw1 : db w1 = db w)
          by (unfold uuidv4 in Eu; injection Eu as <- <-; reflexivity).
        apply storage_preserves; [| rewrite Hw1; exact Hw].
        intros d Hd. apply create_keeps; try reflexivity. exact Hd.
    - intros order. apply steps_preserve_bind.
      + unfold stripe_createCheckoutSession. apply steps_preserve_bind.
        * apply steps_preserve_perform. intros w Hw. unfold stripe_sessions_create.
          destruct (sessions_create _ _ _ _); simpl. exact Hw.
        * intros [err | s]; exact I.
      + intros r. destruct (negb (sr_success r)); [exact I |].
        apply steps_preserve_bind; [| intros; exact I].
        unfold updateOrderWithStripeSession. apply steps_preserve_await.
        apply storage_preserves. intros d Hd. apply session_update_keeps; exact Hd. }
  unfold createCheckoutSession.
  apply steps_preserve_try_catch; [| intros; exact I].
  destruct (req_items req) as [[| e0 rest] |]; try exact I.
  destruct (validate (e0 :: rest)) as [items | |]; try exact I.
  apply steps_preserve_bind.
  - destruct (nonempty (req_idempotencyKey req)); [exact I |].
    apply steps_preserve_perform. intros w Hw. exact Hw.
  - intros key. apply steps_preserve_bind.
    + unfold findOrderByIdempotencyKey. apply steps_preserve_await. apply query_preserves.
    + intros [existing |]; [| apply Hsteps].
      destruct (nonempty (stripeCheckoutId existing)); [| apply Hsteps].
      apply steps_preserve_bind.
      * unfold getCheckoutSession. apply steps_preserve_perform. intros w Hw. exact Hw.
      * intros [sess |]; [| apply Hsteps].
        destruct (nonempty (session_url sess)); [exact I | apply Hsteps].
Qed.

Lemma serve_preserves (r : Request) : steps_preserve J (serve r).
Proof.
  destruct r as [req | req]; cbn [serve].
  - apply steps_preserve_bind; [apply checkout_preserves | intros; exact I].
  - apply steps_preserve_bind; [apply handleStripeWebhook_preserves | intros; exact I].
Qed.

(** Whatever the requests and however they interleave, a property of the
    tables kept by the five writes is kept by the server. *)
Lemma server_preserves (schedule : list nat) (reqs : list Request) (w : World G) :
  J (db w) -> J (db (snd (run_schedule schedule (map serve reqs) w))).
Proof.
  intros Hw. apply run_schedule_preserves; [| exact Hw].
  apply Forall_forall. intros p Hin. apply in_map_iff in Hin.
  destruct Hin as [r [<- _]]. apply serve_preserves.
Qed.

End Router.

(* ===================================================================== *)
(** ** What the server never undoes *)

(** How a stored order may differ from an earlier version of itself. *)
Definition evolves (o0 o : Order) : Prop :=
  order_id o = order_id o0
  /\ amount o = amount o0
  /\ currency o = currency o0
  /\ items o = items o0
  /\ idempotencyKey o = idempotencyKey o0
  /\ (status o0 <> PENDING -> status o <> PENDING)
  /\ (stripeCheckoutId o0 <> None -> stripeCheckoutId o <> None)
  /\ (paidAt o0 <> None -> paidAt o <> None).

(** The tables [d] continue the tables [d0]: the orders of [d0] are still
    there, in place, each evolved; the event rows of [d0] are there as they
    were; rows may have been added behind them. *)
Definition continues (d0 d : Database) : Prop :=
  (exists old more,
      orders d = (old ++ more)%list /\ Forall2 evolves (orders d0) old)
  /\ (exists more, webhookEvents d = (webhookEvents d0 ++ more)%list).

Lemma evolves_refl (o : Order) : evolves o o.
Proof. unfold evolves. repeat split; intros H; exact H. Qed.

Lemma evolves_trans (o1 o2 o3 : Order) :
  evolves o1 o2 -> evolves o2 o3 -> evolves o1 o3.
Proof.
  unfold evolves. intros [A1 [A2 [A3 [A4 [A5 [A6 [A7 A8]]]]]]]
                         [B1 [B2 [B3 [B4 [B5 [B6 [B7 B8]]]]]]].
  repeat split; try congruence; auto.
Qed.

Lemma apply_update_evolves (u : OrderUpdate) (o : Order) :
  set_status u <> Some PENDING -> evolves o (apply_update u o).
Proof.
  intros Hu. unfold evolves, apply_update. cbn. repeat split.
  - intros Hs. destruct (set_status u) as [s |]; cbn; [| exact Hs].
    intros ->. apply Hu. reflexivity.
  - intros Hs. destruct (set_stripeCheckoutId u); [discriminate | exact Hs].
  - intros Hp. destruct (set_paidAt u); [discriminate | exact Hp].
Qed.

Lemma continues_refl (d : Database) : continues d d.
Proof.
  split.
  - exists (orders d), []. split; [symmetry; apply app_nil_r |].
    induction (orders d); constructor; [apply evolves_refl | assumption].
  - exists []. symmetry. apply app_nil_r.
Qed.

Lemma Forall2_evolves_map (g : Order -> Order) (l0 l : list Order) :
  (forall o, evolves o (g o)) ->
  Forall2 evolves l0 l -> Forall2 evolves l0 (map g l).
Proof.
  intros Hg H. induction H as [| a b l0 l Hab H IH]; simpl; constructor.
  - eapply evolves_trans; [exact Hab | apply Hg].
  - exact IH.
Qed.

Lemma order_create_continues {SC : OrderSchema} (d0 : Database) (o : Order) (d : Database) :
  continues d0 d -> continues d0 (snd (Table.order_create o d)).
Proof.
  intros [[old [more [E H]]] Hev].
  destruct (order_create_rows o d) as [-> | [a [_ ->]]];
    [split; [exists old, more; split |]; assumption |].
  split; [| exact Hev]. cbn.
  exists old, (more ++ [with_amount a o])%list. split; [| exact H].
  rewrite E. symmetry. apply app_assoc.
Qed.

Lemma order_update_continues (d0 : Database) (id : string) (u : OrderUpdate) (d : Database) :
  set_status u <> Some PENDING ->
  continues d0 d -> continues d0 (snd (Table.order_update id u d)).
Proof.
  intros Hu [[old [more [E H]]] Hev].
  destruct (order_update_rows id u d) as [-> | ->]; [split; [exists old, more; split |]; assumption |].
  split; [| exact Hev]. cbn. rewrite E, map_app.
  eexists _, _. split; [reflexivity |].
  apply Forall2_evolves_map; [| exact H].
  intros o. destruct (String.eqb (order_id o) id);
    [apply apply_update_evolves; exact Hu | apply evolves_refl].
Qed.

Lemma webhookEvent_create_continues (d0 : Database) (e : WebhookEvent) (d : Database) :
  continues d0 d -> continues d0 (snd (Table.webhookEvent_create e d)).
Proof.
  intros [Ho [more E]]. unfold Table.webhookEvent_create.
  destruct (existsb _ _); cbn; [split; [exact Ho | exists more; exact E] |].
  split; [exact Ho |]. exists (more ++ [e])%list.
  rewrite E. symmetry. apply app_assoc.
Qed.

(** X10.  The server only adds to its history.  After any requests in any
    interleaving, with any gateway and any storage failures, every order
    that was stored is still stored, at its place, with the id, amount,
    currency, items and idempotency key it had; an order that had left
    [PENDING] has not returned to it; a session id and a payment time, once
    set, are still set; every webhook event row is there unchanged.  New
    rows only come behind the old ones. *)
Theorem server_continues_its_tables
  {G : Type} {PG : PaymentGateway G} {SC : OrderSchema}
  (schedule : list nat) (reqs : list Request) (w : World G) :
  continues (db w) (db (snd (run_schedule schedule (map serve reqs) w))).
Proof.
  apply (server_preserves (continues (db w))).
  - intros o d _ _ _ _ _. apply order_create_continues.
  - intros id sid d. apply order_update_continues. discriminate.
  - intros id pay email t d. apply order_update_continues. discriminate.
  - intros id d. apply order_update_continues. discriminate.
  - intros e d. apply webhookEvent_create_continues.
  - apply continues_refl.
Qed.

(* ===================================================================== *)
(** ** Status and payment fields *)

(** What the status of a row says about its other columns. *)
Definition coherent (o : Order) : Prop :=
  (status o = PENDING ->
   stripeCheckoutId o = None /\ stripePaymentId o = None
   /\ customerEmail o = None /\ paidAt o = None)
  /\ (status o = PAID -> paidAt o <> None)
  /\ (paidAt o = None -> stripePaymentId o = None /\ customerEmail o = None).

Definition all_coherent (d : Database) : Prop := Forall coherent (orders d).

Lemma order_create_coherent {SC : OrderSchema} (o : Order) (d : Database) :
  coherent o -> all_coherent d -> all_coherent (snd (Table.order_create o d)).
Proof.
  intros Ho Hd. unfold all_coherent.
  destruct (order_create_rows o d) as [-> | [a [_ ->]]]; [exact Hd |].
  cbn. apply Forall_app. split; [exact Hd | constructor; [exact Ho | constructor]].
Qed.

Lemma order_update_coherent (id : string) (u : OrderUpdate) (d : Database) :
  (forall o, coherent o -> coherent (apply_update u o)) ->
  all_coherent d -> all_coherent (snd (Table.order_update id u d)).
Proof.
  intros Hu Hd. unfold all_coherent.
  destruct (order_update_rows id u d) as [-> | ->]; [exact Hd |].
  cbn. apply Forall_forall. intros o Hin. apply in_map_iff in Hin.
  destruct Hin as [o0 [<- Hin0]].
  assert (H0 : coherent o0) by (revert Hin0; apply Forall_forall; exact Hd).
  destruct (String.eqb (order_id o0) id); [apply Hu |]; exact H0.
Qed.

(** X11.  Status and payment columns stay in step.  If in every stored
    order [PENDING] means no session id, payment id, e-mail or payment
    time, [PAID] means a payment time, and no payment time means no payment
    id and no e-mail, then the same holds after any requests in any
    interleaving, with any gateway and any storage failures. *)
Theorem server_keeps_orders_coherent
  {G : Type} {PG : PaymentGateway G} {SC : OrderSchema}
  (schedule : list nat) (reqs : list Request) (w : World G) :
  all_coherent (db w) ->
  all_coherent (db (snd (run_schedule schedule (map serve reqs) w))).
Proof.
  apply (server_preserves all_coherent).
  - intros o d Hst Hsid Hpay Hmail Hpaid. apply order_create_coherent.
    unfold coherent. rewrite Hst, Hsid, Hpay, Hmail, Hpaid.
    repeat split; discriminate.
  - intros id sid d. apply order_update_coherent.
    intros o [_ [_ H]]. unfold coherent. cbn.
    split; [discriminate | split; [discriminate | exact H]].
  - intros id pay email t d. apply order_update_coherent.
    intros o _. unfold coherent. cbn. repeat split; discriminate.
  - intros id d. apply order_update_coherent.
    intros o [_ [_ H]]. unfold coherent. cbn.
    split; [discriminate | split; [discriminate | exact H]].
  - intros e d Hd. unfold all_coherent, Table.webhookEvent_create.
    destruct (existsb _ _); exact Hd.
Qed.

Lemma server_keeps_orders_coherent_witness :
  let d := mkDatabase [Demo.order "ord_1" PROCESSING "key-1" (Some "cs_1");
                       Demo.order "ord_2" PENDING "key-2" None]
                      [] in
  let reqs := [PostWebhook (mkWebhookRequest (Some "whsec_ok") (Some "cs_1"));
               PostCheckout (mkCheckoutRequest (Some [Demo.item "p1" 500 2]) (Some "key-2"))] in
  let w := Demo.world d [] in
  all_coherent (db w)
  /\ all_coherent (db (snd (run_schedule [0; 1; 0; 1; 0; 1; 0; 1; 0; 1]%nat
                              (map serve reqs) w))).
Proof.
  cbv zeta.
  assert (H : all_coherent
                (mkDatabase [Demo.order "ord_1" PROCESSING "key-1" (Some "cs_1");
                             Demo.order "ord_2" PENDING "key-2" None] [])).
  { unfold all_coherent, coherent. cbn.
    repeat constructor; cbn; intros; try discriminate; repeat split; reflexivity. }
  split; [exact H |].
  apply server_keeps_orders_coherent. exact H.
Defined.

(* ===================================================================== *)
(** ** The payment confirmation *)

Section PaymentConfirmation.

Context {G : Type} {PG : PaymentGateway G}.

Lemma status_eqb_eq (a b : OrderStatus) : status_eqb a b = true <-> a = b.
Proof. destruct a, b; simpl; split; intros H; try reflexivity; discriminate. Qed.

(** The row a confirmation leaves: the payment columns are written, the
    rest is as it was. *)
Definition paid_row (o : Order) (pay email : option string) (t : Z) : Order :=
  mkOrder (order_id o) PAID (amount o) (currency o) (items o) (idempotencyKey o)
    (stripeCheckoutId o) pay email (Some t).

(** X12.  A verified [checkout.session.completed] event, under an event id
    not recorded yet, for a session id that finds an order, with the store
    up: the reply is 200, one event row with that id and type is appended,
    and the gateway is not called.  If the order was [PAID] already no
    order changes.  Otherwise the order's id is the only one written to:
    status [PAID], the payment intent of the session, the customer's e-mail
    and the current time as payment time; its amount, currency, items, key
    and session id stay, and the session id finds the paid row. *)
Theorem completed_event_marks_order_paid
  (req : WebhookRequest) (event : StripeEvent) (o : Order) (w : World G) :
  verified_event req = Some event ->
  ev_type event = "checkout.session.completed" ->
  faults w = [] ->
  Table.webhookEvent_findUnique (ev_id event) (db w) = None ->
  Table.order_findUnique (ByStripeCheckoutId (session_id (ev_object event))) (db w)
  = Some o ->
  let r := run (handleStripeWebhook req) w in
  let pay := payment_intent_id (session_payment_intent (ev_object event)) in
  let email := nonempty (session_customer_email (ev_object event)) in
  fst r = Return (mkWebhookReply 200 "{received:true}")
  /\ webhookEvents (db (snd r))
     = (webhookEvents (db w)
        ++ [mkWebhookEvent (ev_id event) "checkout.session.completed"])%list
  /\ calls (snd r) = calls w
  /\ gateway (snd r) = gateway w
  /\ (status o = PAID -> orders (db (snd r)) = orders (db w))
  /\ (status o <> PAID ->
      orders (db (snd r))
      = map (fun o' => if String.eqb (order_id o') (order_id o)
                       then paid_row o' pay email (clock w) else o')
          (orders (db w))
      /\ Table.order_findUnique (ByStripeCheckoutId (session_id (ev_object event)))
           (db (snd r))
         = Some (paid_row o pay email (clock w))).
Proof.
  intros Hev Htype Hf Hnew Hfind. cbv zeta.
  unfold verified_event in Hev.
  destruct (nonempty (stripe_signature req)) as [signature |] eqn:Esig; [| discriminate].
  destruct (rawBody req) as [body |] eqn:Ebody; [| discriminate].
  apply nonempty_inv in Esig. destruct Esig as [Es Hne].
  rewrite (handleStripeWebhook_verified req signature body event w Es Hne Ebody Hev).
  rewrite (route_event_completed event Htype), handleCheckoutCompleted_delivers.
  rewrite run_bind, deliver_healthy by exact Hf.
  unfold delivery_effect.
  cbn [delivery_id delivery_session delivery_skips delivery_update delivery_type].
  rewrite Hnew, Hfind.
  destruct (status_eqb (status o) PAID) eqn:Est; world_simpl;
    cbn [run fst snd record_event update_rows orders webhookEvents].
  - do 4 (split; [reflexivity |]). split; [reflexivity |].
    intros Hs. exfalso. apply Hs. apply status_eqb_eq. exact Est.
  - do 4 (split; [reflexivity |]). split.
    + intros Hs. rewrite Hs in Est. discriminate.
    + intros _. split; [reflexivity |].
      unfold Table.order_findUnique in *. cbn [orders db with_db record_event update_rows].
      rewrite find_map_preserving
        by (intros a; destruct (String.eqb (order_id a) (order_id o)); reflexivity).
      rewrite Hfind. cbn [option_map]. rewrite String.eqb_refl. reflexivity.
Qed.

End PaymentConfirmation.

Lemma completed_event_marks_order_paid_witness :
  let req := mkWebhookRequest (Some "whsec_ok") (Some "cs_1") in
  let event := mkEvent "evt_cs_1" "checkout.session.completed"
                 (mkSession "cs_1" None (PI_id "pi_1") (Some "a@b.c")) in
  let o := Demo.order "ord_1" PROCESSING "key-1" (Some "cs_1") in
  let w := Demo.world (mkDatabase [Demo.order "ord_0" PENDING "key-0" None; o] []) [] in
  let r := run (handleStripeWebhook req) w in
  fst r = Return (mkWebhookReply 200 "{received:true}")
  /\ webhookEvents (db (snd r))
     = (webhookEvents (db w)
        ++ [mkWebhookEvent (ev_id event) "checkout.session.completed"])%list
  /\ calls (snd r) = calls w
  /\ gateway (snd r) = gateway w
  /\ (status o = PAID -> orders (db (snd r)) = orders (db w))
  /\ (status o <> PAID ->
      orders (db (snd r))
      = map (fun o' => if String.eqb (order_id o') (order_id o)
                       then paid_row o' (Some "pi_1") (Some "a@b.c") (clock w) else o')
          (orders (db w))
      /\ Table.order_findUnique (ByStripeCheckoutId "cs_1") (db (snd r))
         = Some (paid_row o (Some "pi_1") (Some "a@b.c") (clock w))).
Proof.
  cbv zeta.
  apply (completed_event_marks_order_paid
           (mkWebhookRequest (Some "whsec_ok") (Some "cs_1"))
           (mkEvent "evt_cs_1" "checkout.session.completed"
              (mkSession "cs_1" None (PI_id "pi_1") (Some "a@b.c")))
           (Demo.order "ord_1" PROCESSING "key-1" (Some "cs_1"))
           (Demo.world (mkDatabase [Demo.order "ord_0" PENDING "key-0" None;
                                    Demo.order "ord_1" PROCESSING "key-1" (Some "cs_1")] [])
              []));
    reflexivity.
Defined.

(* ===================================================================== *)
(** ** The order is on record before the provider is asked *)

Section SequentialRuns.

Context {G : Type}.

Variable I : World G -> Prop.
Variable R : World G -> World G -> Prop.
Hypothesis R_refl : forall w, R w w.
Hypothesis R_trans : forall w1 w2 w3, R w1 w2 -> R w2 w3 -> R w1 w3.

(** A program that is [ok] keeps its promises when it runs alone. *)
Lemma ok_run {A : Type} (Q : A -> World G -> Prop) (p : Async G A) :
  forall w, I w -> ok I R Q p w ->
            I (snd (run p w)) /\ R w (snd (run p w)).
Proof.
  induction p as [a | e | X act k IH]; simpl; intros w Hi Hok.
  - split; [exact Hi | apply R_refl].
  - split; [exact Hi | apply R_refl].
  - destruct (Hok w (R_refl w) Hi) as [H1 [H2 H3]].
    destruct (act w) as [x w'] eqn:E. simpl in *.
    destruct (IH x w' H1 H3) as [H4 H5].
    split; [exact H4 | eapply R_trans; eassumption].
Qed.

End SequentialRuns.

(* ===================================================================== *)
(** ** What a webhook can write *)

(** The columns of an order no webhook writes. *)
Definition order_core (o : Order)
  : string * number * string * list CartItem * string * option string :=
  (order_id o, amount o, currency o, items o, idempotencyKey o, stripeCheckoutId o).

Definition table_frame (d d' : Database) : Prop :=
  map order_core (orders d') = map order_core (orders d)
  /\ exists more, webhookEvents d' = (webhookEvents d ++ more)%list.

Lemma table_frame_refl (d : Database) : table_frame d d.
Proof. split; [reflexivity | exists []; symmetry; apply app_nil_r]. Qed.

Lemma table_frame_trans (d1 d2 d3 : Database) :
  table_frame d1 d2 -> table_frame d2 d3 -> table_frame d1 d3.
Proof.
  intros [O12 [m12 E12]] [O23 [m23 E23]]. split; [congruence |].
  exists (m12 ++ m23)%list. rewrite E23, E12. symmetry. apply app_assoc.
Qed.

Lemma webhookEvent_create_frame (e : WebhookEvent) (d : Database) :
  table_frame d (snd (Table.webhookEvent_create e d)).
Proof.
  unfold Table.webhookEvent_create. destruct (existsb _ _); cbn.
  - apply table_frame_refl.
  - split; [reflexivity | exists [e]; reflexivity].
Qed.

Lemma order_update_frame (id : string) (u : OrderUpdate) (d : Database) :
  set_stripeCheckoutId u = None ->
  table_frame d (snd (Table.order_update id u d)).
Proof.
  intros Hu. destruct (order_update_rows id u d) as [-> | ->];
    [apply table_frame_refl |].
  split; [| exists []; symmetry; apply app_nil_r]. cbn.
  rewrite map_map. apply map_ext. intros o.
  destruct (String.eqb (order_id o) id); [| reflexivity].
  unfold order_core, apply_update. cbn. rewrite Hu. reflexivity.
Qed.

Section WebhookFrame.

Context {G : Type} {PG : PaymentGateway G}.

Definition anything (w : World G) : Prop := True.

(** From [w] to [w']: the provider was not called, no order was added or
    removed, no order changed its id, amount, currency, items, key or
    session id, and event rows were only appended. *)
Definition webhook_frame (w w' : World G) : Prop :=
  calls w' = calls w
  /\ gateway w' = gateway w
  /\ table_frame (db w) (db w').

Lemma webhook_frame_refl (w : World G) : webhook_frame w w.
Proof. repeat split; try reflexivity. exists []. symmetry. apply app_nil_r. Qed.

Lemma webhook_frame_trans (w1 w2 w3 : World G) :
  webhook_frame w1 w2 -> webhook_frame w2 w3 -> webhook_frame w1 w3.
Proof.
  intros [C12 [G12 T12]] [C23 [G23 T23]]. split; [congruence |].
  split; [congruence |]. eapply table_frame_trans; eassumption.
Qed.

(** The writes of either transaction stay inside the frame. *)
Lemma delivery_body_framed (d : Delivery) : tx_writes table_frame (delivery_body d).
Proof.
  apply delivery_body_writes.
  - intros id pay email t d0. apply order_update_frame. reflexivity.
  - intros id d0. apply order_update_frame. reflexivity.
  - intros e d0. apply webhookEvent_create_frame.
Qed.

(** So does every step of the transaction, the commit included. *)
Lemma deliver_framed (d : Delivery) (w : World G) :
  ok anything webhook_frame (fun _ _ => True) (deliver d) w.
Proof.
  rewrite deliver_is_one_transaction.
  apply (transaction_ok table_frame table_frame_refl table_frame_trans).
  - intros w1 w2 _ [Hc [Hg [Ht _]]].
    split; [exact Logic.I | split; [exact Hc | split; [exact Hg | exact Ht]]].
  - apply delivery_body_framed.
Qed.

Lemma handleStripeWebhook_framed (req : WebhookRequest) (w : World G) :
  ok anything webhook_frame (fun _ _ => True) (handleStripeWebhook req) w.
Proof.
  assert (Hd : forall (d : Delivery) w1,
             ok anything webhook_frame (fun _ _ => True) (deliver d ;; Done tt) w1).
  { intros d w1.
    apply (ok_bind anything webhook_frame (fun _ _ => True)); [intros; exact Logic.I |].
    apply deliver_framed. }
  unfold handleStripeWebhook.
  destruct (nonempty (stripe_signature req)); [| exact Logic.I].
  destruct (rawBody req); [| exact Logic.I].
  destruct (verifyWebhookSignature _ _) as [event |]; [| exact Logic.I].
  apply ok_try_catch; [intros; exact Logic.I |].
  apply (ok_bind anything webhook_frame (fun _ _ => True)); [intros; exact Logic.I |].
  unfold route_event.
  destruct (String.eqb (ev_type event) "checkout.session.completed").
  - rewrite handleCheckoutCompleted_delivers. apply Hd.
  - destruct (String.eqb (ev_type event) "checkout.session.expired").
    + rewrite handleCheckoutExpired_delivers. apply Hd.
    + destruct (String.eqb (ev_type event) "payment_intent.payment_failed");
        exact Logic.I.
Qed.

(** X14.  What no webhook request can do, be it forged, verified, repeated
    or cut short by a storage failure: call the provider; add or remove an
    order; change the id, amount, currency, items, idempotency key or
    session id of an order; change or remove an event row.  Only status and
    payment columns are written, and event rows appended. *)
Theorem webhook_writes_only_status_and_payment (req : WebhookRequest) (w : World G) :
  let w' := snd (run (handleStripeWebhook req) w) in
  calls w' = calls w
  /\ gateway w' = gateway w
  /\ map order_core (orders (db w')) = map order_core (orders (db w))
  /\ exists more, webhookEvents (db w') = (webhookEvents (db w) ++ more)%list.
Proof.
  cbv zeta.
  destruct (ok_run anything webhook_frame webhook_frame_refl webhook_frame_trans
              (fun _ _ => True) (handleStripeWebhook req) w Logic.I
              (handleStripeWebhook_framed req w))
    as [_ [Hc [Hg [Ho He]]]].
  split; [exact Hc | split; [exact Hg | split; [exact Ho | exact He]]].
Qed.

End WebhookFrame.

Section RecordedFirst.

Context {G : Type} {PG : PaymentGateway G} {SC : OrderSchema}.

(** Every session creation the provider was asked for names an order that
    is stored, under the idempotency key the call carried. *)
Definition calls_recorded (w : World G) : Prop :=
  forall oid li key,
    In (CreateSession oid li key) (calls w) -> has_order key oid (db w).

Definition orders_stay (w w' : World G) : Prop :=
  forall key id, has_order key id (db w) -> has_order key id (db w').

(** A step that asks the provider nothing and loses no order. *)
Definition quiet (w w' : World G) : Prop :=
  calls w' = calls w /\ orders_stay w w'.

Lemma orders_stay_refl (w : World G) : orders_stay w w.
Proof. intros key id H. exact H. Qed.

Lemma orders_stay_trans (w1 w2 w3 : World G) :
  orders_stay w1 w2 -> orders_stay w2 w3 -> orders_stay w1 w3.
Proof. intros H12 H23 key id H. apply H23, H12, H. Qed.

Lemma quiet_refl (w : World G) : quiet w w.
Proof. split; [reflexivity | apply orders_stay_refl]. Qed.

Lemma quiet_trans (w1 w2 w3 : World G) : quiet w1 w2 -> quiet w2 w3 -> quiet w1 w3.
Proof.
  intros [C12 S12] [C23 S23]. split; [congruence |].
  eapply orders_stay_trans; eassumption.
Qed.

Lemma quiet_guarantees {X : Type} (act : World G -> X * World G) :
  (forall w, quiet w (snd (act w))) ->
  guarantees calls_recorded orders_stay act.
Proof.
  intros Hq w Hi. destruct (Hq w) as [Hc Hs]. split; [| exact Hs].
  intros oid li key Hin. rewrite Hc in Hin. apply Hs. apply (Hi oid li key). exact Hin.
Qed.

Lemma storage_quiet {X : Type} (f : Database -> Completion X * Database) :
  (forall d key id, has_order key id d -> has_order key id (snd (f d))) ->
  forall w : World G, quiet w (snd (storage f w)).
Proof.
  intros Hf w. unfold quiet, orders_stay, storage.
  destruct (faults w) as [| [|] rest]; simpl.
  - specialize (Hf (db w)). destruct (f (db w)); simpl in *.
    split; [reflexivity | exact Hf].
  - split; [reflexivity | intros key id H; exact H].
  - specialize (Hf (db w)). destruct (f (db w)); simpl in *.
    split; [reflexivity | exact Hf].
Qed.

Lemma query_quiet {X : Type} (f : Database -> X) (w : World G) :
  quiet w (snd (query f w)).
Proof. apply storage_quiet. intros d key id H. exact H. Qed.

Lemma webhook_frame_quiet (w w' : World G) : webhook_frame w w' -> quiet w w'.
Proof.
  intros [Hc [_ [Ho _]]]. split; [exact Hc |].
  intros key id [o [Hin [Hid Hkey]]].
  assert (Hcore : In (order_core o) (map order_core (orders (db w'))))
    by (rewrite Ho; apply in_map; exact Hin).
  apply in_map_iff in Hcore. destruct Hcore as [o' [Heq Hin']].
  exists o'. split; [exact Hin' |].
  unfold order_core in Heq. injection Heq as -> _ _ _ -> _. split; assumption.
Qed.

Lemma deliver_served (d : Delivery) (w : World G) :
  ok calls_recorded orders_stay (fun _ _ => True) (deliver d) w.
Proof.
  rewrite deliver_is_one_transaction.
  apply (transaction_ok table_frame table_frame_refl table_frame_trans).
  - intros w1 w2 Hi [Hc0 [Hg0 [Ht0 _]]].
    destruct (webhook_frame_quiet w1 w2 (conj Hc0 (conj Hg0 Ht0))) as [Hc Hs].
    split; [| exact Hs].
    intros oid li key Hin. rewrite Hc in Hin. apply Hs. apply (Hi oid li key). exact Hin.
  - apply delivery_body_framed.
Qed.

Lemma handleStripeWebhook_served (req : WebhookRequest) (w : World G) :
  ok calls_recorded orders_stay (fun _ _ => True) (handleStripeWebhook req) w.
Proof.
  unfold handleStripeWebhook.
  destruct (nonempty (stripe_signature req)); [| exact Logic.I].
  destruct (rawBody req); [| exact Logic.I].
  destruct (verifyWebhookSignature _ _) as [event |]; [| exact Logic.I].
  apply ok_try_catch; [intros; exact Logic.I |].
  apply (ok_bind calls_recorded orders_stay (fun _ _ => True));
    [intros; exact Logic.I |].
  unfold route_event.
  destruct (String.eqb (ev_type event) "checkout.session.completed").
  - rewrite handleCheckoutCompleted_delivers.
    apply (ok_bind calls_recorded orders_stay (fun _ _ => True));
      [intros; exact Logic.I | apply deliver_served].
  - destruct (String.eqb (ev_type event) "checkout.session.expired").
    + rewrite handleCheckoutExpired_delivers.
      apply (ok_bind calls_recorded orders_stay (fun _ _ => True));
        [intros; exact Logic.I | apply deliver_served].
    + destruct (String.eqb (ev_type event) "payment_intent.payment_failed");
        exact Logic.I.
Qed.

(** [createOrder]: the row it returns is stored under the key. *)
Lemma createOrder_served (input : CreateOrderInput) (w : World G) :
  ok calls_recorded orders_stay
    (fun o w' => has_order (in_idempotencyKey input) (order_id o) (db w'))
    (createOrder input) w.
Proof.
  unfold createOrder.
  apply (ok_bind calls_recorded orders_stay
           (fun existing w' =>
              forall o, existing = Some o ->
                        has_order (in_idempotencyKey input) (order_id o) (db w'))).
  - intros [o |] w' HP.
    + simpl. apply HP. reflexivity.
    + apply ok_await.
      * apply quiet_guarantees. intros w1. unfold prisma_order_create_pending.
        destruct (uuidv4 w1) as [id w2] eqn:Eu.
        assert (Hw2 : db w2 = db w1 /\ calls w2 = calls w1)
          by (unfold uuidv4 in Eu; injection Eu as <- <-; split; reflexivity).
        destruct Hw2 as [Hdb Hcalls].
        eapply quiet_trans; [split; [exact Hcalls | intros k i; rewrite Hdb; tauto] |].
        apply storage_quiet. intros d key id'. apply order_create_has_order.
      * intros w1 a _ Hret. apply create_pending_returned. exact Hret.
  - apply ok_await.
    + apply quiet_guarantees. intros w1. apply query_quiet.
    + intros w1 a _ Hret o Ho. apply query_returned in Hret.
      destruct Hret as [Ha Hdb]. rewrite Hdb. apply find_has_order. congruence.
Qed.

(** The call to the provider: allowed where the order is on record. *)
Lemma stripe_createCheckoutSession_served
  (orderId : string) (items : list CartItem) (key : string) (w : World G) :
  has_order key orderId (db w) ->
  ok calls_recorded orders_stay (fun _ _ => True)
    (stripe_createCheckoutSession orderId items key) w.
Proof.
  intros Hrow. unfold stripe_createCheckoutSession. cbn [bind perform].
  intros w1 Hr Hi. unfold stripe_sessions_create.
  destruct (sessions_create _ _ _ _) as [r g]. cbn [fst snd].
  split; [| split].
  - intros oid li k Hin. cbn in Hin. apply in_app_or in Hin.
    destruct Hin as [Hin | [Heq | []]].
    + apply (Hi oid li k). exact Hin.
    + injection Heq as <- _ <-. apply Hr. exact Hrow.
  - intros k id H. exact H.
  - destruct r; exact Logic.I.
Qed.

Lemma checkout_steps_4_to_8_served (items : list CartItem) (key : string) (w : World G) :
  ok calls_recorded orders_stay (fun _ _ => True) (checkout_steps_4_to_8 items key) w.
Proof.
  unfold checkout_steps_4_to_8.
  apply (ok_bind calls_recorded orders_stay
           (fun o w' => has_order key (order_id o) (db w')));
    [| apply (createOrder_served (mkCreateOrderInput items key _ _))].
  intros order w1 Horder.
  apply (ok_bind calls_recorded orders_stay (fun _ _ => True));
    [| apply stripe_createCheckoutSession_served; exact Horder].
  intros r w2 _. destruct (negb (sr_success r)); [exact Logic.I |].
  apply (ok_bind calls_recorded orders_stay (fun _ _ => True));
    [intros; exact Logic.I |].
  unfold updateOrderWithStripeSession. apply ok_await; [| intros; exact Logic.I].
  apply quiet_guarantees. intros w3.
  apply storage_quiet. intros d k id'. apply order_update_has_order.
Qed.

Lemma createCheckoutSession_served (req : CreateCheckoutRequest) (w : World G) :
  ok calls_recorded orders_stay (fun _ _ => True) (createCheckoutSession req) w.
Proof.
  unfold createCheckoutSession.
  apply ok_try_catch; [intros; exact Logic.I |].
  destruct (req_items req) as [[| e0 rest] |]; try exact Logic.I.
  destruct (validate (e0 :: rest)) as [items | |]; try exact Logic.I.
  apply (ok_bind calls_recorded orders_stay (fun _ _ => True)).
  - intros key w1 _.
    apply (ok_bind calls_recorded orders_stay (fun _ _ => True)).
    + intros [existing |] w2 _; [| apply checkout_steps_4_to_8_served].
      destruct (nonempty (stripeCheckoutId existing)) as [sid |];
        [| apply checkout_steps_4_to_8_served].
      apply (ok_bind calls_recorded orders_stay (fun _ _ => True)).
      * intros [sess |] w3 _; [| apply checkout_steps_4_to_8_served].
        destruct (nonempty (session_url sess));
          [exact Logic.I | apply checkout_steps_4_to_8_served].
      * unfold getCheckoutSession. apply ok_perform; [| intros; exact Logic.I].
        intros w3 Hi. split; [| intros k id H; exact H].
        intros oid li k Hin. cbn in Hin. apply in_app_or in Hin.
        destruct Hin as [Hin | [Heq | []]]; [| discriminate].
        apply (Hi oid li k). exact Hin.
    + unfold findOrderByIdempotencyKey. apply ok_await; [| intros; exact Logic.I].
      apply quiet_guarantees. intros w2. apply query_quiet.
  - destruct (nonempty (req_idempotencyKey req)); [exact Logic.I |].
    apply ok_perform; [| intros; exact Logic.I].
    apply quiet_guarantees. intros w1. split; [reflexivity | intros k id H; exact H].
Qed.

Lemma serve_served (r : Request) (w : World G) :
  ok calls_recorded orders_stay (fun _ _ => True) (serve r) w.
Proof.
  destruct r as [req | req]; cbn [serve];
    apply (ok_bind calls_recorded orders_stay (fun _ _ => True));
    try (intros; exact Logic.I).
  - apply createCheckoutSession_served.
  - apply handleStripeWebhook_served.
Qed.

(** X13.  The order is on record before the provider is asked, and stays.
    If every session creation asked of the provider so far names a stored
    order with the idempotency key the call carried, then so does every
    one asked in the course of any requests, interleaved in any way, with
    any gateway and any storage failures: at every call the order row with
    that id and key exists, and no later step, rollback or request removes
    or renames it. *)
Theorem sessions_are_created_for_stored_orders
  (schedule : list nat) (reqs : list Request) (w : World G) :
  calls_recorded w ->
  calls_recorded (snd (run_schedule schedule (map serve reqs) w)).
Proof.
  intros Hw.
  apply (run_schedule_ok calls_recorded orders_stay orders_stay_refl orders_stay_trans
           (fun _ _ => True) schedule).
  - intros a w1 w2 _ _. exact Logic.I.
  - exact Hw.
  - apply Forall_forall. intros p Hin. apply in_map_iff in Hin.
    destruct Hin as [r [<- _]]. apply serve_served.
Qed.

End RecordedFirst.

Lemma sessions_are_created_for_stored_orders_witness :
  let d := mkDatabase [Demo.order "ord_1" PENDING "key-1" None] [] in
  let reqs := [PostCheckout (mkCheckoutRequest (Some [Demo.item "p1" 500 2]) (Some "key-1"));
               PostCheckout (mkCheckoutRequest (Some [Demo.item "p2" 300 1]) None);
               PostWebhook (mkWebhookRequest (Some "whsec_ok") (Some "cs_key-1"))] in
  let w := Demo.world d [false; false; true] in
  calls_recorded w
  /\ calls_recorded (snd (run_schedule [0; 1; 0; 1; 2; 0; 1; 2; 0; 1; 2; 0; 1]%nat
                            (map serve reqs) w)).
Proof.
  cbv zeta. split.
  - intros oid li key [].
  - apply sessions_are_created_for_stored_orders. intros oid li key [].
Defined.

(* ===================================================================== *)
(** ** What a checkout can write *)

Definition order_payment (o : Order) : option string * option string * option Z :=
  (stripePaymentId o, customerEmail o, paidAt o).

(** An order before and after a checkout request passed over it: it is as
    it was, or it was given a session and put in [PROCESSING]; its payment
    columns are as they were. *)
Definition checkout_kept (o0 o : Order) : Prop :=
  order_id o = order_id o0
  /\ amount o = amount o0
  /\ currency o = currency o0
  /\ items o = items o0
  /\ idempotencyKey o = idempotencyKey o0
  /\ order_payment o = order_payment o0
  /\ ((status o = status o0 /\ stripeCheckoutId o = stripeCheckoutId o0)
      \/ status o = PROCESSING).

Definition unpaid (o : Order) : Prop :=
  order_payment o = (None, None, None) /\ status o <> PAID.

Definition checkout_tables (d d' : Database) : Prop :=
  webhookEvents d' = webhookEvents d
  /\ exists old more,
       orders d' = (old ++ more)%list
       /\ Forall2 checkout_kept (orders d) old
       /\ Forall unpaid more.

Lemma checkout_kept_refl (o : Order) : checkout_kept o o.
Proof. unfold checkout_kept. repeat split. left. split; reflexivity. Qed.

Lemma checkout_kept_trans (o1 o2 o3 : Order) :
  checkout_kept o1 o2 -> checkout_kept o2 o3 -> checkout_kept o1 o3.
Proof.
  unfold checkout_kept.
  intros [A1 [A2 [A3 [A4 [A5 [A6 A7]]]]]] [B1 [B2 [B3 [B4 [B5 [B6 B7]]]]]].
  repeat split; try congruence.
  destruct B7 as [[Bs Bc] | Bp]; [| right; exact Bp].
  destruct A7 as [[As Ac] | Ap]; [left; split; congruence | right; congruence].
Qed.

Lemma checkout_kept_unpaid (o0 o : Order) : unpaid o0 -> checkout_kept o0 o -> unpaid o.
Proof.
  intros [Hp Hs] [_ [_ [_ [_ [_ [Hpay Hst]]]]]]. split; [congruence |].
  destruct Hst as [[E _] | E]; rewrite E; [exact Hs | discriminate].
Qed.

Lemma Forall2_kept_refl (l : list Order) : Forall2 checkout_kept l l.
Proof. induction l; constructor; [apply checkout_kept_refl | assumption]. Qed.

Lemma Forall2_kept_trans (l1 l2 l3 : list Order) :
  Forall2 checkout_kept l1 l2 -> Forall2 checkout_kept l2 l3 ->
  Forall2 checkout_kept l1 l3.
Proof.
  intros H12. revert l3. induction H12 as [| a b l1 l2 Hab H12 IH]; intros l3 H23;
    inversion H23; subst; constructor.
  - eapply checkout_kept_trans; eassumption.
  - apply IH. assumption.
Qed.

Lemma Forall2_kept_unpaid (l l' : list Order) :
  Forall unpaid l -> Forall2 checkout_kept l l' -> Forall unpaid l'.
Proof.
  intros Hl H. induction H as [| a b l l' Hab H IH]; [constructor |].
  inversion Hl; subst. constructor; [eapply checkout_kept_unpaid; eassumption |].
  apply IH. assumption.
Qed.

Lemma checkout_tables_refl (d : Database) : checkout_tables d d.
Proof.
  split; [reflexivity |]. exists (orders d), [].
  split; [symmetry; apply app_nil_r |]. split; [apply Forall2_kept_refl | constructor].
Qed.

Lemma checkout_tables_trans (d1 d2 d3 : Database) :
  checkout_tables d1 d2 -> checkout_tables d2 d3 -> checkout_tables d1 d3.
Proof.
  intros [E12 [old1 [more1 [O12 [K12 U12]]]]] [E23 [old2 [more2 [O23 [K23 U23]]]]].
  split; [congruence |].
  rewrite O12 in K23. apply Forall2_app_inv_l in K23.
  destruct K23 as [a [b [Ka [Kb ->]]]].
  exists a, (b ++ more2)%list. split; [rewrite O23; symmetry; apply app_assoc |].
  split; [eapply Forall2_kept_trans; eassumption |].
  apply Forall_app. split; [exact (Forall2_kept_unpaid _ _ U12 Kb) | exact U23].
Qed.

Lemma order_create_checkout_tables {SC : OrderSchema} (o : Order) (d : Database) :
  unpaid o -> checkout_tables d (snd (Table.order_create o d)).
Proof.
  intros Ho. destruct (order_create_rows o d) as [-> | [a [_ ->]]];
    [apply checkout_tables_refl |].
  split; [reflexivity |]. exists (orders d), [with_amount a o]. split; [reflexivity |].
  split; [apply Forall2_kept_refl | constructor; [exact Ho | constructor]].
Qed.

Lemma session_update_checkout_tables (id : string) (sid : option string) (d : Database) :
  checkout_tables d
    (snd (Table.order_update id (mkOrderUpdate (Some PROCESSING) sid None None None) d)).
Proof.
  destruct (order_update_rows id (mkOrderUpdate (Some PROCESSING) sid None None None) d)
    as [-> | ->]; [apply checkout_tables_refl |].
  split; [reflexivity |]. cbn [orders].
  eexists _, []. split; [symmetry; apply app_nil_r |]. split; [| constructor].
  induction (orders d) as [| a l IH]; simpl; constructor; [| exact IH].
  destruct (String.eqb (order_id a) id); [| apply checkout_kept_refl].
  unfold checkout_kept, order_payment. cbn. repeat split. right. reflexivity.
Qed.

Lemma Forall2_kept_in (l l' : list Order) (o : Order) :
  Forall2 checkout_kept l l' -> In o l' -> exists o0, In o0 l /\ checkout_kept o0 o.
Proof.
  intros H. induction H as [| a b l l' Hab H IH]; intros Hin; [destruct Hin |].
  destruct Hin as [<- | Hin].
  - exists a. split; [left; reflexivity | exact Hab].
  - destruct (IH Hin) as [o0 [H0 Hk]]. exists o0. split; [right; exact H0 | exact Hk].
Qed.

Lemma Forall2_kept_payment (l l' : list Order) :
  Forall2 checkout_kept l l' -> map order_payment l' = map order_payment l.
Proof.
  intros H. induction H as [| a b l l' Hab H IH]; simpl; [reflexivity |].
  destruct Hab as [_ [_ [_ [_ [_ [Hp _]]]]]]. rewrite Hp, IH. reflexivity.
Qed.

(** X15.  What no checkout request can do, whatever it carries, whatever
    the gateway answers and whichever storage calls fail: touch the event
    table; write a payment id, a customer e-mail or a payment time; make an
    order [PAID].  Every [PAID] order found afterwards was there before,
    equal in every column; the orders that were there keep their payment
    columns, and an added order has none. *)
Theorem checkout_never_marks_paid
  {G : Type} {PG : PaymentGateway G} {SC : OrderSchema}
  (req : CreateCheckoutRequest) (w : World G) :
  let w' := snd (run (createCheckoutSession req) w) in
  webhookEvents (db w') = webhookEvents (db w)
  /\ (forall o, In o (orders (db w')) -> status o = PAID -> In o (orders (db w)))
  /\ exists old more,
       orders (db w') = (old ++ more)%list
       /\ map order_payment old = map order_payment (orders (db w))
       /\ Forall (fun o => order_payment o = (None, None, None)) more.
Proof.
  cbv zeta.
  assert (H : checkout_tables (db w) (db (snd (run (createCheckoutSession req) w)))).
  { apply (run_preserves (checkout_tables (db w))); [| apply checkout_tables_refl].
    apply checkout_preserves.
    - intros o d Hst _ Hpay Hmail Hpaid Hd.
      eapply checkout_tables_trans; [exact Hd |].
      apply order_create_checkout_tables. unfold unpaid, order_payment.
      rewrite Hst, Hpay, Hmail, Hpaid. split; [reflexivity | discriminate].
    - intros id sid d Hd.
      eapply checkout_tables_trans; [exact Hd |].
      apply session_update_checkout_tables. }
  destruct H as [He [old [more [Ho [Hk Hu]]]]].
  split; [exact He |]. split.
  - intros o Hin Hpaid. rewrite Ho in Hin. apply in_app_or in Hin.
    destruct Hin as [Hin | Hin].
    + destruct (Forall2_kept_in _ _ o Hk Hin) as [o0 [Hin0 Hkept]].
      destruct Hkept as [K1 [K2 [K3 [K4 [K5 [K6 K7]]]]]].
      destruct K7 as [[Ks Kc] | Kp]; [| rewrite Kp in Hpaid; discriminate].
      unfold order_payment in K6. injection K6 as K6 K7 K8.
      assert (E : o = o0) by (destruct o, o0; simpl in *; congruence).
      rewrite E. exact Hin0.
    + exfalso. rewrite Forall_forall in Hu. destruct (Hu o Hin) as [_ Hn].
      apply Hn. exact Hpaid.
  - exists old, more. split; [exact Ho |].
    split; [apply Forall2_kept_payment; exact Hk |].
    eapply Forall_impl; [| exact Hu]. intros o [Hp _]. exact Hp.
Qed.

(* ===================================================================== *)
(** ** Deliveries of one event, side by side *)

Lemma count_events_frame (eid : string) (d d' : Database) :
  table_frame d d' -> (count_events eid d <= count_events eid d')%nat.
Proof.
  intros [_ [more E]]. unfold count_events. rewrite E, filter_app, length_app. lia.
Qed.

Lemma event_exists_recorded (eid : string) (d : Database) :
  existsb (fun e' => String.eqb (event_id e') eid) (webhookEvents d) = true ->
  (1 <= count_events eid d)%nat.
Proof.
  unfold count_events. induction (webhookEvents d) as [| e l IH]; simpl.
  - discriminate.
  - destruct (String.eqb (event_id e) eid); simpl; [lia | exact IH].
Qed.

Lemma event_absent_count (eid : string) (d : Database) :
  existsb (fun e' => String.eqb (event_id e') eid) (webhookEvents d) = false ->
  count_events eid d = 0%nat.
Proof.
  unfold count_events. induction (webhookEvents d) as [| e l IH]; simpl.
  - reflexivity.
  - destruct (String.eqb (event_id e) eid); simpl; [discriminate | exact IH].
Qed.

Lemma webhookEvent_create_count (eid : string) (e : WebhookEvent) (d : Database) :
  (count_events eid d <= 1)%nat ->
  (count_events eid (snd (Table.webhookEvent_create e d)) <= 1)%nat.
Proof.
  intros H. unfold Table.webhookEvent_create.
  destruct (existsb _ (webhookEvents d)) eqn:E; cbn [snd]; [exact H |].
  change (mkDatabase (orders d) (webhookEvents d ++ [e])) with (record_event e d).
  rewrite count_events_record.
  destruct (String.eqb_spec (event_id e) eid) as [<- | _]; [| lia].
  rewrite (event_absent_count _ _ E). lia.
Qed.

Lemma order_update_events (id : string) (u : OrderUpdate) (d : Database) :
  webhookEvents (snd (Table.order_update id u d)) = webhookEvents d.
Proof. destruct (order_update_rows id u d) as [-> | ->]; reflexivity. Qed.

Lemma order_update_by_id (id : string) (u : OrderUpdate) (d : Database) :
  set_stripeCheckoutId u = None ->
  In id (map order_id (orders d)) ->
  exists o', Table.order_update id u d = (Return o', update_rows id u d).
Proof.
  intros Hu Hin. unfold Table.order_update. rewrite Hu.
  destruct (find (order_matches (ById id)) (orders d)) as [o |] eqn:E.
  - exists (apply_update u o). reflexivity.
  - exfalso. apply in_map_iff in Hin. destruct Hin as [o [Hid Hin]].
    pose proof (find_none _ _ E o Hin) as Hno. simpl in Hno.
    rewrite Hid, String.eqb_refl in Hno. discriminate.
Qed.

Lemma table_frame_ids (d d' : Database) :
  table_frame d d' -> map order_id (orders d') = map order_id (orders d).
Proof.
  intros [H _].
  assert (Hid : forall l,
             map order_id l
             = map (fun c : string * number * string * list CartItem * string * option string =>
                      fst (fst (fst (fst (fst c))))) (map order_core l)).
  { intros l. rewrite map_map. reflexivity. }
  rewrite (Hid (orders d')), (Hid (orders d)), H. reflexivity.
Qed.

Section Outcomes.

Context {G : Type}.

(** A statement of a transaction: the tables are left alone; it throws
    when the store is down, and otherwise answers from the tables as the
    writes made so far have them. *)
Lemma tx_statement_outcome {X : Type} (pending : Pending)
  (f : Database -> Completion X * Database) (w : World G) :
  db (snd (tx_statement pending f w)) = db w
  /\ (faults w = [] -> faults (snd (tx_statement pending f w)) = [])
  /\ ((fst (tx_statement pending f w) = Throw StorageUnavailable /\ faults w <> [])
      \/ fst (tx_statement pending f w)
         = match pending (db w) with
           | Return view => fst (f view)
           | Throw e => Throw e
           end).
Proof.
  unfold tx_statement, storage.
  destruct (faults w) as [| [|] rest] eqn:E.
  - destruct (pending (db w)); cbn;
      (split; [reflexivity | split; [intros _; exact E | right; reflexivity]]).
  - cbn. split; [reflexivity | split; [discriminate | left; split; [reflexivity | discriminate]]].
  - destruct (pending (db w)); cbn;
      (split; [reflexivity | split; [discriminate | right; reflexivity]]).
Qed.

(** The commit: it throws and leaves the tables when the store is down or
    a write is no longer taken, and otherwise installs the writes. *)
Lemma tx_commit_outcome {A : Type} (pending : Pending) (a : A) (w : World G) :
  (faults w = [] -> faults (snd (tx_commit pending a w)) = [])
  /\ ((fst (tx_commit pending a w) = Throw StorageUnavailable
       /\ faults w <> [] /\ db (snd (tx_commit pending a w)) = db w)
      \/ match pending (db w) with
         | Return d' =>
             fst (tx_commit pending a w) = Return a
             /\ db (snd (tx_commit pending a w)) = d'
         | Throw e =>
             fst (tx_commit pending a w) = Throw e
             /\ db (snd (tx_commit pending a w)) = db w
         end).
Proof.
  unfold tx_commit, storage.
  destruct (faults w) as [| [|] rest] eqn:E.
  - destruct (pending (db w)); cbn;
      (split; [intros _; exact E | right; split; reflexivity]).
  - cbn. split; [discriminate |].
    left. split; [reflexivity | split; [discriminate | reflexivity]].
  - destruct (pending (db w)); cbn;
      (split; [discriminate | right; split; reflexivity]).
Qed.

End Outcomes.

(** Request [i] of the pool delivers the event [eid]. *)
Definition delivers (eid : string) (ds : list Delivery) (i : nat) : bool :=
  match nth_error ds i with
  | Some d => String.eqb (delivery_id d) eid
  | None => false
  end.

(** Request [i] of the pool has ended, with outcome [c]. *)
Definition ended_with {G A : Type} (pool : list (Async G A)) (i : nat) (c : Completion A)
  : Prop :=
  exists p, nth_error pool i = Some p /\ outcome p = Some c.

Section OverlappingDeliveries.

Context {G : Type} {PG : PaymentGateway G}.

Variable eid : string.

(** The row of [eid] is there. *)
Definition recorded (w : World G) : Prop := (1 <= count_events eid (db w))%nat.

(** What the move of a delivery does to the tables, at most. *)
Definition frame (w w' : World G) : Prop := table_frame (db w) (db w').

(** A move that leaves the tables as they are, or adds the row of [eid],
    which was not there. *)
Definition records_once (w w' : World G) : Prop :=
  db w' = db w
  \/ (count_events eid (db w) = 0%nat /\ count_events eid (db w') = 1%nat).

Definition silent (w w' : World G) : Prop := db w' = db w.

Lemma frame_refl (w : World G) : frame w w.
Proof. apply table_frame_refl. Qed.

Lemma frame_trans (w1 w2 w3 : World G) : frame w1 w2 -> frame w2 w3 -> frame w1 w3.
Proof. apply table_frame_trans. Qed.

Lemma recorded_lasts (w w' : World G) : recorded w -> frame w w' -> recorded w'.
Proof.
  unfold recorded, frame. intros H Hf.
  pose proof (count_events_frame eid _ _ Hf). lia.
Qed.

Section Store.

(** [store_up]: no storage call fails for want of the store. *)
Variable store_up : bool.

Definition one_row_at_most (w : World G) : Prop :=
  (count_events eid (db w) <= 1)%nat /\ (store_up = true -> faults w = []).

(** A delivery of [eid] that has returned leaves the row behind; with the
    store up, one that has thrown was refused by the primary key, the row
    being there. *)
Definition settled (c : Completion (option Order)) (w : World G) : Prop :=
  match c with
  | Return _ => recorded w
  | Throw e => store_up = true -> e = UniqueConstraintFailed /\ recorded w
  end.

Definition already_processed (c : Completion (option Order)) (w : World G) : Prop :=
  match c with
  | Return r => r = None
  | Throw _ => store_up = false
  end.

Definition on_tables (may : World G -> World G -> Prop) : Prop :=
  forall w1 w2, db w2 = db w1 -> may w1 w2.

Definition forgiving (ends : Completion (option Order) -> World G -> Prop) : Prop :=
  forall e w, store_up = false -> ends (Throw e) w.

Lemma settled_lasting : lasting frame settled.
Proof.
  intros [r | e] w w' H Hf; simpl in *.
  - eapply recorded_lasts; eassumption.
  - intros Hs. destruct (H Hs) as [He Hr]. split; [exact He |].
    eapply recorded_lasts; eassumption.
Qed.

Lemma settled_forgiving : forgiving settled.
Proof. intros e w Hs. simpl. rewrite Hs. discriminate. Qed.

Lemma already_processed_lasting : lasting frame already_processed.
Proof. intros [r | e] w w' H _; exact H. Qed.

Lemma already_processed_forgiving : forgiving already_processed.
Proof. intros e w Hs. exact Hs. Qed.

Lemma records_once_on_tables : on_tables records_once.
Proof. intros w1 w2 H. left. exact H. Qed.

Lemma silent_on_tables : on_tables silent.
Proof. intros w1 w2 H. exact H. Qed.

Section Steps.

Variable may : World G -> World G -> Prop.
Variable ends : Completion (option Order) -> World G -> Prop.
Hypothesis may_on_tables : on_tables may.
Hypothesis ends_lasting : lasting frame ends.
Hypothesis ends_forgiving : forgiving ends.

Lemma store_down_forgiven (w : World G) (e : Exn) (w' : World G) :
  one_row_at_most w -> faults w <> [] -> ends (Throw e) w'.
Proof.
  intros [_ Hup] Hfault. apply ends_forgiving.
  destruct store_up; [exfalso; apply Hfault, Hup; reflexivity | reflexivity].
Qed.

(** A statement of the transaction, and what follows it. *)
Lemma statement_obeys {X : Type} (pending : Pending)
  (f : Database -> Completion X * Database) (next : X -> Async G (option Order))
  (w : World G) :
  (forall w1, frame w w1 -> one_row_at_most w1 ->
     match pending (db w1) with
     | Return view =>
         match fst (f view) with
         | Return x => obeys one_row_at_most frame may ends (next x) w1
         | Throw e => ends (Throw e) w1
         end
     | Throw e => ends (Throw e) w1
     end) ->
  obeys one_row_at_most frame may ends
    (x <- await (tx_statement pending f) ;; next x) w.
Proof.
  intros H. apply obeys_await_bind. intros w1 Hr Hi.
  destruct (tx_statement_outcome pending f w1) as [Hdb [Hf Hres]].
  assert (Hfr : frame w1 (snd (tx_statement pending f w1)))
    by (unfold frame; rewrite Hdb; apply table_frame_refl).
  split; [destruct Hi as [Hcount Hup];
          split; [rewrite Hdb; exact Hcount | intros Hs; apply Hf, Hup, Hs] |].
  split; [exact Hfr |]. split; [apply may_on_tables; exact Hdb |].
  destruct Hres as [[Hres Hfault] | Hres]; rewrite Hres.
  - apply (store_down_forgiven w1); assumption.
  - specialize (H w1 Hr Hi).
    destruct (pending (db w1)) as [view | e].
    + destruct (fst (f view)) as [x | e].
      * eapply (obeys_lasting one_row_at_most frame frame_trans);
          [exact ends_lasting | exact H | exact Hfr].
      * eapply ends_lasting; eassumption.
    + eapply ends_lasting; eassumption.
Qed.

(** The reading of the clock. *)
Lemma now_obeys (next : Z -> Async G (option Order)) (w : World G) :
  (forall w1, frame w w1 -> one_row_at_most w1 ->
              obeys one_row_at_most frame may ends (next (clock w1)) w1) ->
  obeys one_row_at_most frame may ends (t <- perform now ;; next t) w.
Proof.
  intros H. apply obeys_perform_bind. intros w1 Hr Hi. cbn [now fst snd].
  split; [exact Hi |]. split; [apply frame_refl |].
  split; [apply may_on_tables; reflexivity | apply H; assumption].
Qed.

(** The commit. *)
Lemma commit_obeys (pending : Pending) (a : option Order) (w : World G) :
  (forall w1, frame w w1 -> one_row_at_most w1 ->
     match pending (db w1) with
     | Return d' =>
         (count_events eid d' <= 1)%nat
         /\ table_frame (db w1) d'
         /\ forall w2, db w2 = d' -> may w1 w2 /\ ends (Return a) w2
     | Throw e => ends (Throw e) w1
     end) ->
  obeys one_row_at_most frame may ends (await (tx_commit pending a)) w.
Proof.
  intros H. apply obeys_await. intros w1 Hr Hi.
  destruct (tx_commit_outcome pending a w1) as [Hf Hres].
  specialize (H w1 Hr Hi). destruct Hi as [Hcount Hup].
  assert (Hup' : store_up = true -> faults (snd (tx_commit pending a w1)) = [])
    by (intros Hs; apply Hf, Hup, Hs).
  destruct Hres as [[Hres [Hfault Hdb]] | Hres].
  - rewrite Hres.
    split; [split; [rewrite Hdb; exact Hcount | exact Hup'] |].
    split; [unfold frame; rewrite Hdb; apply table_frame_refl |].
    split; [apply may_on_tables; exact Hdb |].
    apply (store_down_forgiven w1); [split |]; assumption.
  - destruct (pending (db w1)) as [d' | e]; destruct Hres as [Hres Hdb]; rewrite Hres.
    + destruct H as [Hc [Hfr Hw2]]. destruct (Hw2 _ Hdb) as [Hm He].
      split; [split; [rewrite Hdb; exact Hc | exact Hup'] |].
      split; [unfold frame; rewrite Hdb; exact Hfr |].
      split; [exact Hm | exact He].
    + split; [split; [rewrite Hdb; exact Hcount | exact Hup'] |].
      assert (Hfr : frame w1 (snd (tx_commit pending a w1)))
        by (unfold frame; rewrite Hdb; apply table_frame_refl).
      split; [exact Hfr |]. split; [apply may_on_tables; exact Hdb |].
      eapply ends_lasting; eassumption.
Qed.

End Steps.

(** Writes that leave the event table alone and the orders in the frame. *)
Definition harmless (pending : Pending) : Prop :=
  forall d d', pending d = Return d' ->
               map order_core (orders d') = map order_core (orders d)
               /\ webhookEvents d' = webhookEvents d.

(** The end of both bodies: the event row is written, and the transaction
    commits. *)
Lemma record_and_commit (pending : Pending) (ty : string) (r : option Order)
  (w : World G) :
  harmless pending ->
  (forall d, table_frame (db w) d -> exists d', pending d = Return d') ->
  obeys one_row_at_most frame records_once settled
    (in_transaction pending
       (TxWrite (Table.webhookEvent_create (mkWebhookEvent eid ty))
          (fun _ => TxDone r))) w.
Proof.
  intros Hharm Htotal. cbn [in_transaction].
  apply statement_obeys;
    [exact records_once_on_tables | exact settled_lasting | exact settled_forgiving |].
  intros w1 Hr1 Hi1. destruct (Htotal (db w1) Hr1) as [view Ev]. rewrite Ev.
  destruct (Hharm _ _ Ev) as [Hcore Hev].
  unfold Table.webhookEvent_create at 1. rewrite Hev. cbn [event_id].
  destruct (existsb _ (webhookEvents (db w1))) eqn:Eex; cbn [fst].
  - intros _. split; [reflexivity | apply event_exists_recorded; exact Eex].
  - apply commit_obeys;
      [exact records_once_on_tables | exact settled_lasting | exact settled_forgiving |].
    intros w2 Hr2 [Hc2 Hup2].
    destruct (Htotal (db w2)) as [view2 Ev2];
      [eapply table_frame_trans; [exact Hr1 | exact Hr2] |].
    unfold then_write. rewrite Ev2. destruct (Hharm _ _ Ev2) as [Hcore2 Hev2].
    unfold Table.webhookEvent_create. rewrite Hev2. cbn [event_id].
    destruct (existsb _ (webhookEvents (db w2))) eqn:Eex2.
    + intros _. split; [reflexivity | apply event_exists_recorded; exact Eex2].
    + pose proof (event_absent_count _ _ Eex2) as Hzero.
      assert (Hone : count_events eid
                       (mkDatabase (orders view2)
                          (webhookEvents (db w2) ++ [mkWebhookEvent eid ty])) = 1%nat).
      { unfold count_events in *. cbn [webhookEvents].
        rewrite filter_app, length_app, Hzero. cbn. rewrite String.eqb_refl. reflexivity. }
      split; [rewrite Hone; lia |]. split.
      * split; [exact Hcore2 | exists [mkWebhookEvent eid ty]; reflexivity].
      * intros w3 Hdb. split.
        -- right. rewrite Hdb. split; [exact Hzero | exact Hone].
        -- simpl. unfold recorded. rewrite Hdb, Hone. lia.
Qed.

Lemma nothing_harmless : harmless (fun d => Return d).
Proof. intros d d' H. injection H as <-. split; reflexivity. Qed.

Lemma update_harmless (id : string) (u : OrderUpdate) :
  set_stripeCheckoutId u = None ->
  harmless (then_write (fun d => Return d) (Table.order_update id u)).
Proof.
  intros Hu d d' H. unfold then_write in H.
  pose proof (order_update_frame id u d Hu) as [Hcore _].
  pose proof (order_update_events id u d) as Hev.
  destruct (Table.order_update id u d) as [[o | e] d1]; [| discriminate].
  injection H as <-. split; assumption.
Qed.

(** The row of [eid] was found: the transaction commits nothing. *)
Lemma found_and_commit (may : World G -> World G -> Prop)
  (ends : Completion (option Order) -> World G -> Prop) (w : World G) :
  on_tables may -> lasting frame ends -> forgiving ends ->
  (forall w1, frame w w1 -> ends (Return None) w1) ->
  obeys one_row_at_most frame may ends
    (in_transaction (fun d => Return d) (TxDone None)) w.
Proof.
  intros Hmay Hlast Hforg Hend. cbn [in_transaction].
  apply commit_obeys; [exact Hmay | exact Hlast | exact Hforg |].
  intros w1 Hr1 [Hc1 _].
  split; [exact Hc1 |]. split; [apply table_frame_refl |].
  intros w2 Hdb. split; [apply Hmay; exact Hdb |].
  apply Hend. unfold frame in *. rewrite Hdb. exact Hr1.
Qed.

(** A delivery of [eid], from its first statement on. *)
Lemma deliver_records_once (d : Delivery) (w : World G) :
  delivery_id d = eid ->
  obeys one_row_at_most frame records_once settled (deliver d) w.
Proof.
  intros Hid. rewrite deliver_is_one_transaction. unfold transaction.
  assert (Hupdate : forall (o : Order) (u : OrderUpdate) (ty : string) (w2 : World G),
             set_stripeCheckoutId u = None ->
             In (order_id o) (map order_id (orders (db w2))) ->
             obeys one_row_at_most frame records_once settled
               (in_transaction (fun d => Return d)
                  (TxWrite (Table.order_update (order_id o) u)
                     (fun updatedOrder =>
                        TxWrite (Table.webhookEvent_create (mkWebhookEvent eid ty))
                          (fun _ => TxDone (Some updatedOrder))))) w2).
  { intros o u ty w2 Hu Hin. cbn [in_transaction].
    apply statement_obeys;
      [exact records_once_on_tables | exact settled_lasting | exact settled_forgiving |].
    intros w3 Hr3 Hi3.
    assert (Hin3 : In (order_id o) (map order_id (orders (db w3))))
      by (rewrite (table_frame_ids _ _ Hr3); exact Hin).
    destruct (order_update_by_id (order_id o) u (db w3) Hu Hin3) as [o' Hupd].
    rewrite Hupd. cbn [fst].
    apply record_and_commit.
    - apply update_harmless. exact Hu.
    - intros d0 Hfr. unfold then_write.
      assert (Hin0 : In (order_id o) (map order_id (orders d0)))
        by (rewrite (table_frame_ids _ _ Hfr); exact Hin3).
      destruct (order_update_by_id (order_id o) u d0 Hu Hin0) as [o0 Hupd0].
      rewrite Hupd0. eexists. reflexivity. }
  assert (Hfound : forall w1 : World G,
             recorded w1 ->
             obeys one_row_at_most frame records_once settled
               (in_transaction (fun d => Return d) (TxDone None)) w1).
  { intros w1 Hrec. apply found_and_commit;
      [exact records_once_on_tables | exact settled_lasting | exact settled_forgiving |].
    intros w2 Hr2. simpl. eapply recorded_lasts; eassumption. }
  assert (Hrow : forall (w1 : World G) (ev : WebhookEvent),
             Table.webhookEvent_findUnique eid (db w1) = Some ev -> recorded w1).
  { intros w1 ev Hev. unfold recorded.
    destruct (count_events eid (db w1)) eqn:Ec; [| lia].
    apply count_events_zero in Ec. congruence. }
  assert (Hplain : forall (ty : string) (r : option Order) (w1 : World G),
             obeys one_row_at_most frame records_once settled
               (in_transaction (fun d => Return d)
                  (TxWrite (Table.webhookEvent_create (mkWebhookEvent eid ty))
                     (fun _ => TxDone r))) w1).
  { intros ty r w1. apply record_and_commit; [apply nothing_harmless |].
    intros d0 _. eexists. reflexivity. }
  assert (Hfind : forall (sid : string) (o : Order) (w1 : World G),
             Table.order_findUnique (ByStripeCheckoutId sid) (db w1) = Some o ->
             In (order_id o) (map order_id (orders (db w1)))).
  { intros sid o w1 Ho. unfold Table.order_findUnique in Ho.
    apply find_some in Ho. apply in_map. tauto. }
  destruct d as [sid pay email eid' | sid eid']; cbn in Hid; subst eid';
    cbn [delivery_body]; unfold markOrderAsPaid_body, markOrderAsFailed_body;
    cbn [in_transaction];
    (apply statement_obeys;
     [exact records_once_on_tables | exact settled_lasting | exact settled_forgiving |]);
    intros w1 Hr1 Hi1; cbn [fst];
    (destruct (Table.webhookEvent_findUnique eid (db w1)) as [ev |] eqn:Eev;
     [apply Hfound; eapply Hrow; exact Eev |]);
    cbn [in_transaction];
    (apply statement_obeys;
     [exact records_once_on_tables | exact settled_lasting | exact settled_forgiving |]);
    intros w2 Hr2 Hi2; cbn [fst];
    (destruct (Table.order_findUnique (ByStripeCheckoutId sid) (db w2)) as [o |] eqn:Eo;
     [| apply Hplain]).
  - destruct (status_eqb (status o) PAID); [apply Hplain |].
    cbn [in_transaction].
    apply now_obeys; [exact records_once_on_tables |].
    intros w3 Hr3 Hi3. apply Hupdate; [reflexivity |].
    rewrite (table_frame_ids _ _ Hr3). eapply Hfind; exact Eo.
  - apply Hupdate; [reflexivity |]. eapply Hfind; exact Eo.
Qed.

(** A delivery of [eid] that begins when the row is there. *)
Lemma deliver_absorbed (d : Delivery) (w : World G) :
  delivery_id d = eid -> recorded w ->
  obeys one_row_at_most frame silent already_processed (deliver d) w.
Proof.
  intros Hid Hrec. rewrite deliver_is_one_transaction. unfold transaction.
  destruct d as [sid pay email eid' | sid eid']; cbn in Hid; subst eid';
    cbn [delivery_body]; unfold markOrderAsPaid_body, markOrderAsFailed_body;
    cbn [in_transaction];
    (apply statement_obeys;
     [exact silent_on_tables | exact already_processed_lasting
      | exact already_processed_forgiving |]);
    intros w1 Hr1 Hi1; cbn [fst];
    (destruct (Table.webhookEvent_findUnique eid (db w1)) as [ev |] eqn:Eev;
     [| exfalso; apply count_events_zero in Eev;
        pose proof (recorded_lasts _ _ Hrec Hr1) as H1; unfold recorded in H1; lia]);
    (apply found_and_commit;
     [exact silent_on_tables | exact already_processed_lasting
      | exact already_processed_forgiving |]);
    intros w2 _; reflexivity.
Qed.

(** Any other delivery keeps to the frame and to the primary key. *)
Lemma deliver_dutiful (d : Delivery) (w : World G) :
  obeys one_row_at_most frame (fun _ _ => True) (fun _ _ => True) (deliver d) w.
Proof.
  apply ok_obeys. rewrite deliver_is_one_transaction.
  apply (transaction_ok
           (fun d1 d2 => table_frame d1 d2
                         /\ ((count_events eid d1 <= 1)%nat ->
                             (count_events eid d2 <= 1)%nat))).
  - intros d0. split; [apply table_frame_refl | tauto].
  - intros d1 d2 d3 [F12 C12] [F23 C23].
    split; [eapply table_frame_trans; eassumption | tauto].
  - intros w1 w2 [Hc Hup] [_ [_ [[Hfr Hcount] Hf]]].
    split; [split; [apply Hcount; exact Hc | intros Hs; apply Hf, Hup, Hs] | exact Hfr].
  - assert (Hupd : forall id u d0,
               set_stripeCheckoutId u = None ->
               table_frame d0 (snd (Table.order_update id u d0))
               /\ ((count_events eid d0 <= 1)%nat ->
                   (count_events eid (snd (Table.order_update id u d0)) <= 1)%nat)).
    { intros id u d0 Hu. split; [apply order_update_frame; exact Hu |].
      unfold count_events. rewrite order_update_events. tauto. }
    apply delivery_body_writes.
    + intros id pay email t d0. apply Hupd. reflexivity.
    + intros id d0. apply Hupd. reflexivity.
    + intros e d0. split; [apply webhookEvent_create_frame |].
      apply webhookEvent_create_count.
Qed.

End Store.

End OverlappingDeliveries.

Section ExactlyOnceSideBySide.

Context {G : Type} {PG : PaymentGateway G}.

Variable eid : string.
Variable ds : list Delivery.

(** The duties of request [i]: a delivery of [eid] records once and ends
    settled; any other delivery keeps to the frame. *)
Definition duty_may (i : nat) : World G -> World G -> Prop :=
  if delivers eid ds i then records_once eid else fun _ _ => True.

Definition duty_ends (store_up : bool) (i : nat)
  : Completion (option Order) -> World G -> Prop :=
  if delivers eid ds i then settled eid store_up else fun _ _ => True.

(** The duties when request [late] begins with the row there. *)
Definition late_may (late i : nat) : World G -> World G -> Prop :=
  if Nat.eqb i late then silent else duty_may i.

Definition late_ends (store_up : bool) (late i : nat)
  : Completion (option Order) -> World G -> Prop :=
  if Nat.eqb i late then already_processed store_up else duty_ends store_up i.

Lemma duty_may_refl (i : nat) (w : World G) : duty_may i w w.
Proof. unfold duty_may. destruct (delivers eid ds i); [left; reflexivity | exact I]. Qed.

Lemma duty_ends_lasting (store_up : bool) (i : nat) : lasting frame (duty_ends store_up i).
Proof.
  unfold duty_ends. destruct (delivers eid ds i); [apply settled_lasting |].
  intros c w w' _ _. exact I.
Qed.

Lemma late_may_refl (late i : nat) (w : World G) : late_may late i w w.
Proof. unfold late_may. destruct (Nat.eqb i late); [reflexivity | apply duty_may_refl]. Qed.

Lemma late_ends_lasting (store_up : bool) (late i : nat) :
  lasting frame (late_ends store_up late i).
Proof.
  unfold late_ends. destruct (Nat.eqb i late);
    [apply already_processed_lasting | apply duty_ends_lasting].
Qed.

Lemma deliveries_obey (store_up : bool) (w : World G) :
  pool_obeys (one_row_at_most eid store_up) frame duty_may (duty_ends store_up)
    (map deliver ds) w.
Proof.
  intros i p Hp. rewrite nth_error_map in Hp. unfold duty_may, duty_ends, delivers.
  destruct (nth_error ds i) as [d |]; [| discriminate]. injection Hp as <-.
  destruct (String.eqb_spec (delivery_id d) eid) as [Hid | _].
  - apply deliver_records_once. exact Hid.
  - apply deliver_dutiful.
Qed.

Lemma outcome_obeys {A : Type} (I0 : World G -> Prop) (R0 : World G -> World G -> Prop)
  (may : World G -> World G -> Prop) (ends : Completion A -> World G -> Prop)
  (p : Async G A) (c : Completion A) (w : World G) :
  outcome p = Some c -> obeys I0 R0 may ends p w -> ends c w.
Proof.
  destruct p as [a | e | X act k]; simpl; intros H Hp;
    [injection H as <- | injection H as <- | discriminate]; exact Hp.
Qed.

(** The deliveries side by side, from tables with one row of [eid] at
    most. *)
Lemma side_by_side (store_up : bool) (schedule : list nat) (w : World G) :
  one_row_at_most eid store_up w ->
  Forall (dutiful (one_row_at_most eid store_up) frame duty_may)
    (moves schedule (map deliver ds) w)
  /\ one_row_at_most eid store_up (snd (run_schedule schedule (map deliver ds) w))
  /\ pool_obeys (one_row_at_most eid store_up) frame duty_may (duty_ends store_up)
       (fst (run_schedule schedule (map deliver ds) w))
       (snd (run_schedule schedule (map deliver ds) w)).
Proof.
  intros Hw.
  destruct (run_schedule_obeys (one_row_at_most eid store_up) frame frame_refl frame_trans
              duty_may (duty_ends store_up) duty_may_refl (duty_ends_lasting store_up)
              schedule (map deliver ds) w Hw (deliveries_obey store_up w))
    as [H1 [H2 [_ H3]]].
  split; [exact H1 | split; [exact H2 | exact H3]].
Qed.

(** A delivery of [eid] that has not moved before the row is there. *)
Lemma late_delivery (store_up : bool) (pre post : list nat) (late : nat) (w : World G) :
  one_row_at_most eid store_up w ->
  delivers eid ds late = true ->
  ~ In late pre ->
  recorded eid (snd (run_schedule pre (map deliver ds) w)) ->
  Forall (dutiful (one_row_at_most eid store_up) frame (late_may late))
    (moves post (fst (run_schedule pre (map deliver ds) w))
       (snd (run_schedule pre (map deliver ds) w)))
  /\ pool_obeys (one_row_at_most eid store_up) frame (late_may late)
       (late_ends store_up late)
       (fst (run_schedule (pre ++ post) (map deliver ds) w))
       (snd (run_schedule (pre ++ post) (map deliver ds) w)).
Proof.
  intros Hw Hlate Hnot Hrec.
  destruct (side_by_side store_up pre w Hw) as [_ [Hi Hpool]].
  rewrite run_schedule_app.
  set (began := run_schedule pre (map deliver ds) w) in *.
  assert (Hpool' : pool_obeys (one_row_at_most eid store_up) frame (late_may late)
                     (late_ends store_up late) (fst began) (snd began)).
  { intros i p Hp. unfold late_may, late_ends.
    destruct (Nat.eqb_spec i late) as [-> | _]; [| apply Hpool; exact Hp].
    unfold began in Hp. rewrite (run_schedule_untouched pre late Hnot) in Hp.
    rewrite nth_error_map in Hp. unfold delivers in Hlate.
    destruct (nth_error ds late) as [d |]; [| discriminate]. injection Hp as <-.
    apply deliver_absorbed; [apply String.eqb_eq; exact Hlate | exact Hrec]. }
  destruct (run_schedule_obeys (one_row_at_most eid store_up) frame frame_refl frame_trans
              (late_may late) (late_ends store_up late) (late_may_refl late)
              (late_ends_lasting store_up late)
              post (fst began) (snd began) Hi Hpool')
    as [H1 [_ [_ H3]]].
  split; [exact H1 | exact H3].
Qed.

(** Along a run, the tables of a later move are in the frame of those of
    an earlier one. *)
Lemma frame_reach (pre : list (Move (G := G))) :
  forall (trace : list Move) (w : World G) (m : Move) (post : list Move),
    linked w trace ->
    Forall (fun m => frame (from m) (to m)) trace ->
    trace = (pre ++ m :: post)%list ->
    frame w (from m) /\ linked (to m) post
    /\ Forall (fun m => frame (from m) (to m)) post.
Proof.
  induction pre as [| a pre IH]; intros trace w m post Hl Hf ->; simpl in *.
  - destruct Hl as [<- Hl]. inversion Hf; subst.
    split; [apply frame_refl | split; assumption].
  - destruct Hl as [<- Hl]. inversion Hf as [| ? ? Ha Hrest]; subst.
    destruct (IH _ (to a) m post Hl Hrest eq_refl) as [H1 [H2 H3]].
    split; [eapply frame_trans; eassumption | split; assumption].
Qed.

End ExactlyOnceSideBySide.

Section ExactlyOnceInterleaved.

Context {G : Type} {PG : PaymentGateway G}.

(** C2, as the code has it.  The deliveries [ds], verified completed and
    expired events as they reach the order service, run side by side: a
    schedule picks whose next round trip to the store goes through.  The
    tables hold one row of the event id [eid] at most.  Then, whatever the
    schedule and whichever storage calls fail:
    - the tables hold one row of [eid] at most, and exactly one once a
      delivery of [eid] has returned;
    - a move of a delivery of [eid] leaves both tables as they are, or is
      the commit that adds the row of [eid]; of all the moves of all the
      deliveries of [eid], at most one changes the tables;
    - with the store up, a delivery of [eid] that has ended has returned,
      or was refused by the primary key of the event table, and the row is
      there;
    - a delivery of [eid] that makes its first move when the row is there
      changes nothing, returns null if it returns, and with the store up
      does not throw. *)
Theorem duplicate_deliveries_processed_once
  (eid : string) (ds : list Delivery) (schedule : list nat) (w : World G) :
  (count_events eid (db w) <= 1)%nat ->
  let pool := map deliver ds in
  let final := run_schedule schedule pool w in
  let trace := moves schedule pool w in
  (count_events eid (db (snd final)) <= 1)%nat
  /\ (forall i r, delivers eid ds i = true -> ended_with (fst final) i (Return r) ->
                  count_events eid (db (snd final)) = 1%nat)
  /\ Forall (fun m => delivers eid ds (mover m) = true ->
                      records_once eid (from m) (to m)) trace
  /\ (forall pre m1 mid m2 post,
        trace = (pre ++ m1 :: mid ++ m2 :: post)%list ->
        delivers eid ds (mover m1) = true ->
        delivers eid ds (mover m2) = true ->
        db (to m1) <> db (from m1) ->
        db (to m2) = db (from m2))
  /\ (faults w = [] ->
      forall i c, delivers eid ds i = true -> ended_with (fst final) i c ->
                  count_events eid (db (snd final)) = 1%nat
                  /\ forall e, c = Throw e -> e = UniqueConstraintFailed)
  /\ (forall pre post i,
        schedule = (pre ++ post)%list ->
        delivers eid ds i = true ->
        ~ In i pre ->
        let began := run_schedule pre pool w in
        count_events eid (db (snd began)) = 1%nat ->
        Forall (fun m => mover m = i -> db (to m) = db (from m))
          (moves post (fst began) (snd began))
        /\ (forall r, ended_with (fst final) i (Return r) -> r = None)
        /\ (faults w = [] -> forall e, ~ ended_with (fst final) i (Throw e))).
Proof.
  intros Hcount. cbv zeta.
  assert (Hw : one_row_at_most eid false w) by (split; [exact Hcount | discriminate]).
  destruct (side_by_side eid ds false schedule w Hw) as [Hmoves [[Hfinal _] Hpool]].
  assert (Honce : Forall (fun m => delivers eid ds (mover m) = true ->
                                   records_once eid (from m) (to m))
                    (moves schedule (map deliver ds) w)).
  { eapply Forall_impl; [| exact Hmoves].
    intros m [_ [_ Hmay]] Hd. unfold duty_may in Hmay. rewrite Hd in Hmay. exact Hmay. }
  assert (Hframes : Forall (fun m => frame (from m) (to m))
                      (moves schedule (map deliver ds) w)).
  { eapply Forall_impl; [| exact Hmoves]. intros m [_ [Hfr _]]. exact Hfr. }
  split; [exact Hfinal |]. split; [| split; [exact Honce |]; split; [| split]].
  - intros i r Hd [p [Hp Hout]].
    pose proof (outcome_obeys _ _ _ _ p _ _ Hout (Hpool i p Hp)) as Hend.
    unfold duty_ends in Hend. rewrite Hd in Hend. simpl in Hend.
    unfold recorded in Hend. lia.
  - intros pre m1 mid m2 post Htrace Hd1 Hd2 Hchanged.
    destruct (frame_reach pre _ w m1 (mid ++ m2 :: post)
                (moves_linked schedule (map deliver ds) w) Hframes Htrace)
      as [_ [Hl1 Hf1]].
    destruct (frame_reach mid _ (to m1) m2 post Hl1 Hf1 eq_refl) as [Hreach _].
    rewrite Forall_forall in Honce.
    assert (Hin1 : In m1 (moves schedule (map deliver ds) w))
      by (rewrite Htrace; apply in_or_app; right; left; reflexivity).
    assert (Hin2 : In m2 (moves schedule (map deliver ds) w)).
    { rewrite Htrace. apply in_or_app. right. right.
      apply in_or_app. right. left. reflexivity. }
    destruct (Honce m1 Hin1 Hd1) as [Hsame | [_ Hone]]; [contradiction |].
    destruct (Honce m2 Hin2 Hd2) as [Hsame | [Hzero _]]; [exact Hsame |].
    pose proof (count_events_frame eid _ _ Hreach). lia.
  - intros Hf i c Hd [p [Hp Hout]].
    assert (Hw1 : one_row_at_most eid true w) by (split; [exact Hcount | intros _; exact Hf]).
    destruct (side_by_side eid ds true schedule w Hw1) as [_ [_ Hpool1]].
    pose proof (outcome_obeys _ _ _ _ p _ _ Hout (Hpool1 i p Hp)) as Hend.
    unfold duty_ends in Hend. rewrite Hd in Hend.
    destruct c as [r | e]; simpl in Hend.
    + split; [unfold recorded in Hend; lia | discriminate].
    + destruct (Hend eq_refl) as [He Hrec].
      split; [unfold recorded in Hrec; lia |].
      intros e' H. injection H as <-. exact He.
  - intros pre post i -> Hd Hnot Hone.
    assert (Hrec : recorded eid (snd (run_schedule pre (map deliver ds) w)))
      by (unfold recorded; lia).
    destruct (late_delivery eid ds false pre post i w Hw Hd Hnot Hrec) as [Hlate Hpool2].
    split; [| split].
    + eapply Forall_impl; [| exact Hlate].
      intros m [_ [_ Hmay]] Hi. unfold late_may in Hmay.
      rewrite Hi, Nat.eqb_refl in Hmay. exact Hmay.
    + intros r [p [Hp Hout]].
      pose proof (outcome_obeys _ _ _ _ p _ _ Hout (Hpool2 i p Hp)) as Hend.
      unfold late_ends in Hend. rewrite Nat.eqb_refl in Hend. exact Hend.
    + intros Hf e [p [Hp Hout]].
      assert (Hw1 : one_row_at_most eid true w)
        by (split; [exact Hcount | intros _; exact Hf]).
      destruct (late_delivery eid ds true pre post i w Hw1 Hd Hnot Hrec) as [_ Hpool3].
      pose proof (outcome_obeys _ _ _ _ p _ _ Hout (Hpool3 i p Hp)) as Hend.
      unfold late_ends in Hend. rewrite Nat.eqb_refl in Hend. discriminate Hend.
Qed.

End ExactlyOnceInterleaved.

(** Two deliveries of one completed event overlap, a delivery of another
    event between them. *)
Lemma duplicate_deliveries_processed_once_witness :
  let eid := "evt_1" in
  let ds := [Completed "cs_1" (Some "pi_1") (Some "a@b.c") "evt_1";
             Expired "cs_other" "evt_7";
             Completed "cs_1" (Some "pi_1") (Some "a@b.c") "evt_1"] in
  let schedule := [0; 2; 1; 0; 2; 0; 2; 1; 0; 2; 0; 2; 1; 0; 2; 1]%nat in
  let w := Demo.world (mkDatabase [Demo.order "ord_1" PROCESSING "key-1" (Some "cs_1")] [])
             [] in
  (count_events eid (db w) <= 1)%nat
  /\ let pool := map deliver ds in
     let final := run_schedule schedule pool w in
     let trace := moves schedule pool w in
     (count_events eid (db (snd final)) <= 1)%nat
     /\ (forall i r, delivers eid ds i = true -> ended_with (fst final) i (Return r) ->
                     count_events eid (db (snd final)) = 1%nat)
     /\ Forall (fun m => delivers eid ds (mover m) = true ->
                         records_once eid (from m) (to m)) trace
     /\ (forall pre m1 mid m2 post,
           trace = (pre ++ m1 :: mid ++ m2 :: post)%list ->
           delivers eid ds (mover m1) = true ->
           delivers eid ds (mover m2) = true ->
           db (to m1) <> db (from m1) ->
           db (to m2) = db (from m2))
     /\ (faults w = [] ->
         forall i c, delivers eid ds i = true -> ended_with (fst final) i c ->
                     count_events eid (db (snd final)) = 1%nat
                     /\ forall e, c = Throw e -> e = UniqueConstraintFailed)
     /\ (forall pre post i,
           schedule = (pre ++ post)%list ->
           delivers eid ds i = true ->
           ~ In i pre ->
           let began := run_schedule pre pool w in
           count_events eid (db (snd began)) = 1%nat ->
           Forall (fun m => mover m = i -> db (to m) = db (from m))
             (moves post (fst began) (snd began))
           /\ (forall r, ended_with (fst final) i (Return r) -> r = None)
           /\ (faults w = [] -> forall e, ~ ended_with (fst final) i (Throw e))).
Proof.
  cbv zeta. split; [vm_compute; lia |].
  apply (duplicate_deliveries_processed_once "evt_1"
           [Completed "cs_1" (Some "pi_1") (Some "a@b.c") "evt_1";
            Expired "cs_other" "evt_7";
            Completed "cs_1" (Some "pi_1") (Some "a@b.c") "evt_1"]
           [0; 2; 1; 0; 2; 0; 2; 1; 0; 2; 0; 2; 1; 0; 2; 1]%nat
           (Demo.world (mkDatabase [Demo.order "ord_1" PROCESSING "key-1" (Some "cs_1")] [])
              [])).
  vm_compute. lia.
Defined.

(** C2, as stated for any interleaving, fails.  The provider delivers one
    completed event twice and the two requests overlap: both look for the
    event row before either has committed.  The first commits; the second
    does not find the row and return: its insert is refused by the primary
    key, its transaction is rolled back, and the endpoint answers 500.
    One event row is there and the order was paid once. *)
Lemma overlapping_delivery_is_refused_counterexample :
  let req := mkWebhookRequest (Some "whsec_ok") (Some "cs_1") in
  let d := Completed "cs_1" (Some "pi_1") (Some "a@b.c") "evt_cs_1" in
  let w := Demo.world (mkDatabase [Demo.order "ord_1" PROCESSING "key-1" (Some "cs_1")] [])
             [] in
  let schedule := [0; 1; 0; 1; 0; 1; 0; 1; 0; 1; 0; 1]%nat in
  let served := run_schedule schedule [handleStripeWebhook req; handleStripeWebhook req] w in
  let delivered := run_schedule schedule [deliver d; deliver d] w in
  map outcome (fst served)
  = [Some (Return (mkWebhookReply 200 "{received:true}"));
     Some (Return (mkWebhookReply 500 "Webhook processing failed"))]
  /\ map outcome (fst delivered)
     = [Some (Return (Some (mkOrder "ord_1" PAID (Fin 1000) "usd" [Demo.item "p1" 500 2]
                              "key-1" (Some "cs_1") (Some "pi_1") (Some "a@b.c")
                              (Some 1700000000))));
        Some (Throw UniqueConstraintFailed)]
  /\ db (snd served) = db (snd delivered)
  /\ map event_id (webhookEvents (db (snd served))) = ["evt_cs_1"]
  /\ map status (orders (db (snd served))) = [PAID].
Proof. vm_compute. repeat split; reflexivity. Qed.

(* ===================================================================== *)
(** ** Checkouts racing on one key: the session they are sent to *)

(** The contract of the provider for an idempotency key ([good] is what
    its states have in common, [holds g s] that [s] is the session it
    keeps under the key): a session it creates under the key is the one
    it keeps; it keeps one, whatever is asked of it under the key
    afterwards; and a session retrieved by the id of the one it keeps has
    its URL. *)
Record KeyedSessions {G : Type} {PG : PaymentGateway G} (key : string)
  (good : G -> Prop) (holds : G -> CheckoutSession -> Prop) : Prop := {
  created_good :
    forall g oid li, good g -> good (snd (sessions_create g oid li key));
  created_held :
    forall g oid li s,
      good g -> fst (sessions_create g oid li key) = inr s ->
      holds (snd (sessions_create g oid li key)) s;
  held_kept :
    forall g oid li s,
      good g -> holds g s -> holds (snd (sessions_create g oid li key)) s;
  held_one :
    forall g s s', good g -> holds g s -> holds g s' -> s = s';
  retrieved_url :
    forall g s s',
      good g -> holds g s -> sessions_retrieve g (session_id s) = Some s' ->
      session_url s' = session_url s
}.

(** The session id stored on an order of the key is the id of the
    session the provider keeps under the key. *)
Definition bound_in {G : Type} (key : string) (holds : G -> CheckoutSession -> Prop)
  (g : G) (d : Database) : Prop :=
  forall o sid,
    In o (orders d) -> idempotencyKey o = key ->
    nonempty (stripeCheckoutId o) = Some sid ->
    exists s, holds g s /\ session_id s = sid.

Lemma order_create_bound {G : Type} {SC : OrderSchema} (key : string)
  (holds : G -> CheckoutSession -> Prop) (g : G) (o : Order) (d : Database) :
  stripeCheckoutId o = None ->
  bound_in key holds g d -> bound_in key holds g (snd (Table.order_create o d)).
Proof.
  intros Hnone Hb. destruct (order_create_rows o d) as [-> | [a [_ ->]]]; [exact Hb |].
  intros o' sid Hin Hkey Hsid. cbn [orders] in Hin. apply in_app_or in Hin.
  destruct Hin as [Hin | [<- | []]]; [apply (Hb o' sid); assumption |].
  cbn in Hsid. rewrite Hnone in Hsid. discriminate.
Qed.

Lemma order_update_bound {G : Type} (key : string)
  (holds : G -> CheckoutSession -> Prop) (g : G) (id : string) (s : CheckoutSession)
  (d : Database) :
  holds g s ->
  bound_in key holds g d ->
  bound_in key holds g
    (snd (Table.order_update id
            (mkOrderUpdate (Some PROCESSING) (Some (session_id s)) None None None) d)).
Proof.
  intros Hs Hb. destruct (order_update_rows id
                            (mkOrderUpdate (Some PROCESSING) (Some (session_id s))
                               None None None) d) as [-> | ->]; [exact Hb |].
  intros o' sid Hin Hkey Hsid. cbn [orders] in Hin. apply in_map_iff in Hin.
  destruct Hin as [o [Ho Hin]].
  destruct (String.eqb (order_id o) id); subst o'.
  - exists s. split; [exact Hs |]. cbn in Hsid. unfold nonempty in Hsid.
    destruct (truthy_str (Some (session_id s))); [| discriminate].
    injection Hsid as <-. reflexivity.
  - apply (Hb o sid); assumption.
Qed.

Section SameKeySessions.

Context {G : Type} {PG : PaymentGateway G} {SC : OrderSchema}.

Variable key : string.
Variable good : G -> Prop.
Variable holds : G -> CheckoutSession -> Prop.
Hypothesis contract : KeyedSessions key good holds.

Definition provider_sane (w : World G) : Prop :=
  good (gateway w) /\ bound_in key holds (gateway w) (db w).

Definition sessions_stay (w w' : World G) : Prop :=
  forall s, holds (gateway w) s -> holds (gateway w') s.

(** A reply that names an order carries the URL of the session the
    provider keeps under the key. *)
Definition answers_url (reply : CheckoutReply) (w : World G) : Prop :=
  forall oid,
    res_orderId (reply_json reply) = Some oid ->
    exists s, holds (gateway w) s
              /\ res_sessionUrl (reply_json reply) = nonempty (session_url s).

Lemma sessions_stay_refl (w : World G) : sessions_stay w w.
Proof. intros s H. exact H. Qed.

Lemma sessions_stay_trans (w1 w2 w3 : World G) :
  sessions_stay w1 w2 -> sessions_stay w2 w3 -> sessions_stay w1 w3.
Proof. intros H12 H23 s H. apply H23, H12, H. Qed.

Lemma answers_url_stable : stable sessions_stay answers_url.
Proof.
  intros reply w w' Hq Hr oid Hoid. destruct (Hq oid Hoid) as [s [Hs Hurl]].
  exists s. split; [apply Hr; exact Hs | exact Hurl].
Qed.

Lemma storage_sane {X : Type} (f : Database -> Completion X * Database) (w : World G) :
  (forall d, bound_in key holds (gateway w) d ->
             bound_in key holds (gateway w) (snd (f d))) ->
  provider_sane w ->
  provider_sane (snd (storage f w)) /\ sessions_stay w (snd (storage f w)).
Proof.
  intros Hf [Hg Hb]. unfold provider_sane, sessions_stay, storage.
  destruct (faults w) as [| [|] rest]; simpl.
  - specialize (Hf (db w) Hb). destruct (f (db w)); simpl in *.
    split; [split; assumption | intros s H; exact H].
  - split; [split; assumption | intros s H; exact H].
  - specialize (Hf (db w) Hb). destruct (f (db w)); simpl in *.
    split; [split; assumption | intros s H; exact H].
Qed.

Lemma query_sane {X : Type} (f : Database -> X) :
  guarantees provider_sane sessions_stay (query f).
Proof. intros w Hi. apply storage_sane; [intros d H; exact H | exact Hi]. Qed.

Lemma createOrder_sane (input : CreateOrderInput) (w : World G) :
  ok provider_sane sessions_stay (fun _ _ => True) (createOrder input) w.
Proof.
  unfold createOrder.
  apply (ok_bind provider_sane sessions_stay (fun _ _ => True)).
  - intros [o |] w' _; [exact Logic.I |].
    apply ok_await; [| intros; exact Logic.I].
    intros w1 Hi. unfold prisma_order_create_pending.
    destruct (uuidv4 w1) as [id w2] eqn:Eu.
    assert (Hw2 : db w2 = db w1 /\ gateway w2 = gateway w1)
      by (unfold uuidv4 in Eu; injection Eu as <- <-; split; reflexivity).
    destruct Hw2 as [Hdb Hgw].
    assert (Hi2 : provider_sane w2)
      by (unfold provider_sane; rewrite Hdb, Hgw; exact Hi).
    match goal with
    | |- context [storage (Table.order_create ?o) w2] =>
        destruct (storage_sane (Table.order_create o) w2) as [H1 H2];
        [intros d Hd; apply order_create_bound; [reflexivity | exact Hd] | exact Hi2 |]
    end.
    split; [exact H1 |]. intros s Hs. apply H2. rewrite Hgw. exact Hs.
  - apply ok_await; [apply query_sane | intros; exact Logic.I].
Qed.

Lemma handleStripeError_fails (error : StripeThrown) :
  sr_success (handleStripeError error) = false.
Proof. destruct error; reflexivity. Qed.

(** The session the provider answers with is the one it keeps. *)
Definition session_held (r : StripeSessionResult) (w : World G) : Prop :=
  sr_success r = true ->
  exists s, holds (gateway w) s
            /\ sr_sessionId r = Some (session_id s)
            /\ sr_sessionUrl r = nonempty (session_url s).

Lemma stripe_createCheckoutSession_sane (orderId : string) (items : list CartItem)
  (w : World G) :
  ok provider_sane sessions_stay session_held
    (stripe_createCheckoutSession orderId items key) w.
Proof.
  unfold stripe_createCheckoutSession. cbn [bind perform].
  intros w1 _ [Hg Hb]. unfold stripe_sessions_create.
  pose proof (created_good key good holds contract (gateway w1) orderId
                (map to_line_item items) Hg) as Hgood.
  pose proof (created_held key good holds contract (gateway w1) orderId
                (map to_line_item items)) as Hheld.
  pose proof (held_kept key good holds contract (gateway w1) orderId
                (map to_line_item items)) as Hkept.
  destruct (sessions_create (gateway w1) orderId (map to_line_item items) key)
    as [r g'] eqn:Ec.
  cbn [fst snd] in *. unfold provider_sane, sessions_stay. cbn [gateway db with_gateway].
  split; [split; [exact Hgood |] |].
  - intros o sid Hin Hkey Hsid. destruct (Hb o sid Hin Hkey Hsid) as [s [Hs Hid]].
    exists s. split; [apply Hkept; [exact Hg | exact Hs] | exact Hid].
  - split; [intros s Hs; apply Hkept; [exact Hg | exact Hs] |].
    destruct r as [err | session]; cbn [bind ok].
    + intros Hsucc. rewrite handleStripeError_fails in Hsucc. discriminate.
    + intros _. exists session. cbn [gateway with_gateway sr_sessionId sr_sessionUrl].
      split; [apply Hheld; [exact Hg | reflexivity] | split; reflexivity].
Qed.

Lemma updateOrderWithStripeSession_sane (orderId : string) (s : CheckoutSession)
  (w : World G) :
  holds (gateway w) s ->
  ok provider_sane sessions_stay (fun _ _ => True)
    (updateOrderWithStripeSession orderId (Some (session_id s))) w.
Proof.
  intros Hs. unfold updateOrderWithStripeSession, await. cbn [ok].
  intros w1 Hr Hi.
  destruct (storage_sane
              (Table.order_update orderId
                 (mkOrderUpdate (Some PROCESSING) (Some (session_id s)) None None None))
              w1) as [H1 H2];
    [intros d Hd; apply order_update_bound; [apply Hr; exact Hs | exact Hd] | exact Hi |].
  split; [exact H1 | split; [exact H2 |]].
  destruct (fst (storage _ w1)); exact Logic.I.
Qed.

Lemma checkout_steps_4_to_8_sane (items : list CartItem) (w : World G) :
  ok provider_sane sessions_stay answers_url (checkout_steps_4_to_8 items key) w.
Proof.
  unfold checkout_steps_4_to_8.
  apply (ok_bind provider_sane sessions_stay (fun _ _ => True));
    [| apply createOrder_sane].
  intros order w1 _.
  apply (ok_bind provider_sane sessions_stay session_held);
    [| apply stripe_createCheckoutSession_sane].
  intros r w2 Hheld. destruct (sr_success r) eqn:Esucc; cbn [negb].
  - destruct (Hheld Esucc) as [s [Hs [Hid Hurl]]]. rewrite Hid.
    apply (ok_bind provider_sane sessions_stay
             (fun _ w' => True /\ holds (gateway w') s));
      [| apply (ok_frame provider_sane sessions_stay (fun w' => holds (gateway w') s));
         [intros w3 w4 H Hr; apply Hr; exact H
         | exact Hs
         | apply updateOrderWithStripeSession_sane; exact Hs]].
    intros _ w3 [_ Hs3]. simpl. intros oid _. exists s. split; [exact Hs3 | exact Hurl].
  - simpl. intros oid Hoid. discriminate.
Qed.

Lemma createCheckoutSession_sane (req : CreateCheckoutRequest) (w : World G) :
  key <> "" ->
  req_idempotencyKey req = Some key ->
  ok provider_sane sessions_stay answers_url (createCheckoutSession req) w.
Proof.
  intros Hne Hkey. unfold createCheckoutSession.
  apply ok_try_catch; [intros e w' oid Hoid; discriminate |].
  destruct (req_items req) as [[| i0 rest] |];
    try (intros oid Hoid; discriminate).
  destruct (validate (i0 :: rest)) as [items | |];
    [| intros oid Hoid; discriminate | exact Logic.I].
  rewrite Hkey, (nonempty_some key Hne). cbn [bind].
  apply (ok_bind provider_sane sessions_stay
           (fun existing w' =>
              forall o sid, existing = Some o ->
                            nonempty (stripeCheckoutId o) = Some sid ->
                            exists s, holds (gateway w') s /\ session_id s = sid)).
  - intros [existing |] w1 HP; [| apply checkout_steps_4_to_8_sane].
    destruct (nonempty (stripeCheckoutId existing)) as [sid |] eqn:Esid;
      [| apply checkout_steps_4_to_8_sane].
    destruct (HP existing sid eq_refl Esid) as [s [Hs Hid]].
    unfold getCheckoutSession. cbn [bind perform ok].
    intros w2 Hr [Hg Hb]. unfold stripe_sessions_retrieve. cbn [fst snd].
    split; [split; [exact Hg | exact Hb] |].
    split; [intros s0 H; exact H |].
    destruct (sessions_retrieve (gateway w2) sid) as [sess |] eqn:Eret;
      [| apply checkout_steps_4_to_8_sane].
    destruct (nonempty (session_url sess)) as [url |] eqn:Eurl;
      [| apply checkout_steps_4_to_8_sane].
    simpl. intros oid _. exists s. cbn [gateway with_gateway].
    split; [apply Hr; exact Hs |].
    rewrite <- Hid in Eret.
    rewrite <- (retrieved_url key good holds contract (gateway w2) s sess Hg
                  (Hr s Hs) Eret).
    symmetry. exact Eurl.
  - unfold findOrderByIdempotencyKey. apply ok_await; [apply query_sane |].
    intros w1 a [_ Hb] Hret o sid Ho Hsid. apply query_returned in Hret.
    destruct Hret as [Ha Hdb]. subst a.
    unfold Table.order_findUnique in Ho. apply find_some in Ho.
    destruct Ho as [Hin Hm]. simpl in Hm. apply String.eqb_eq in Hm.
    assert (Hgw : gateway (snd (query (Table.order_findUnique (ByIdempotencyKey key)) w1))
                  = gateway w1).
    { unfold query, storage. destruct (faults w1) as [| [|] fs]; reflexivity. }
    rewrite Hgw. apply (Hb o sid); assumption.
Qed.

End SameKeySessions.

(* ===================================================================== *)
(** ** Checkouts racing on one key: the row is created *)

(** The ids the store has yet to draw are new: the supply does not
    repeat itself, and no order carries an id still to come. *)
Definition fresh_ids {G : Type} (w : World G) : Prop :=
  (forall a b, uuid_pool w a = uuid_pool w b -> a = b)
  /\ forall o n, In o (orders (db w)) -> (uuid_next w <= n)%nat ->
                 order_id o <> uuid_pool w n.

(** A request that passes validation, with a total the column takes. *)
Definition storable_request {SC : OrderSchema} (req : CreateCheckoutRequest) : Prop :=
  exists items,
    req_items req = Some (objects items)
    /\ items <> []
    /\ existsb item_rejected items = false
    /\ amount_column (calculateOrderTotal items) <> None.

Lemma order_update_ids (id : string) (u : OrderUpdate) (d : Database) :
  map order_id (orders (snd (Table.order_update id u d))) = map order_id (orders d).
Proof.
  destruct (order_update_rows id u d) as [-> | ->]; [reflexivity |].
  cbn [orders]. rewrite map_map. apply map_ext. intros o.
  destruct (String.eqb (order_id o) id); reflexivity.
Qed.

Section SameKeyRow.

Context {G : Type} {PG : PaymentGateway G} {SC : OrderSchema}.

Variable key : string.

Definition store_ready (w : World G) : Prop := faults w = [] /\ fresh_ids w.

(** An order of the key is there. *)
Definition keyed (w : World G) : Prop := exists id, has_order key id (db w).

Definition row_there {X : Type} (c : Completion X) (w : World G) : Prop := keyed w.

Lemma keyed_lasts (w w' : World G) : keyed w -> rows_stay key w w' -> keyed w'.
Proof. intros [id H] Hr. exists id. apply Hr. exact H. Qed.

(** An action that leaves the tables, the outage plan and the id supply
    alone. *)
Lemma untouched_ready {X : Type} (act : World G -> X * World G) :
  (forall w, db (snd (act w)) = db w /\ faults (snd (act w)) = faults w
             /\ uuid_pool (snd (act w)) = uuid_pool w
             /\ uuid_next (snd (act w)) = uuid_next w) ->
  guarantees store_ready (rows_stay key) act.
Proof.
  intros H w [Hf Hfresh]. destruct (H w) as [Hdb [Hfa [Hp Hn]]].
  unfold store_ready, fresh_ids, rows_stay. rewrite Hdb, Hfa, Hp, Hn.
  split; [split; assumption | intros id Hid; exact Hid].
Qed.

Lemma uuidv4_ready : guarantees store_ready (rows_stay key) (uuidv4 (G := G)).
Proof.
  intros w [Hf [Hinj Hnew]]. unfold store_ready, fresh_ids, rows_stay, uuidv4.
  cbn [snd db faults uuid_pool uuid_next].
  split; [split; [exact Hf | split; [exact Hinj |]] | intros id Hid; exact Hid].
  intros o n Hin Hn. apply Hnew; [exact Hin | lia].
Qed.

(** A storage call that adds no id. *)
Lemma storage_ready {X : Type} (f : Database -> Completion X * Database) :
  (forall d o, In o (orders (snd (f d))) ->
               exists o0, In o0 (orders d) /\ order_id o0 = order_id o) ->
  (forall d id, has_order key id d -> has_order key id (snd (f d))) ->
  guarantees store_ready (rows_stay key) (storage f).
Proof.
  intros Hids Hhas w [Hf [Hinj Hnew]]. rewrite storage_healthy by exact Hf.
  unfold store_ready, fresh_ids, rows_stay. cbn [snd db faults with_db uuid_pool uuid_next].
  split; [split; [exact Hf | split; [exact Hinj |]] | intros id Hid; apply Hhas; exact Hid].
  intros o n Hin Hn. destruct (Hids _ _ Hin) as [o0 [Hin0 <-]].
  apply Hnew; assumption.
Qed.

Lemma query_ready {X : Type} (f : Database -> X) :
  guarantees store_ready (rows_stay key) (query f).
Proof.
  apply storage_ready.
  - intros d o Hin. exists o. split; [exact Hin | reflexivity].
  - intros d id H. exact H.
Qed.

Lemma update_ready (id : string) (u : OrderUpdate) :
  guarantees store_ready (rows_stay key) (storage (Table.order_update id u)).
Proof.
  apply storage_ready.
  - intros d o Hin.
    assert (Hid : In (order_id o) (map order_id (orders d)))
      by (rewrite <- (order_update_ids id u d); apply in_map; exact Hin).
    apply in_map_iff in Hid. destruct Hid as [o0 [Hid Hin0]].
    exists o0. split; assumption.
  - intros d id' H. apply order_update_has_order. exact H.
Qed.

(** The insert of [createOrder], the store up and the ids new: the row
    of the key is there afterwards, inserted now or met by the unique
    index, whenever the column takes the amount. *)
Lemma create_pending_ready (input : CreateOrderInput) (w : World G) :
  store_ready w ->
  store_ready (snd (prisma_order_create_pending input w))
  /\ rows_stay key w (snd (prisma_order_create_pending input w))
  /\ (in_idempotencyKey input = key ->
      amount_column (in_amount input) <> None ->
      keyed (snd (prisma_order_create_pending input w))).
Proof.
  intros [Hf [Hinj Hnew]]. unfold prisma_order_create_pending, uuidv4.
  rewrite storage_healthy by exact Hf.
  cbn [snd db faults with_db uuid_pool uuid_next].
  match goal with
  | |- context [Table.order_create ?o0 (db w)] => set (o := o0)
  end.
  assert (Hid : order_id o = uuid_pool w (uuid_next w)) by reflexivity.
  assert (Hk : idempotencyKey o = in_idempotencyKey input) by reflexivity.
  assert (Ha : amount o = in_amount input) by reflexivity.
  clearbody o.
  unfold store_ready, fresh_ids, rows_stay, keyed.
  cbn [snd db faults with_db uuid_pool uuid_next].
  split; [split; [exact Hf | split; [exact Hinj |]] | split].
  - intros o' n Hin Hn.
    destruct (order_create_rows o (db w)) as [E | [a [_ E]]]; rewrite E in Hin.
    + apply Hnew; [exact Hin | lia].
    + cbn [orders] in Hin. apply in_app_or in Hin.
      destruct Hin as [Hin | [<- | []]]; [apply Hnew; [exact Hin | lia] |].
      cbn [with_amount order_id]. rewrite Hid. intros Heq. apply Hinj in Heq. lia.
  - intros id H. apply order_create_has_order. exact H.
  - intros Hkey Hamount. unfold Table.order_create. rewrite Ha.
    destruct (amount_column (in_amount input)) as [a |]; [| contradiction].
    destruct (existsb _ (orders (db w))) eqn:Eex; cbn [snd].
    + apply existsb_exists in Eex. destruct Eex as [o' [Hin Hclash]].
      apply orb_true_iff in Hclash. destruct Hclash as [Hc | Hc];
        apply String.eqb_eq in Hc.
      * exfalso. apply (Hnew o' (uuid_next w) Hin (Nat.le_refl _)).
        rewrite Hc. exact Hid.
      * exists (order_id o'), o'. split; [exact Hin | split; [reflexivity | congruence]].
    + exists (order_id o), (with_amount a o). split; [| split].
      * cbn [orders]. apply in_or_app. right. left. reflexivity.
      * reflexivity.
      * cbn [with_amount idempotencyKey]. congruence.
Qed.

Lemma createOrder_ready_ok (input : CreateOrderInput) (w : World G) :
  ok store_ready (rows_stay key) (fun _ _ => True) (createOrder input) w.
Proof.
  unfold createOrder.
  apply (ok_bind store_ready (rows_stay key) (fun _ _ => True)).
  - intros [o |] w' _; [exact Logic.I |].
    apply ok_await; [| intros; exact Logic.I].
    intros w1 Hi. destruct (create_pending_ready input w1 Hi) as [H1 [H2 _]].
    split; assumption.
  - apply ok_await; [apply query_ready | intros; exact Logic.I].
Qed.

(** What follows [createOrder] in steps 4 to 8. *)
Lemma session_steps_ready_ok (order : Order) (items : list CartItem) (w : World G) :
  ok store_ready (rows_stay key) (fun _ _ => True)
    (stripeResult <- stripe_createCheckoutSession (order_id order) items key ;;
     if negb (sr_success stripeResult) then
       Done (reply_error 500
               (or_else (nonempty (sr_error stripeResult))
                  "Failed to create checkout session"))
     else
       updateOrderWithStripeSession (order_id order) (sr_sessionId stripeResult) ;;
       Done (reply_session (sr_sessionUrl stripeResult) (order_id order))) w.
Proof.
  apply (ok_bind store_ready (rows_stay key) (fun _ _ => True)).
  - intros r w1 _. destruct (negb (sr_success r)); [exact Logic.I |].
    apply (ok_bind store_ready (rows_stay key) (fun _ _ => True));
      [intros; exact Logic.I |].
    unfold updateOrderWithStripeSession.
    apply ok_await; [apply update_ready | intros; exact Logic.I].
  - unfold stripe_createCheckoutSession.
    apply (ok_bind store_ready (rows_stay key) (fun _ _ => True)).
    + intros [err | s] w1 _; exact Logic.I.
    + apply ok_perform; [| intros; exact Logic.I].
      apply untouched_ready. intros w1. unfold stripe_sessions_create.
      destruct (sessions_create _ _ _ _). repeat split.
Qed.

Lemma checkout_steps_4_to_8_ready_ok (items : list CartItem) (w : World G) :
  ok store_ready (rows_stay key) (fun _ _ => True) (checkout_steps_4_to_8 items key) w.
Proof.
  unfold checkout_steps_4_to_8.
  apply (ok_bind store_ready (rows_stay key) (fun _ _ => True));
    [| apply createOrder_ready_ok].
  intros order w1 _. apply session_steps_ready_ok.
Qed.

(** Steps 4 to 8, the store up and the ids new: however they end, the row
    of the key is there. *)
Lemma checkout_steps_4_to_8_ready (items : list CartItem) (w : World G) :
  amount_column (calculateOrderTotal items) <> None ->
  obeys store_ready (rows_stay key) (fun _ _ => True) row_there
    (checkout_steps_4_to_8 items key) w.
Proof.
  intros Hamount. unfold checkout_steps_4_to_8.
  apply (obeys_bind store_ready (rows_stay key) (fun _ _ => True) row_there row_there).
  - intros order w1 Hrow.
    apply (kept_along store_ready (rows_stay key) keyed);
      [intros w2 w3 H Hr; eapply keyed_lasts; eassumption | exact Hrow |].
    apply session_steps_ready_ok.
  - intros e w1 H. exact H.
  - unfold createOrder. apply obeys_await_bind. intros w1 Hr Hi.
    pose proof (query_ready (Table.order_findUnique (ByIdempotencyKey key)) w1 Hi)
      as [Hi1 Hr1].
    cbn [in_idempotencyKey]. split; [exact Hi1 | split; [exact Hr1 | split; [exact I |]]].
    destruct Hi as [Hf Hfresh]. rewrite query_healthy in * by exact Hf.
    cbn [fst snd] in *.
    destruct (Table.order_findUnique (ByIdempotencyKey key) (db w1)) as [o |] eqn:Efind.
    + cbn [obeys]. exists (order_id o). cbn [db with_db].
      apply find_has_order. exact Efind.
    + apply obeys_await. intros w2 Hr2 Hi2.
      match goal with
      | |- context [prisma_order_create_pending ?i w2] =>
          destruct (create_pending_ready i w2 Hi2) as [H1 [H2 H3]]
      end.
      split; [exact H1 | split; [exact H2 | split; [exact I |]]].
      exact (H3 eq_refl Hamount).
Qed.

(** The controller, for a request that passes validation: however it
    ends, the row of the key is there. *)
Lemma createCheckoutSession_ready (req : CreateCheckoutRequest) (w : World G) :
  key <> "" ->
  req_idempotencyKey req = Some key ->
  storable_request req ->
  obeys store_ready (rows_stay key) (fun _ _ => True) row_there
    (createCheckoutSession req) w.
Proof.
  intros Hne Hkey [items [Hitems [Hnil [Hvalid Hamount]]]].
  unfold createCheckoutSession. rewrite Hitems.
  destruct items as [| i0 rest]; [contradiction |]. cbn [objects map].
  rewrite (validate_cons_objects i0 rest Hvalid).
  rewrite Hkey, (nonempty_some key Hne). cbn [bind].
  apply (obeys_try_catch store_ready (rows_stay key) (fun _ _ => True) row_there row_there);
    [intros a w1 H; exact H | intros e w1 H; exact H |].
  unfold findOrderByIdempotencyKey. apply obeys_await_bind. intros w1 Hr Hi.
  pose proof (query_ready (Table.order_findUnique (ByIdempotencyKey key)) w1 Hi)
    as [Hi1 Hr1].
  split; [exact Hi1 | split; [exact Hr1 | split; [exact I |]]].
  destruct Hi as [Hf Hfresh]. rewrite query_healthy in * by exact Hf.
  cbn [fst snd] in *.
  destruct (Table.order_findUnique (ByIdempotencyKey key) (db w1)) as [existing |] eqn:Efind;
    [| apply checkout_steps_4_to_8_ready; exact Hamount].
  apply (kept_along store_ready (rows_stay key) keyed);
    [intros w2 w3 H Hr3; eapply keyed_lasts; eassumption
    | exists (order_id existing); cbn [db with_db]; apply find_has_order; exact Efind |].
  destruct (nonempty (stripeCheckoutId existing)) as [sid |];
    [| apply checkout_steps_4_to_8_ready_ok].
  apply (ok_bind store_ready (rows_stay key) (fun _ _ => True)).
  - intros [sess |] w2 _; [| apply checkout_steps_4_to_8_ready_ok].
    destruct (nonempty (session_url sess));
      [exact Logic.I | apply checkout_steps_4_to_8_ready_ok].
  - unfold getCheckoutSession. apply ok_perform; [| intros; exact Logic.I].
    apply untouched_ready. intros w2. repeat split.
Qed.

End SameKeyRow.

(* ===================================================================== *)
(** ** Checkouts racing on one key: somebody is answered *)

(** A provider that answers every creation under the key with a session,
    whose id is one of [ids]. *)
Record Obliging {G : Type} {PG : PaymentGateway G} (key : string)
  (good : G -> Prop) (ids : string -> Prop) : Prop := {
  obliging_good :
    forall g oid li, good g -> good (snd (sessions_create g oid li key));
  obliging_answers :
    forall g oid li,
      good g ->
      exists s, fst (sessions_create g oid li key) = inr s /\ ids (session_id s)
}.

Lemma one_order_of_key (key : string) (d : Database) (o1 o2 : Order) :
  (count_orders key d <= 1)%nat ->
  In o1 (orders d) -> In o2 (orders d) ->
  idempotencyKey o1 = key -> idempotencyKey o2 = key ->
  order_id o1 = order_id o2.
Proof.
  intros Hc H1 H2 K1 K2.
  destruct (has_order_found key (order_id o1) d Hc) as [a [Ha Ia]];
    [exists o1; repeat split; assumption |].
  destruct (has_order_found key (order_id o2) d Hc) as [b [Hb Ib]];
    [exists o2; repeat split; assumption |].
  congruence.
Qed.

Section SomeoneIsAnswered.

Context {G : Type} {PG : PaymentGateway G} {SC : OrderSchema}.

Variable key : string.
Variable good : G -> Prop.
Variable ids : string -> Prop.
Hypothesis obliging : Obliging key good ids.

(** The session ids of the key are on orders of the key only, and an
    order that shares its id with an order of the key has the key. *)
Definition own_sessions (d : Database) : Prop :=
  forall o sid,
    In o (orders d) -> ids sid -> opt_str_is (stripeCheckoutId o) sid = true ->
    idempotencyKey o = key.

Definition own_ids (d : Database) : Prop :=
  forall o1 o2,
    In o1 (orders d) -> In o2 (orders d) -> order_id o1 = order_id o2 ->
    idempotencyKey o1 = key -> idempotencyKey o2 = key.

Definition settled_store (w : World G) : Prop :=
  (count_orders key (db w) <= 1)%nat
  /\ store_ready w
  /\ good (gateway w)
  /\ own_sessions (db w)
  /\ own_ids (db w).

(** An answer with an order. *)
Definition is_200 (c : Completion CheckoutReply) (w : World G) : Prop :=
  exists url oid, c = Return (reply_session url oid).

Lemma is_200_lasting : lasting (rows_stay key) is_200.
Proof. intros c w w' H _. exact H. Qed.

(** *** What each action keeps *)

Lemma untouched_settled {X : Type} (act : World G -> X * World G) :
  (forall w, db (snd (act w)) = db w /\ faults (snd (act w)) = faults w
             /\ uuid_pool (snd (act w)) = uuid_pool w
             /\ uuid_next (snd (act w)) = uuid_next w
             /\ gateway (snd (act w)) = gateway w) ->
  guarantees settled_store (rows_stay key) act.
Proof.
  intros H w [Hc [Hready [Hg [Hs Hi]]]].
  destruct (H w) as [Hdb [Hfa [Hp [Hn Hgw]]]].
  destruct (untouched_ready key act
              (fun w0 => let (A, B) := H w0 in
                         let (B1, B2) := B in let (C1, C2) := B2 in
                         let (D1, _) := C2 in conj A (conj B1 (conj C1 D1)))
              w Hready) as [Hready' Hstay].
  split; [| exact Hstay].
  unfold settled_store. rewrite Hdb, Hgw.
  split; [exact Hc | split; [exact Hready' | split; [exact Hg | split; assumption]]].
Qed.

Lemma query_settled {X : Type} (f : Database -> X) :
  guarantees settled_store (rows_stay key) (query f).
Proof.
  intros w [Hc [Hready [Hg [Hs Hi]]]].
  destruct (query_ready key f w Hready) as [Hready' Hstay].
  split; [| exact Hstay]. destruct Hready as [Hf _].
  rewrite query_healthy in * by exact Hf. cbn [snd] in *.
  split; [exact Hc | split; [exact Hready' | split; [exact Hg | split; assumption]]].
Qed.

Lemma create_pending_settled (input : CreateOrderInput) :
  guarantees settled_store (rows_stay key) (prisma_order_create_pending input).
Proof.
  intros w [Hc [Hready [Hg [Hs Hi]]]].
  destruct (create_pending_ready key input w Hready) as [Hready' [Hstay _]].
  split; [| exact Hstay].
  destruct Hready as [Hf [Hinj Hnew]].
  unfold prisma_order_create_pending, uuidv4 in *.
  rewrite storage_healthy in * by exact Hf.
  cbn [snd db faults with_db uuid_pool uuid_next gateway] in *.
  match goal with
  | |- context [Table.order_create ?o0 (db w)] => set (o := o0) in *
  end.
  assert (Hid : order_id o = uuid_pool w (uuid_next w)) by reflexivity.
  assert (Hsid : stripeCheckoutId o = None) by reflexivity.
  clearbody o.
  split; [apply order_create_count; exact Hc |].
  split; [exact Hready' |]. split; [exact Hg |].
  destruct (order_create_rows o (db w)) as [E | [a [_ E]]]; rewrite E;
    [split; assumption |].
  split.
  - intros o' sid Hin Hsid' Hm. cbn [orders] in Hin. apply in_app_or in Hin.
    destruct Hin as [Hin | [<- | []]]; [apply (Hs o' sid); assumption |].
    cbn in Hm. rewrite Hsid in Hm. discriminate.
  - assert (Hfresh : forall o', In o' (orders (db w)) ->
                                order_id o' <> order_id (with_amount a o)).
    { intros o' Hin. cbn [with_amount order_id]. rewrite Hid.
      apply Hnew; [exact Hin | apply Nat.le_refl]. }
    intros o1 o2 H1 H2 Heq Hk. cbn [orders] in H1, H2.
    apply in_app_or in H1. apply in_app_or in H2.
    destruct H1 as [H1 | [<- | []]]; destruct H2 as [H2 | [<- | []]].
    + apply (Hi o1 o2); assumption.
    + exfalso. apply (Hfresh o1 H1). exact Heq.
    + exfalso. apply (Hfresh o2 H2). symmetry. exact Heq.
    + exact Hk.
Qed.

Lemma gateway_settled (orderId : string) (li : list StripeLineItem) :
  guarantees settled_store (rows_stay key) (stripe_sessions_create orderId li key).
Proof.
  intros w [Hc [[Hf Hfresh] [Hg [Hs Hi]]]]. unfold stripe_sessions_create.
  pose proof (obliging_good key good ids obliging (gateway w) orderId li Hg) as Hgood.
  destruct (sessions_create (gateway w) orderId li key) as [r g'].
  cbn [snd] in *. unfold settled_store, store_ready, fresh_ids, rows_stay.
  cbn [db faults gateway with_gateway uuid_pool uuid_next].
  split; [| intros id H; exact H].
  split; [exact Hc | split; [split; assumption | split; [exact Hgood | split; assumption]]].
Qed.

Lemma retrieve_settled (sid : string) :
  guarantees settled_store (rows_stay key) (stripe_sessions_retrieve sid).
Proof. apply untouched_settled. intros w. repeat split. Qed.

(** The update of an order of the key. *)
Lemma update_settled (id : string) (sid : option string) (w : World G) :
  settled_store w ->
  has_order key id (db w) ->
  settled_store
    (snd (storage (Table.order_update id
                     (mkOrderUpdate (Some PROCESSING) sid None None None)) w))
  /\ rows_stay key w
       (snd (storage (Table.order_update id
                        (mkOrderUpdate (Some PROCESSING) sid None None None)) w)).
Proof.
  intros [Hc [Hready [Hg [Hs Hi]]]] [o0 [Hin0 [Hid0 Hk0]]].
  destruct (update_ready key id (mkOrderUpdate (Some PROCESSING) sid None None None)
              w Hready) as [Hready' Hstay].
  split; [| exact Hstay]. destruct Hready as [Hf _].
  rewrite storage_healthy in * by exact Hf. cbn [snd] in *.
  unfold settled_store. cbn [db with_db gateway].
  split; [rewrite order_update_count; exact Hc |].
  split; [exact Hready' |]. split; [exact Hg |].
  destruct (order_update_rows id (mkOrderUpdate (Some PROCESSING) sid None None None)
              (db w)) as [E | E]; rewrite E; [split; assumption |].
  split.
  - intros o' sid' Hin Hsid' Hm. cbn [orders] in Hin. apply in_map_iff in Hin.
    destruct Hin as [o [Ho Hin]].
    destruct (String.eqb (order_id o) id) eqn:Eid; subst o'.
    + apply String.eqb_eq in Eid. cbn [apply_update idempotencyKey].
      apply (Hi o0 o); try assumption. congruence.
    + apply (Hs o sid'); assumption.
  - intros o1 o2 H1 H2 Heq Hk. cbn [orders] in H1, H2.
    apply in_map_iff in H1. apply in_map_iff in H2.
    destruct H1 as [a [Ha H1]]. destruct H2 as [b [Hb H2]].
    assert (Ka : idempotencyKey o1 = idempotencyKey a /\ order_id o1 = order_id a)
      by (subst o1; destruct (String.eqb (order_id a) id); split; reflexivity).
    assert (Kb : idempotencyKey o2 = idempotencyKey b /\ order_id o2 = order_id b)
      by (subst o2; destruct (String.eqb (order_id b) id); split; reflexivity).
    destruct Ka as [Ka1 Ka2]. destruct Kb as [Kb1 Kb2].
    rewrite Kb1. apply (Hi a b); congruence.
Qed.

(** It goes through when the session id is one of the key's. *)
Lemma update_returns (id sid : string) (w : World G) :
  settled_store w ->
  has_order key id (db w) ->
  ids sid ->
  exists o',
    fst (storage (Table.order_update id
                    (mkOrderUpdate (Some PROCESSING) (Some sid) None None None)) w)
    = Return o'.
Proof.
  intros [Hc [[Hf _] [_ [Hs _]]]] [o0 [Hin0 [Hid0 Hk0]]] Hsid.
  rewrite storage_healthy by exact Hf. cbn [fst].
  unfold Table.order_update. cbn [set_stripeCheckoutId].
  destruct (find (order_matches (ById id)) (orders (db w))) as [o |] eqn:Efind.
  - destruct (existsb _ (orders (db w))) eqn:Eclash; [| eexists; reflexivity].
    exfalso. apply existsb_exists in Eclash. destruct Eclash as [o' [Hin' Hm]].
    apply andb_true_iff in Hm. destruct Hm as [Hne Hm].
    pose proof (Hs o' sid Hin' Hsid Hm) as Hk'.
    pose proof (one_order_of_key key (db w) o' o0 Hc Hin' Hin0 Hk' Hk0) as Hsame.
    rewrite Hsame, Hid0, String.eqb_refl in Hne. discriminate.
  - exfalso. pose proof (find_none _ _ Efind o0 Hin0) as Hno. simpl in Hno.
    rewrite Hid0, String.eqb_refl in Hno. discriminate.
Qed.

(** The insert of [createOrder] when no order has the key. *)
Lemma create_pending_inserts (input : CreateOrderInput) (w : World G) :
  settled_store w ->
  ~ keyed key w ->
  in_idempotencyKey input = key ->
  amount_column (in_amount input) <> None ->
  exists order,
    fst (prisma_order_create_pending input w) = Return order
    /\ has_order key (order_id order) (db (snd (prisma_order_create_pending input w))).
Proof.
  intros [_ [[Hf [_ Hnew]] _]] Hnone Hkey Hamount.
  unfold prisma_order_create_pending, uuidv4.
  rewrite storage_healthy by exact Hf. cbn [fst snd db with_db uuid_pool uuid_next].
  match goal with
  | |- context [Table.order_create ?o0 (db w)] => set (o := o0)
  end.
  assert (Hid : order_id o = uuid_pool w (uuid_next w)) by reflexivity.
  assert (Hk : idempotencyKey o = key) by exact Hkey.
  assert (Ha : amount o = in_amount input) by reflexivity.
  clearbody o.
  pose proof (order_create_returned o) as Hret.
  unfold Table.order_create in *. rewrite Ha in *.
  destruct (amount_column (in_amount input)) as [a |]; [| contradiction].
  destruct (existsb _ (orders (db w))) eqn:Eex.
  - exfalso. apply existsb_exists in Eex. destruct Eex as [o' [Hin Hclash]].
    apply orb_true_iff in Hclash. destruct Hclash as [Hcl | Hcl];
      apply String.eqb_eq in Hcl.
    + apply (Hnew o' (uuid_next w) Hin (Nat.le_refl _)). congruence.
    + apply Hnone. exists (order_id o'), o'.
      split; [exact Hin | split; [reflexivity | congruence]].
  - exists (with_amount a o). split; [reflexivity |].
    specialize (Hret (with_amount a o) (db w)). rewrite Eex in Hret.
    rewrite <- Hk. apply Hret. reflexivity.
Qed.

(** *** Every request keeps the store settled *)

Lemma createOrder_settled (input : CreateOrderInput) (w : World G) :
  in_idempotencyKey input = key ->
  ok settled_store (rows_stay key)
    (fun o w' => has_order key (order_id o) (db w')) (createOrder input) w.
Proof.
  intros Hkey. unfold createOrder.
  apply (ok_bind settled_store (rows_stay key)
           (fun existing w' =>
              forall o, existing = Some o -> has_order key (order_id o) (db w'))).
  - intros [o |] w' HP.
    + simpl. apply HP. reflexivity.
    + apply ok_await.
      * apply create_pending_settled.
      * intros w1 a _ Hret. rewrite <- Hkey.
        apply create_pending_returned. exact Hret.
  - apply ok_await.
    + apply query_settled.
    + intros w1 a _ Hret o Ho. apply query_returned in Hret.
      destruct Hret as [Ha Hdb]. rewrite Hdb. rewrite Hkey in Ha.
      apply find_has_order. congruence.
Qed.

(** What follows [createOrder] in steps 4 to 8, as a function of the
    order. *)
Definition session_steps (items : list CartItem) (order : Order) : Async G CheckoutReply :=
  stripeResult <- stripe_createCheckoutSession (order_id order) items key ;;
  if negb (sr_success stripeResult) then
    Done (reply_error 500
            (or_else (nonempty (sr_error stripeResult))
               "Failed to create checkout session"))
  else
    updateOrderWithStripeSession (order_id order) (sr_sessionId stripeResult) ;;
    Done (reply_session (sr_sessionUrl stripeResult) (order_id order)).

Lemma checkout_steps_4_to_8_unfold (items : list CartItem) :
  checkout_steps_4_to_8 items key
  = (order <- createOrder (mkCreateOrderInput items key (calculateOrderTotal items)
                             (Some "usd")) ;;
     session_steps items order).
Proof. reflexivity. Qed.

Lemma session_steps_settled (items : list CartItem) (order : Order) (w : World G) :
  has_order key (order_id order) (db w) ->
  ok settled_store (rows_stay key) (fun _ _ => True) (session_steps items order) w.
Proof.
  intros Hrow. unfold session_steps.
  apply (ok_bind settled_store (rows_stay key)
           (fun _ w' => True /\ has_order key (order_id order) (db w'))).
  - intros r w1 [_ Hrow1]. destruct (negb (sr_success r)); [exact Logic.I |].
    apply (ok_bind settled_store (rows_stay key) (fun _ _ => True));
      [intros; exact Logic.I |].
    unfold updateOrderWithStripeSession, await. cbn [ok]. intros w2 Hr2 Hi2.
    destruct (update_settled (order_id order) (sr_sessionId r) w2 Hi2 (Hr2 _ Hrow1))
      as [H1 H2].
    split; [exact H1 | split; [exact H2 |]].
    destruct (fst (storage _ w2)); exact Logic.I.
  - apply (ok_frame settled_store (rows_stay key)
             (fun w' => has_order key (order_id order) (db w')));
      [intros w1 w2 H Hr; apply Hr; exact H | exact Hrow |].
    unfold stripe_createCheckoutSession.
    apply (ok_bind settled_store (rows_stay key) (fun _ _ => True)).
    + intros [err | s] w1 _; exact Logic.I.
    + apply ok_perform; [apply gateway_settled | intros; exact Logic.I].
Qed.

Lemma checkout_steps_4_to_8_settled (items : list CartItem) (w : World G) :
  ok settled_store (rows_stay key) (fun _ _ => True) (checkout_steps_4_to_8 items key) w.
Proof.
  rewrite checkout_steps_4_to_8_unfold.
  apply (ok_bind settled_store (rows_stay key)
           (fun o w' => has_order key (order_id o) (db w')));
    [| apply createOrder_settled; reflexivity].
  intros order w1 Hrow. apply session_steps_settled. exact Hrow.
Qed.

Lemma createCheckoutSession_settled (req : CreateCheckoutRequest) (w : World G) :
  key <> "" ->
  req_idempotencyKey req = Some key ->
  ok settled_store (rows_stay key) (fun _ _ => True) (createCheckoutSession req) w.
Proof.
  intros Hne Hkey. unfold createCheckoutSession.
  apply ok_try_catch; [intros; exact Logic.I |].
  destruct (req_items req) as [[| i0 rest] |]; try exact Logic.I.
  destruct (validate (i0 :: rest)) as [items | |]; try exact Logic.I.
  rewrite Hkey, (nonempty_some key Hne). cbn [bind].
  apply (ok_bind settled_store (rows_stay key) (fun _ _ => True)).
  - intros [existing |] w1 _; [| apply checkout_steps_4_to_8_settled].
    destruct (nonempty (stripeCheckoutId existing)) as [sid |];
      [| apply checkout_steps_4_to_8_settled].
    apply (ok_bind settled_store (rows_stay key) (fun _ _ => True)).
    + intros [sess |] w2 _; [| apply checkout_steps_4_to_8_settled].
      destruct (nonempty (session_url sess));
        [exact Logic.I | apply checkout_steps_4_to_8_settled].
    + unfold getCheckoutSession. apply ok_perform; [| intros; exact Logic.I].
      apply retrieve_settled.
  - unfold findOrderByIdempotencyKey.
    apply ok_await; [apply query_settled | intros; exact Logic.I].
Qed.

(** *** Once the order of the key is there, a request is answered with
    it *)

Lemma session_steps_200 (items : list CartItem) (order : Order) (w : World G) :
  has_order key (order_id order) (db w) ->
  obeys settled_store (rows_stay key) (fun _ _ => True) is_200
    (session_steps items order) w.
Proof.
  intros Hrow. unfold session_steps, stripe_createCheckoutSession.
  cbn [bind perform obeys]. intros w1 Hr1 Hi1.
  destruct (gateway_settled (order_id order) (map to_line_item items) w1 Hi1)
    as [Hi1' Hr1'].
  split; [exact Hi1' | split; [exact Hr1' | split; [exact I |]]].
  assert (Hgood : good (gateway w1)) by (destruct Hi1 as [_ [_ [Hg _]]]; exact Hg).
  destruct (obliging_answers key good ids obliging (gateway w1) (order_id order)
              (map to_line_item items) Hgood) as [s [Hs Hids]].
  unfold stripe_sessions_create in *.
  destruct (sessions_create (gateway w1) (order_id order) (map to_line_item items) key)
    as [r g'].
  cbn [fst snd] in *. subst r.
  cbn [bind sr_success negb sr_sessionId sr_sessionUrl].
  unfold updateOrderWithStripeSession. apply obeys_await_bind. intros w2 Hr2 Hi2.
  assert (Hrow2 : has_order key (order_id order) (db w2))
    by (apply Hr2, Hr1', Hr1, Hrow).
  destruct (update_settled (order_id order) (Some (session_id s)) w2 Hi2 Hrow2)
    as [H1 H2].
  split; [exact H1 | split; [exact H2 | split; [exact I |]]].
  destruct (update_returns (order_id order) (session_id s) w2 Hi2 Hrow2 Hids)
    as [o' Ho'].
  rewrite Ho'. cbn [obeys]. eexists. eexists. reflexivity.
Qed.

Lemma keyed_found (w : World G) :
  settled_store w -> keyed key w ->
  exists o, Table.order_findUnique (ByIdempotencyKey key) (db w) = Some o
            /\ has_order key (order_id o) (db w).
Proof.
  intros [Hc _] [id Hrow].
  destruct (has_order_found key id (db w) Hc Hrow) as [o [Ho _]].
  exists o. split; [exact Ho | apply find_has_order; exact Ho].
Qed.

Lemma query_step (f : Database -> option Order) (w : World G) :
  settled_store w ->
  fst (query f w) = Return (f (db w)) /\ db (snd (query f w)) = db w.
Proof.
  intros [_ [[Hf _] _]]. rewrite query_healthy by exact Hf. split; reflexivity.
Qed.

Lemma checkout_steps_4_to_8_200 (items : list CartItem) (w : World G) :
  keyed key w ->
  obeys settled_store (rows_stay key) (fun _ _ => True) is_200
    (checkout_steps_4_to_8 items key) w.
Proof.
  intros Hkeyed. rewrite checkout_steps_4_to_8_unfold. unfold createOrder.
  cbn [in_idempotencyKey bind await obeys]. intros w1 Hr1 Hi1.
  destruct (query_settled (Table.order_findUnique (ByIdempotencyKey key)) w1 Hi1)
    as [Hi1' Hr1'].
  split; [exact Hi1' | split; [exact Hr1' | split; [exact I |]]].
  destruct (query_step (Table.order_findUnique (ByIdempotencyKey key)) w1 Hi1)
    as [Hres Hdb].
  rewrite Hres.
  destruct (keyed_found w1 Hi1 (keyed_lasts key w w1 Hkeyed Hr1)) as [o [Ho Hrow]].
  rewrite Ho. cbn [bind]. apply session_steps_200. rewrite Hdb. exact Hrow.
Qed.

Lemma createCheckoutSession_200 (req : CreateCheckoutRequest) (w : World G) :
  key <> "" ->
  req_idempotencyKey req = Some key ->
  storable_request req ->
  keyed key w ->
  obeys settled_store (rows_stay key) (fun _ _ => True) is_200
    (createCheckoutSession req) w.
Proof.
  intros Hne Hkey [items [Hitems [Hnil [Hvalid _]]]] Hkeyed.
  unfold createCheckoutSession. rewrite Hitems.
  destruct items as [| i0 rest]; [contradiction |]. cbn [objects map].
  rewrite (validate_cons_objects i0 rest Hvalid).
  rewrite Hkey, (nonempty_some key Hne). cbn [bind].
  apply (obeys_try_catch settled_store (rows_stay key) (fun _ _ => True) is_200 is_200);
    [intros a w1 H; exact H
    | intros e w1 [url [oid H]]; discriminate H |].
  unfold findOrderByIdempotencyKey. cbn [bind await obeys]. intros w1 Hr1 Hi1.
  destruct (query_settled (Table.order_findUnique (ByIdempotencyKey key)) w1 Hi1)
    as [Hi1' Hr1'].
  split; [exact Hi1' | split; [exact Hr1' | split; [exact I |]]].
  destruct (query_step (Table.order_findUnique (ByIdempotencyKey key)) w1 Hi1)
    as [Hres Hdb].
  rewrite Hres.
  assert (Hkeyed1 : keyed key (snd (query (Table.order_findUnique (ByIdempotencyKey key)) w1))).
  { destruct (keyed_lasts key w w1 Hkeyed Hr1) as [id Hrow]. exists id.
    rewrite Hdb. exact Hrow. }
  destruct (keyed_found w1 Hi1 (keyed_lasts key w w1 Hkeyed Hr1)) as [o [Ho _]].
  rewrite Ho. cbn [bind].
  destruct (nonempty (stripeCheckoutId o)) as [sid |];
    [| apply checkout_steps_4_to_8_200; exact Hkeyed1].
  unfold getCheckoutSession. cbn [bind perform obeys]. intros w2 Hr2 Hi2.
  destruct (retrieve_settled sid w2 Hi2) as [Hi2' Hr2'].
  split; [exact Hi2' | split; [exact Hr2' | split; [exact I |]]].
  assert (Hkeyed2 : keyed key (snd (stripe_sessions_retrieve sid w2)))
    by (eapply keyed_lasts; [eapply keyed_lasts; [exact Hkeyed1 | exact Hr2] | exact Hr2']).
  destruct (fst (stripe_sessions_retrieve sid w2)) as [sess |];
    [| apply checkout_steps_4_to_8_200; exact Hkeyed2].
  destruct (nonempty (session_url sess)) as [url |];
    [| apply checkout_steps_4_to_8_200; exact Hkeyed2].
  cbn [obeys]. eexists. eexists. reflexivity.
Qed.


(** *** While no order has the key *)

(** A request that has not ended and, moving while no order has the key,
    either leaves it so or becomes one that will be answered with the
    order. *)
Fixpoint before_insert (p : Async G CheckoutReply) : Prop :=
  match p with
  | Step act k =>
      forall w1, settled_store w1 -> ~ keyed key w1 ->
                 (~ keyed key (snd (act w1)) /\ before_insert (k (fst (act w1))))
                 \/ (keyed key (snd (act w1))
                     /\ obeys settled_store (rows_stay key) (fun _ _ => True) is_200
                          (k (fst (act w1))) (snd (act w1)))
  | _ => False
  end.

Lemma not_keyed_not_found (w : World G) :
  ~ keyed key w -> Table.order_findUnique (ByIdempotencyKey key) (db w) = None.
Proof.
  intros Hnone.
  destruct (Table.order_findUnique (ByIdempotencyKey key) (db w)) as [o |] eqn:E;
    [| reflexivity].
  exfalso. apply Hnone. exists (order_id o). apply find_has_order. exact E.
Qed.

Lemma createCheckoutSession_before_insert (req : CreateCheckoutRequest) :
  key <> "" ->
  req_idempotencyKey req = Some key ->
  storable_request req ->
  before_insert (createCheckoutSession req).
Proof.
  intros Hne Hkey [items [Hitems [Hnil [Hvalid Hamount]]]].
  unfold createCheckoutSession. rewrite Hitems.
  destruct items as [| i0 rest]; [contradiction |]. cbn [objects map].
  rewrite (validate_cons_objects i0 rest Hvalid).
  rewrite Hkey, (nonempty_some key Hne). cbn [bind].
  unfold findOrderByIdempotencyKey. cbn [bind await try_catch before_insert].
  intros w1 Hi1 Hnone1. left.
  destruct (query_step (Table.order_findUnique (ByIdempotencyKey key)) w1 Hi1)
    as [Hres1 Hdb1].
  split; [intros [id Hrow]; apply Hnone1; exists id; rewrite <- Hdb1; exact Hrow |].
  rewrite Hres1, (not_keyed_not_found w1 Hnone1). cbn [bind try_catch].
  rewrite checkout_steps_4_to_8_unfold. unfold createOrder.
  cbn [in_idempotencyKey bind await try_catch before_insert].
  intros w2 Hi2 Hnone2. left.
  destruct (query_step (Table.order_findUnique (ByIdempotencyKey key)) w2 Hi2)
    as [Hres2 Hdb2].
  split; [intros [id Hrow]; apply Hnone2; exists id; rewrite <- Hdb2; exact Hrow |].
  rewrite Hres2, (not_keyed_not_found w2 Hnone2). cbn [bind await try_catch before_insert].
  intros w3 Hi3 Hnone3. right.
  destruct (create_pending_inserts
              (mkCreateOrderInput (i0 :: rest) key (calculateOrderTotal (i0 :: rest))
                 (Some "usd")) w3 Hi3 Hnone3 eq_refl Hamount) as [order [Hret Hrow]].
  split; [exists (order_id order); exact Hrow |].
  rewrite Hret. cbn [bind try_catch].
  apply (obeys_try_catch settled_store (rows_stay key) (fun _ _ => True) is_200 is_200);
    [intros a w4 H; exact H
    | intros e w4 [url [oid H]]; discriminate H |].
  apply session_steps_200. exact Hrow.
Qed.

(** Some request of the pool will be answered with the order. *)
Definition someone (pool : list (Async G CheckoutReply)) (w : World G) : Prop :=
  (keyed key w
   /\ exists i p,
        nth_error pool i = Some p
        /\ obeys settled_store (rows_stay key) (fun _ _ => True) is_200 p w)
  \/ (~ keyed key w /\ forall p, In p pool -> before_insert p).

Lemma In_replace_nth {B : Type} (i : nat) (x y : B) (l : list B) :
  In y (replace_nth i x l) -> y = x \/ In y l.
Proof.
  revert i. induction l as [| h t IH]; intros [| i']; simpl; intros H;
    try (destruct H); auto.
  destruct (IH i' H) as [-> | Hin]; auto.
Qed.

Definition settled_pool (pool : list (Async G CheckoutReply)) (w : World G) : Prop :=
  pool_obeys settled_store (rows_stay key) (fun _ _ _ => True) (fun _ _ _ => True) pool w.

Lemma step_thread_someone (i : nat) (pool : list (Async G CheckoutReply)) (w : World G) :
  settled_store w -> settled_pool pool w -> someone pool w ->
  someone (fst (step_thread i pool w)) (snd (step_thread i pool w)).
Proof.
  intros Hi Hpool Hsome.
  destruct (step_thread_obeys settled_store (rows_stay key)
              (rows_stay_refl key) (rows_stay_trans key)
              (fun _ _ _ => True) (fun _ _ _ => True)
              (fun _ _ => Logic.I) (fun _ _ _ _ _ _ => Logic.I)
              i pool w Hi Hpool) as [Hi' [Hr' _]].
  unfold step_thread in *.
  destruct (nth_error pool i) as [[a | e | X act k] |] eqn:E; try exact Hsome.
  destruct (act w) as [x w'] eqn:Eact. cbn [fst snd] in *.
  destruct Hsome as [[Hkeyed [j [p [Hj Hp]]]] | [Hnone Hall]].
  - left. split; [eapply keyed_lasts; eassumption |].
    destruct (Nat.eq_dec i j) as [<- | Hne].
    + exists i, (k x). split; [eapply nth_error_replace_nth_eq; exact E |].
      rewrite E in Hj. injection Hj as <-. cbn [obeys] in Hp.
      destruct (Hp w (rows_stay_refl key w) Hi) as [_ [_ [_ H]]].
      rewrite Eact in H. exact H.
    + exists j, p. split; [rewrite nth_error_replace_nth_neq by exact Hne; exact Hj |].
      eapply (obeys_lasting settled_store (rows_stay key) (rows_stay_trans key));
        [exact is_200_lasting | exact Hp | exact Hr'].
  - assert (Hpre : before_insert (Step act k))
      by (apply Hall; eapply nth_error_In; exact E).
    cbn [before_insert] in Hpre. specialize (Hpre w Hi Hnone). rewrite Eact in Hpre.
    cbn [fst snd] in Hpre.
    destruct Hpre as [[Hnone' Hk] | [Hkeyed' Hk]].
    + right. split; [exact Hnone' |]. intros p Hin.
      apply In_replace_nth in Hin. destruct Hin as [-> | Hin]; [exact Hk | apply Hall; exact Hin].
    + left. split; [exact Hkeyed' |]. exists i, (k x).
      split; [eapply nth_error_replace_nth_eq; exact E | exact Hk].
Qed.

Lemma run_schedule_someone (schedule : list nat) :
  forall (pool : list (Async G CheckoutReply)) (w : World G),
    settled_store w -> settled_pool pool w -> someone pool w ->
    someone (fst (run_schedule schedule pool w)) (snd (run_schedule schedule pool w)).
Proof.
  induction schedule as [| i rest IH]; intros pool w Hi Hpool Hsome; simpl.
  - exact Hsome.
  - pose proof (step_thread_someone i pool w Hi Hpool Hsome) as Hsome'.
    destruct (step_thread_obeys settled_store (rows_stay key)
                (rows_stay_refl key) (rows_stay_trans key)
                (fun _ _ _ => True) (fun _ _ _ => True)
                (fun _ _ => Logic.I) (fun _ _ _ _ _ _ => Logic.I)
                i pool w Hi Hpool) as [Hi' [_ [_ Hpool']]].
    destruct (step_thread i pool w) as [pool' w']. cbn [fst snd] in *.
    apply IH; assumption.
Qed.

Lemma count_orders_keyed (w : World G) :
  (1 <= count_orders key (db w))%nat -> keyed key w.
Proof.
  unfold count_orders, keyed, has_order. intros H.
  destruct (filter (order_matches (ByIdempotencyKey key)) (orders (db w)))
    as [| o l] eqn:E; [simpl in H; lia |].
  assert (Hin : In o (filter (order_matches (ByIdempotencyKey key)) (orders (db w))))
    by (rewrite E; left; reflexivity).
  apply filter_In in Hin. destruct Hin as [Hin Hm]. simpl in Hm.
  apply String.eqb_eq in Hm. exists (order_id o), o. repeat split; assumption.
Qed.

(** With the store up, ids drawn new, requests that pass validation with
    a storable total and an obliging provider: once every request has
    ended, one of them has been answered with an order. *)
Lemma someone_is_answered (reqs : list CreateCheckoutRequest) (schedule : list nat)
  (w : World G) :
  key <> "" ->
  (forall req, In req reqs -> req_idempotencyKey req = Some key) ->
  (forall req, In req reqs -> storable_request req) ->
  reqs <> [] ->
  settled_store w ->
  let r := run_schedule schedule (map createCheckoutSession reqs) w in
  (forall p, In p (fst r) -> outcome p <> None) ->
  exists p url oid,
    In p (fst r) /\ outcome p = Some (Return (reply_session url oid)).
Proof.
  intros Hne Hkeys Hvalid Hnil Hi. cbv zeta. intros Hended.
  assert (Hpool : settled_pool (map createCheckoutSession reqs) w).
  { intros i p Hp. apply nth_error_In in Hp. apply in_map_iff in Hp.
    destruct Hp as [req [<- Hreq]]. apply ok_obeys.
    apply createCheckoutSession_settled; [exact Hne | apply Hkeys; exact Hreq]. }
  assert (Hsome : someone (map createCheckoutSession reqs) w).
  { destruct (count_orders key (db w)) as [| n] eqn:Ec.
    - right. split.
      + intros [id Hrow]. pose proof (has_order_counted key id _ Hrow). lia.
      + intros p Hin. apply in_map_iff in Hin. destruct Hin as [req [<- Hreq]].
        apply createCheckoutSession_before_insert;
          [exact Hne | apply Hkeys; exact Hreq | apply Hvalid; exact Hreq].
    - assert (Hkeyed : keyed key w) by (apply count_orders_keyed; lia).
      left. split; [exact Hkeyed |].
      destruct reqs as [| req0 rest]; [contradiction |].
      exists 0%nat, (createCheckoutSession req0). split; [reflexivity |].
      apply createCheckoutSession_200;
        [exact Hne | apply Hkeys; left; reflexivity
        | apply Hvalid; left; reflexivity | exact Hkeyed]. }
  pose proof (run_schedule_someone schedule _ w Hi Hpool Hsome) as Hfinal.
  set (r := run_schedule schedule (map createCheckoutSession reqs) w) in *.
  destruct Hfinal as [[_ [i [p [Hp Hobeys]]]] | [_ Hall]].
  - assert (Hin : In p (fst r)) by (eapply nth_error_In; exact Hp).
    specialize (Hended p Hin).
    destruct p as [a | e | X act k]; cbn [obeys outcome] in *.
    + destruct Hobeys as [url [oid H]]. injection H as ->.
      exists (Done (reply_session url oid)), url, oid. split; [exact Hin | reflexivity].
    + destruct Hobeys as [url [oid H]]. discriminate H.
    + contradiction.
  - exfalso.
    assert (Hlen : forall (s : list nat) (pool : list (Async G CheckoutReply)) (w0 : World G),
               List.length (fst (run_schedule s pool w0)) = List.length pool).
    { induction s as [| j s IH]; intros pool w0; simpl; [reflexivity |].
      unfold step_thread.
      destruct (nth_error pool j) as [[a | e | X act k] |]; try apply IH.
      destruct (act w0) as [x w1]. rewrite IH.
      clear. revert j. induction pool as [| h t IHt]; intros [| j']; simpl;
        try reflexivity. rewrite IHt. reflexivity. }
    specialize (Hlen schedule (map createCheckoutSession reqs) w).
    fold r in Hlen. rewrite length_map in Hlen.
    destruct (fst r) as [| p0 rest] eqn:Er.
    + destruct reqs; [contradiction | discriminate Hlen].
    + pose proof (Hall p0 (or_introl eq_refl)) as Hpre.
      pose proof (Hended p0 (or_introl eq_refl)) as Hend.
      destruct p0 as [a | e | X act k]; cbn [before_insert outcome] in *;
        [exact Hpre | exact Hpre | contradiction].
Qed.

End SomeoneIsAnswered.

Section ConcurrentCheckoutSessions.

Context {G : Type} {PG : PaymentGateway G} {SC : OrderSchema}.

(** C4, as the code has it.  Let any number of checkout requests carrying
    one idempotency key run interleaved in any way, whatever the gateway
    answers and whichever storage calls fail, on tables holding at most
    one order of that key.
    - At every moment at most one order row carries the key; once a caller
      has been answered with an order id there is exactly one, and the id
      answered is the id of that row: the callers answered with an order
      observe the same order id.
    - If the provider keeps one session under the key ([KeyedSessions]),
      and the session id stored on the order of the key, if any, is that
      session's, then the callers answered with an order observe the same
      session URL.
    - With the store up and the ids it draws new, if every request passes
      validation with a total the column takes, then once any caller has
      been answered exactly one order row carries the key.
    - If moreover the provider answers every creation under the key with
      a session ([Obliging]) whose id no order of another key carries,
      then once every caller has been answered, one of them has been
      answered with an order.
    (Another may be answered 500 and observe neither order id nor URL:
    the conflict on the unique index is not caught.) *)
Theorem concurrent_checkouts_share_one_order
  (key : string) (reqs : list CreateCheckoutRequest) (schedule : list nat) (w : World G) :
  key <> "" ->
  (forall req, In req reqs -> req_idempotencyKey req = Some key) ->
  (count_orders key (db w) <= 1)%nat ->
  let r := run_schedule schedule (map createCheckoutSession reqs) w in
  (count_orders key (db (snd r)) <= 1)%nat
  /\ (forall p reply oid,
         In p (fst r) ->
         outcome p = Some (Return reply) ->
         res_orderId (reply_json reply) = Some oid ->
         count_orders key (db (snd r)) = 1%nat
         /\ exists o,
              Table.order_findUnique (ByIdempotencyKey key) (db (snd r)) = Some o
              /\ order_id o = oid)
  /\ (forall p1 p2 reply1 reply2 oid1 oid2,
         In p1 (fst r) -> In p2 (fst r) ->
         outcome p1 = Some (Return reply1) ->
         outcome p2 = Some (Return reply2) ->
         res_orderId (reply_json reply1) = Some oid1 ->
         res_orderId (reply_json reply2) = Some oid2 ->
         oid1 = oid2)
  /\ (forall (good : G -> Prop) (holds : G -> CheckoutSession -> Prop),
         KeyedSessions key good holds ->
         good (gateway w) ->
         bound_in key holds (gateway w) (db w) ->
         forall p1 p2 reply1 reply2 oid1 oid2,
           In p1 (fst r) -> In p2 (fst r) ->
           outcome p1 = Some (Return reply1) ->
           outcome p2 = Some (Return reply2) ->
           res_orderId (reply_json reply1) = Some oid1 ->
           res_orderId (reply_json reply2) = Some oid2 ->
           res_sessionUrl (reply_json reply1) = res_sessionUrl (reply_json reply2))
  /\ (faults w = [] ->
      fresh_ids w ->
      (forall req, In req reqs -> storable_request req) ->
      forall p reply,
        In p (fst r) ->
        outcome p = Some (Return reply) ->
        count_orders key (db (snd r)) = 1%nat)
  /\ (forall (good : G -> Prop) (ids : string -> Prop),
         Obliging key good ids ->
         faults w = [] ->
         fresh_ids w ->
         good (gateway w) ->
         own_sessions key ids (db w) ->
         own_ids key (db w) ->
         (forall req, In req reqs -> storable_request req) ->
         reqs <> [] ->
         (forall p, In p (fst r) -> outcome p <> None) ->
         exists p url oid,
           In p (fst r) /\ outcome p = Some (Return (reply_session url oid))).
Proof.
  intros Hne Hkeys Hcount. cbv zeta.
  destruct (concurrent_checkouts_one_order_id key reqs schedule w Hne Hkeys Hcount)
    as [Hone [Hrow Hids]].
  split; [exact Hone |]. split; [exact Hrow |]. split; [exact Hids |].
  split; [| split].
  - intros good holds Hcontract Hgood Hbound.
    assert (Hpool : Forall (fun p => ok (provider_sane key good holds)
                                       (sessions_stay holds) (answers_url holds) p w)
                      (map createCheckoutSession reqs)).
    { apply Forall_forall. intros p Hin. apply in_map_iff in Hin.
      destruct Hin as [req [<- Hreq]].
      apply createCheckoutSession_sane;
        [exact Hcontract | exact Hne | apply Hkeys; exact Hreq]. }
    destruct (run_schedule_ok (provider_sane key good holds) (sessions_stay holds)
                (sessions_stay_refl holds) (sessions_stay_trans holds)
                (answers_url holds) schedule (answers_url_stable holds)
                (map createCheckoutSession reqs) w (conj Hgood Hbound) Hpool)
      as [[Hgood' _] [_ Hfinal]].
    intros p1 p2 reply1 reply2 oid1 oid2 Hin1 Hin2 Hout1 Hout2 Hoid1 Hoid2.
    rewrite Forall_forall in Hfinal.
    pose proof (Hfinal p1 Hin1) as Hq1. pose proof (Hfinal p2 Hin2) as Hq2.
    destruct p1 as [a1 | e1 | X1 act1 k1]; simpl in Hout1; try discriminate.
    destruct p2 as [a2 | e2 | X2 act2 k2]; simpl in Hout2; try discriminate.
    injection Hout1 as ->. injection Hout2 as ->. simpl in Hq1, Hq2.
    destruct (Hq1 oid1 Hoid1) as [s1 [Hs1 Hurl1]].
    destruct (Hq2 oid2 Hoid2) as [s2 [Hs2 Hurl2]].
    rewrite Hurl1, Hurl2.
    rewrite (held_one key good holds Hcontract _ s1 s2 Hgood' Hs1 Hs2). reflexivity.
  - intros Hf Hfresh Hvalid p reply Hin Hout.
    assert (Hpool : pool_obeys (store_ready (G := G)) (rows_stay key)
                      (fun _ _ _ => True) (fun _ => row_there key)
                      (map createCheckoutSession reqs) w).
    { intros i q Hq. apply nth_error_In in Hq. apply in_map_iff in Hq.
      destruct Hq as [req [<- Hreq]].
      apply createCheckoutSession_ready;
        [exact Hne | apply Hkeys; exact Hreq | apply Hvalid; exact Hreq]. }
    destruct (run_schedule_obeys (store_ready (G := G)) (rows_stay key)
                (rows_stay_refl key) (rows_stay_trans key)
                (fun _ _ _ => True) (fun _ => row_there key)
                (fun _ _ => Logic.I)
                (fun _ c w1 w2 H Hr => keyed_lasts key w1 w2 H Hr)
                schedule (map createCheckoutSession reqs) w (conj Hf Hfresh) Hpool)
      as [_ [_ [_ Hfinal]]].
    apply In_nth_error in Hin. destruct Hin as [i Hi].
    pose proof (Hfinal i p Hi) as Hp.
    destruct p as [a | e | X act k]; simpl in Hout; try discriminate.
    simpl in Hp. destruct Hp as [id Hrow1].
    pose proof (has_order_counted key id _ Hrow1). lia.
  - intros good ids Hobliging Hf Hfresh Hgood Hsessions Hown Hvalid Hnil Hended.
    apply (someone_is_answered key good ids Hobliging reqs schedule w Hne Hkeys Hvalid Hnil);
      [| exact Hended].
    split; [exact Hcount |]. split; [split; assumption |].
    split; [exact Hgood | split; assumption].
Qed.

End ConcurrentCheckoutSessions.

(** The demonstration provider keeps one session under a key, and the
    demonstration store draws new ids. *)
Definition demo_session (key : string) : CheckoutSession :=
  mkSession ("cs_" ++ key) (Some ("https://checkout.example/" ++ key)) PI_null None.

Definition demo_good (g : Demo.Provider) : Prop :=
  forall k s, In (k, s) g -> s = demo_session k.

Definition demo_holds (key : string) (g : Demo.Provider) (s : CheckoutSession) : Prop :=
  Demo.lookup_key key g = Some s.

Lemma demo_lookup_key_in (key : string) (g : Demo.Provider) (s : CheckoutSession) :
  Demo.lookup_key key g = Some s -> In (key, s) g.
Proof.
  unfold Demo.lookup_key. destruct (find _ g) as [[k s0] |] eqn:E; [| discriminate].
  intros H. injection H as <-. apply find_some in E. destruct E as [Hin Hk].
  simpl in Hk. apply String.eqb_eq in Hk. subst k. exact Hin.
Qed.

Lemma demo_lookup_key_added (key : string) (g : Demo.Provider) (s : CheckoutSession) :
  Demo.lookup_key key g = None ->
  Demo.lookup_key key (g ++ [(key, s)])%list = Some s.
Proof.
  unfold Demo.lookup_key. induction g as [| [k s0] g IH]; simpl.
  - rewrite String.eqb_refl. reflexivity.
  - destruct (String.eqb k key); [discriminate | exact IH].
Qed.

Lemma demo_keyed_sessions (key : string) :
  KeyedSessions key demo_good (demo_holds key).
Proof.
  constructor; unfold demo_holds; cbn [sessions_create sessions_retrieve Demo.gateway].
  - intros g oid li Hg. unfold Demo.create.
    destruct (Demo.lookup_key key g); cbn [snd]; [exact Hg |].
    intros k s Hin. apply in_app_or in Hin.
    destruct Hin as [Hin | [Heq | []]]; [apply Hg; exact Hin |].
    injection Heq as <- <-. reflexivity.
  - intros g oid li s Hg. unfold Demo.create.
    destruct (Demo.lookup_key key g) as [s0 |] eqn:E; cbn [fst snd]; intros H;
      injection H as <-; [exact E | apply demo_lookup_key_added; exact E].
  - intros g oid li s Hg Hs. unfold Demo.create. rewrite Hs. exact Hs.
  - intros g s s' _ H1 H2. congruence.
  - intros g s s' Hg Hs Hr. unfold Demo.retrieve in Hr.
    destruct (find _ g) as [[k s0] |] eqn:E; [| discriminate].
    injection Hr as <-. apply find_some in E. destruct E as [Hin Hid].
    cbn [snd] in Hid. apply String.eqb_eq in Hid.
    rewrite (Hg k s0 Hin) in *.
    rewrite (Hg key s (demo_lookup_key_in key g s Hs)) in *.
    cbn in Hid. injection Hid as ->. reflexivity.
Qed.

Definition demo_ids (key : string) (sid : string) : Prop := sid = "cs_" ++ key.

Lemma demo_obliging (key : string) : Obliging key demo_good (demo_ids key).
Proof.
  constructor; cbn [sessions_create Demo.gateway].
  - apply (created_good key demo_good (demo_holds key) (demo_keyed_sessions key)).
  - intros g oid li Hg. unfold Demo.create, demo_ids.
    destruct (Demo.lookup_key key g) as [s |] eqn:E; cbn [fst].
    + exists s. split; [reflexivity |].
      rewrite (Hg key s (demo_lookup_key_in key g s E)). reflexivity.
    + eexists. split; reflexivity.
Qed.

Lemma to_uint_not_nil (n : nat) : Nat.to_uint n <> Decimal.Nil.
Proof.
  intros H. pose proof (Unsigned.to_of (Nat.to_uint n)) as E.
  rewrite Unsigned.of_to, H in E. discriminate E.
Qed.

Lemma demo_uuids_injective (a b : nat) : Demo.uuids a = Demo.uuids b -> a = b.
Proof.
  unfold Demo.uuids. intros H. cbn in H. injection H as H.
  apply (f_equal NilZero.uint_of_string) in H.
  rewrite !NilZero.usu in H by apply to_uint_not_nil.
  injection H as H. apply Unsigned.to_uint_inj. exact H.
Qed.

Lemma demo_fresh_ids (f : list bool) : fresh_ids (Demo.world Demo.empty_db f).
Proof. split; [exact demo_uuids_injective | intros o n []]. Qed.

(** Two requests with one key race on the demonstration store and
    provider. *)
Lemma concurrent_checkouts_share_one_order_witness :
  let reqs := [mkCheckoutRequest (Some [Demo.item "p1" 500 2]) (Some "key-1");
               mkCheckoutRequest (Some [Demo.item "p1" 500 2]) (Some "key-1")] in
  let r := run_schedule [0; 1; 1; 0; 1; 1; 0; 0; 0; 1]%nat
             (map createCheckoutSession reqs) (Demo.world Demo.empty_db []) in
  (count_orders "key-1" (db (snd r)) <= 1)%nat
  /\ (forall p reply oid,
         In p (fst r) ->
         outcome p = Some (Return reply) ->
         res_orderId (reply_json reply) = Some oid ->
         count_orders "key-1" (db (snd r)) = 1%nat
         /\ exists o,
              Table.order_findUnique (ByIdempotencyKey "key-1") (db (snd r)) = Some o
              /\ order_id o = oid)
  /\ (forall p1 p2 reply1 reply2 oid1 oid2,
         In p1 (fst r) -> In p2 (fst r) ->
         outcome p1 = Some (Return reply1) ->
         outcome p2 = Some (Return reply2) ->
         res_orderId (reply_json reply1) = Some oid1 ->
         res_orderId (reply_json reply2) = Some oid2 ->
         oid1 = oid2
         /\ res_sessionUrl (reply_json reply1) = res_sessionUrl (reply_json reply2))
  /\ (forall p reply,
         In p (fst r) ->
         outcome p = Some (Return reply) ->
         count_orders "key-1" (db (snd r)) = 1%nat)
  /\ (exists p url oid,
         In p (fst r) /\ outcome p = Some (Return (reply_session url oid))).
Proof.
  cbv zeta.
  destruct (concurrent_checkouts_share_one_order "key-1"
              [mkCheckoutRequest (Some [Demo.item "p1" 500 2]) (Some "key-1");
               mkCheckoutRequest (Some [Demo.item "p1" 500 2]) (Some "key-1")]
              [0; 1; 1; 0; 1; 1; 0; 0; 0; 1]%nat (Demo.world Demo.empty_db []))
    as [H1 [H2 [H3 [H4 [H5 H6]]]]].
  - discriminate.
  - intros req [<- | [<- | []]]; reflexivity.
  - vm_compute. lia.
  - assert (Hvalid : forall req,
               In req [mkCheckoutRequest (Some [Demo.item "p1" 500 2]) (Some "key-1");
                       mkCheckoutRequest (Some [Demo.item "p1" 500 2]) (Some "key-1")] ->
               storable_request req).
    { intros req Hin. exists [Demo.item "p1" 500 2].
      destruct Hin as [<- | [<- | []]];
        (split; [reflexivity | split; [discriminate | split; [reflexivity |]]]);
        vm_compute; discriminate. }
    split; [exact H1 |]. split; [exact H2 |]. split; [| split].
    + intros p1 p2 reply1 reply2 oid1 oid2 Hin1 Hin2 Hout1 Hout2 Hoid1 Hoid2.
      split; [exact (H3 p1 p2 reply1 reply2 oid1 oid2 Hin1 Hin2 Hout1 Hout2 Hoid1 Hoid2) |].
      apply (H4 demo_good (demo_holds "key-1") (demo_keyed_sessions "key-1"))
        with (p1 := p1) (p2 := p2) (oid1 := oid1) (oid2 := oid2); try assumption.
      * intros k s [].
      * intros o sid [].
    + apply H5; [reflexivity | apply demo_fresh_ids | exact Hvalid].
    + apply (H6 demo_good (demo_ids "key-1") (demo_obliging "key-1"));
        try assumption.
      * reflexivity.
      * apply demo_fresh_ids.
      * intros k s [].
      * intros o sid [].
      * intros o1 o2 [].
      * discriminate.
      * vm_compute. intros p [<- | [<- | []]]; discriminate.
Defined.
